(** * Parameter and body decoding core of kin-openapi (package openapi3filter)

    A shallow embedding of [openapi3filter/req_resp_decoder.go]: the parse
    error model, the four value decoders (path, query, header, cookie), the
    schema-directed dispatcher [decodeValue], the object assembler
    [makeObject], the primitive parser and the body decoder registry, followed
    by the properties of the specification that are settled against them.

    Conventions of the embedding.
    - A Go [string] is a Rocq [string] (a sequence of bytes).
    - A Go [map] that the code only reads, writes and ranges over is a [gmap];
      a map whose nil-ness the code tests is an [option] of one.
    - [interface{}] is the type [value]; the untyped nil is [VNil], and a nil
      slice or map stored in an interface is a value different from [VNil],
      as in Go.
    - A Go function that can panic returns in the monad [go].
    - What the file calls in Go's standard library and in package openapi3
      (strconv, fmt, utf8, net/http, the order of a [range] over a map) is not
      part of the repository's sources: it is the class [Externals], and every
      theorem holds for every instance of it.  [refExternals] is the instance
      the closed examples are evaluated with. *)

From Stdlib Require Import ZArith String Ascii List Floats Lia Bool.
From stdpp Require Import base option list gmap strings pretty.

#[local] Set Warnings "-register-all".
#[local] Open Scope string_scope.
#[local] Open Scope list_scope.

(** ** Panics *)

Inductive go (A : Type) : Type :=
| Ret (a : A)
| Panic (why : string).
Arguments Ret {A} a.
Arguments Panic {A} why.

#[global] Instance go_ret : MRet go := fun A a => Ret a.
#[global] Instance go_bind : MBind go := fun A B f m =>
  match m with
  | Ret a => f a
  | Panic why => Panic why
  end.

(** ** Strings *)

Module strings.

(** [s[n:]] for [n <= len(s)]. *)
Fixpoint drop (n : nat) (s : string) : string :=
  match n, s with
  | O, _ => s
  | S n', String _ s' => drop n' s'
  | S _, EmptyString => EmptyString
  end.

(** [strings.HasPrefix(s, prefix)]. *)
Definition HasPrefix (s prefix : string) : bool := String.prefix prefix s.

(** The scan of [strings.Split] for a non-empty separator: [tok] is the piece
    being read, [skip] the bytes of a separator just matched that are still
    to be passed over. *)
Fixpoint splitScan (sep : string) (skip : nat) (tok : string) (s : string) : list string :=
  match s with
  | EmptyString => [tok]
  | String c s' =>
      match skip with
      | S k => splitScan sep k tok s'
      | O =>
          if String.prefix sep s
          then tok :: splitScan sep (String.length sep - 1) EmptyString s'
          else splitScan sep O (tok +:+ String c EmptyString) s'
      end
  end.

(** [strings.Join(elems, sep)]. *)
Fixpoint Join (elems : list string) (sep : string) : string :=
  match elems with
  | [] => EmptyString
  | [x] => x
  | x :: rest => x +:+ sep +:+ Join rest sep
  end.

End strings.

(** ** Decoded values: Go's [interface{}] *)

Inductive value : Type :=
| VNil                                         (* the nil interface *)
| VString (s : string)
| VInt (z : Z)                                 (* int *)
| VInt32 (z : Z)
| VInt64 (z : Z)
| VFloat64 (f : float)
| VBool (b : bool)
| VStrings (l : list string)                   (* []string *)
| VSlice (l : option (list value))             (* []interface{}, None the nil slice *)
| VMap (m : option (gmap string value)).       (* map[string]interface{}, None the nil map *)

(** [v == nil] on an interface. *)
Definition isNil (v : value) : bool :=
  match v with
  | VNil => true
  | _ => false
  end.

(** ** Errors *)

(** ParseErrorKind describes a kind of ParseError. *)
Inductive ParseErrorKind : Type :=
| KindOther
| KindUnsupportedFormat
| KindInvalidFormat.

(** [error] is what the file returns as a Go [error]: a [*ParseError], an
    [errors.New] or [fmt.Errorf] message, a [fmt.Errorf] that wraps an error
    with a trailing [%w], or a [*strconv.NumError]. *)
Record ParseErrorOf (E : Type) : Type := mkParseError {
  Kind : ParseErrorKind;
  Value : value;
  Reason : string;
  Cause : option E;
  path : list value }.
Arguments mkParseError {E}.
Arguments Kind {E}.
Arguments Value {E}.
Arguments Reason {E}.
Arguments Cause {E}.
Arguments path {E}.

Inductive error : Type :=
| EParse (e : ParseErrorOf error)
| ENew (msg : string)
| EWrap (msg : string) (err : error)
| ENum (fn num : string) (err : error).

Abbreviation ParseError := (ParseErrorOf error).

(** [*strconv.NumError]. *)
Record NumError : Type := mkNumError {
  Func : string;
  Num : string;
  Err : error }.

Definition ofNumError (e : NumError) : error := ENum (Func e) (Num e) (Err e).

(** The sentinel errors of strconv and net/http. *)
Definition ErrSyntax : error := ENew "invalid syntax".
Definition ErrRange : error := ENew "value out of range".
Definition ErrNoCookie : error := ENew "http: named cookie not present".

(** ** Schemas and serialization methods (package openapi3) *)

(** [openapi3.Schema] behind a resolved [*SchemaRef]: the attributes the
    decoder reads.  [Type_] is the [*Types] pointer, [Items], [Not] and
    [AdditionalPropertiesSchema] are [*SchemaRef] pointers ([None] is nil).
    [Properties] lists the entries of the properties map in the order in which
    a [range] over it visits them. *)
Inductive Schema : Type := mkSchema {
  Type_ : option (list string);
  Format : string;
  Pattern : string;
  AllOf : list Schema;
  AnyOf : list Schema;
  OneOf : list Schema;
  Not : option Schema;
  Items : option Schema;
  Properties : list (string * Schema);
  AdditionalPropertiesSchema : option Schema }.

(** [schema.Value.Properties[key]]. *)
Fixpoint lookupProperty (props : list (string * Schema)) (key : string) : option Schema :=
  match props with
  | [] => None
  | (k, s) :: rest => if String.eqb k key then Some s else lookupProperty rest key
  end.

(** [openapi3.SerializationMethod]. *)
Record SerializationMethod : Type := mkSM {
  Style : string;
  Explode : bool }.

(** ** What the file calls outside the repository's sources *)

Class Externals : Type := {
  (** strconv *)
  ParseInt : string -> Z -> Z -> Z + NumError;
  ParseFloat : string -> Z -> float + NumError;
  ParseBool : string -> bool + NumError;
  Atoi : string -> Z + NumError;
  (** fmt: the verb [%q] on a string, [%v] on a float, slice or map, and
      [%s] on a [*Types] *)
  Quote : string -> string;
  SprintOther : value -> string;
  SprintTypes : option (list string) -> string;
  (** [strings.Split(s, sep)] when [sep] is empty: the UTF-8 sequences of [s] *)
  explode : string -> list string;
  (** [http.CanonicalHeaderKey] *)
  CanonicalHeaderKey : string -> string;
  (** [parseMediaType] of package openapi3filter: the media type of a
      content type, its parameters stripped *)
  parseMediaType : string -> string;
  (** what [Types.Permits] answers on a nil type set *)
  permitsUntyped : bool;
  (** the order in which a [range] visits the entries of a map (here a
      function of the map: two ranges over one map visit it alike) *)
  rangeOrder : forall V : Type, gmap string V -> list (string * V);
  rangeOrder_perm : forall (V : Type) (m : gmap string V),
    Permutation (rangeOrder V m) (map_to_list m) }.
Arguments rangeOrder {_ V} m.

Section Decoder.
Context {ext : Externals}.

(** [strings.Split(s, sep)]. *)
Definition Split (s sep : string) : list string :=
  match sep with
  | EmptyString => explode s
  | _ => strings.splitScan sep O EmptyString s
  end.

(** Modelled from the spec: [Types.Is], [Types.Permits] and
    [Types.Slice] of package openapi3, which is not under src/.
    [Is(t)]: the type set is exactly this single type; [Permits(t)]: the type
    set contains [t]. *)
Definition Is (types : option (list string)) (typ : string) : bool :=
  match types with
  | Some [t] => String.eqb t typ
  | _ => false
  end.

Definition Permits (types : option (list string)) (typ : string) : bool :=
  match types with
  | None => permitsUntyped
  | Some l => existsb (String.eqb typ) l
  end.

Definition Slice (types : option (list string)) : list string :=
  match types with
  | None => []
  | Some l => l
  end.

(** ** fmt *)

(** The character [0x22], which [%q] and some messages write. *)
Definition dquote : string := String (ascii_of_nat 34) EmptyString.

Definition SprintBool (b : bool) : string := if b then "true" else "false".

(** [fmt.Sprintf("%v", v)]. *)
Definition Sprint (v : value) : string :=
  match v with
  | VNil => "<nil>"
  | VString s => s
  | VInt z | VInt32 z | VInt64 z => pretty z
  | VBool b => SprintBool b
  | _ => SprintOther v
  end.

(** ** ParseError *)

(** [Path] returns a path to the root cause.  [errPath e] is [v.Path()] when
    [e] is a [*ParseError] [v], and empty otherwise (the type assertion on the
    cause fails). *)
Fixpoint errPath (e : error) : list value :=
  match e with
  | EParse pe =>
      match Cause pe with
      | Some c => errPath c
      | None => []
      end ++ path pe
  | _ => []
  end.

Definition Path (e : ParseError) : list value := errPath (EParse e).

(** The body of [innerError]: the value, the reason and the cause, joined. *)
Definition innerWith (inner err : error -> string) (pe : ParseError) : string :=
  strings.Join
    ((if isNil (Value pe) then [] else ["value " +:+ Sprint (Value pe)]) ++
     (if String.eqb (Reason pe) "" then [] else [Reason pe]) ++
     (match Cause pe with
      | None => []
      | Some c =>
          match c with
          | EParse _ => [inner c]
          | _ => [err c]
          end
      end)) ": ".

(** [errorString e] is [e.Error()]; [innerString e] is [v.innerError()] when
    [e] is a [*ParseError] [v]. *)
Fixpoint errorString (e : error) : string :=
  match e with
  | EParse pe =>
      strings.Join
        ((match errPath e with
          | [] => []
          | p => ["path " +:+ strings.Join (map Sprint p) "."]
          end) ++ [innerWith innerString errorString pe]) ": "
  | ENew msg => msg
  | EWrap msg err => msg +:+ errorString err
  | ENum fn num err =>
      "strconv." +:+ fn +:+ ": parsing " +:+ Quote num +:+ ": " +:+ errorString err
  end
with innerString (e : error) : string :=
  match e with
  | EParse pe => innerWith innerString errorString pe
  | _ => EmptyString
  end.

Definition Error (e : ParseError) : string := errorString (EParse e).
Definition innerError (e : ParseError) : string := innerString (EParse e).

(** RootCause returns a root cause of ParseError. *)
Fixpoint errRootCause (e : error) : option error :=
  match e with
  | EParse pe =>
      match Cause pe with
      | Some c =>
          match c with
          | EParse _ => errRootCause c
          | _ => Some c
          end
      | None => None
      end
  | _ => None
  end.

Definition RootCause (e : ParseError) : option error := errRootCause (EParse e).

Definition invalidSerializationMethodErr (sm : SerializationMethod) : error :=
  ENew ("invalid serialization method: style=" +:+ Quote (Style sm) +:+
        ", explode=" +:+ SprintBool (Explode sm)).

(** ** The primitive parser *)

Definition nilDereference : string := "invalid memory address or nil pointer dereference".

Definition invalidFormat (raw typ : string) (e : NumError) : value * option error :=
  (VNil, Some (EParse {| Kind := KindInvalidFormat; Value := VString raw;
                         Reason := "an invalid " +:+ typ; Cause := Some (Err e);
                         path := [] |})).

Definition parsePrimitiveCase (raw : string) (schema : Schema) (typ : string)
  : value * option error :=
  if String.eqb typ "integer" then
    if String.eqb (Format schema) "int32" then
      match ParseInt raw 0 32 with
      | inr e => invalidFormat raw typ e
      | inl v => (VInt32 v, None)
      end
    else
      match ParseInt raw 0 64 with
      | inr e => invalidFormat raw typ e
      | inl v => (VInt64 v, None)
      end
  else if String.eqb typ "number" then
    match ParseFloat raw 64 with
    | inr e => invalidFormat raw typ e
    | inl v => (VFloat64 v, None)
    end
  else if String.eqb typ "boolean" then
    match ParseBool raw with
    | inr e => invalidFormat raw typ e
    | inl v => (VBool v, None)
    end
  else if String.eqb typ "string" then (VString raw, None)
  else
    (VNil, Some (EParse {| Kind := KindOther; Value := VString raw;
                           Reason := "schema has non primitive type " +:+ typ;
                           Cause := None; path := [] |})).

(** The loop of [parsePrimitive] over the types of the schema; [v] and [err]
    are the named results as the previous iteration left them. *)
Fixpoint parsePrimitiveTypes (raw : string) (schema : Schema) (types : list string)
    (v : value) (err : option error) : value * option error :=
  match types with
  | [] => (v, err)
  | typ :: rest =>
      match parsePrimitiveCase raw schema typ with
      | (v', None) => (v', None)
      | (v', Some e) => parsePrimitiveTypes raw schema rest v' (Some e)
      end
  end.

(** parsePrimitive returns a value that is created by parsing a source string
    to a primitive type that is specified by a schema.  The function returns
    nil when the source string is empty. *)
Definition parsePrimitive (raw : string) (schema : option Schema) : go (value * option error) :=
  if String.eqb raw "" then Ret (VNil, None)
  else
    match schema with
    | None => Panic nilDereference
    | Some sc => Ret (parsePrimitiveTypes raw sc (Slice (Type_ sc)) VNil None)
    end.

(** [append(value, item)] on a [[]interface{}]. *)
Definition appendValue (s : option (list value)) (item : value) : option (list value) :=
  Some (default [] s ++ [item]).

(** The error of an array for the item of index [i] that fails with [err]. *)
Definition itemError (i : Z) (err : error) : error :=
  match err with
  | EParse _ =>
      EParse {| Kind := KindOther; Value := VNil; Reason := ""; Cause := Some err;
                path := [VInt i] |}
  | _ => EWrap ("item " +:+ pretty i +:+ ": ") err
  end.

(** The loop shared by [parseArray] and [urlValuesDecoder.parseArray], which
    differ in the parser of an item only; [i] is the index of the head of
    [raw], [acc] the slice built so far. *)
Fixpoint parseItems (parse : string -> go (value * option error)) (i : Z)
    (raw : list string) (acc : option (list value))
  : go (option (list value) * option error) :=
  match raw with
  | [] => Ret (acc, None)
  | v :: rest =>
      r ← parse v;
      match r with
      | (_, Some err) => Ret (None, Some (itemError i err))
      | (item, None) =>
          if isNil item then Ret (None, None)
          else parseItems parse (i + 1)%Z rest (appendValue acc item)
      end
  end.

(** parseArray returns an array that contains items from a raw array.
    Every item is parsed as a primitive value. *)
Definition parseArray (raw : list string) (schemaRef : Schema)
  : go (option (list value) * option error) :=
  parseItems (fun v => parsePrimitive v (Items schemaRef)) 0 raw None.

(** cutPrefix validates that a raw value of a path parameter has the specified
    prefix, and returns a raw value without the prefix. *)
Definition cutPrefix (raw prefix : string) : string * option error :=
  if String.eqb prefix "" then (raw, None)
  else if negb (strings.HasPrefix raw prefix) then
    ("", Some (EParse {| Kind := KindInvalidFormat; Value := VString raw;
                         Reason := "a value must be prefixed with " +:+ Quote prefix;
                         Cause := None; path := [] |}))
  else (strings.drop (String.length prefix) raw, None).

(** ** The property splitter *)

Definition propsFormatErr (src propDelim valueDelim : string) : error :=
  EParse {| Kind := KindInvalidFormat; Value := VString src;
            Reason := "a value must be a list of object's properties in format " +:+
                      dquote +:+ "name" +:+ valueDelim +:+ "value" +:+ dquote +:+
                      " separated by " +:+ propDelim;
            Cause := None; path := [] |}.

(** [props[pairs[i*2]] = pairs[i*2+1]] for [i < len(pairs)/2]. *)
Fixpoint pairUp (pairs : list string) (props : gmap string string) : gmap string string :=
  match pairs with
  | k :: v :: rest => pairUp rest (<[k := v]> props)
  | _ => props
  end.

(** The loop over the pairs when the two delimiters differ. *)
Fixpoint splitPairs (src propDelim valueDelim : string) (pairs : list string)
    (props : gmap string string) : option (gmap string string) * option error :=
  match pairs with
  | [] => (Some props, None)
  | pair_ :: rest =>
      match Split pair_ valueDelim with
      | [k; v] => splitPairs src propDelim valueDelim rest (<[k := v]> props)
      | _ => (None, Some (propsFormatErr src propDelim valueDelim))
      end
  end.

(** propsFromString returns a properties map that is created by splitting a
    source string by propDelim and valueDelim. *)
Definition propsFromString (src propDelim valueDelim : string)
  : option (gmap string string) * option error :=
  let pairs := Split src propDelim in
  if String.eqb propDelim valueDelim then
    if negb (Nat.eqb (length pairs mod 2) 0)
    then (None, Some (propsFormatErr src propDelim valueDelim))
    else (Some (pairUp pairs ∅), None)
  else splitPairs src propDelim valueDelim pairs ∅.

(** ** The object assembler *)

(** [urlDecoderDelimiter]: the byte [0x1F], which should not conflict with
    URL characters. *)
Definition urlDecoderDelimiter : string := String (ascii_of_nat 31) EmptyString.

(** [props[key]] on a [map[string]string]: the empty string when absent. *)
Definition getProp (props : gmap string string) (key : string) : string :=
  default "" (props !! key).

Fixpoint deepGet (m : option (gmap string value)) (keys : list string) : value * bool :=
  match keys with
  | [] => (VMap m, true)
  | key :: rest =>
      match default ∅ m !! key with
      | None => (VNil, false)
      | Some (VMap m') => deepGet m' rest
      | Some val => (val, true)
      end
  end.

(** [deepSet] updates the map in place; here it returns the updated map.  The
    nested maps of an object are reachable along one path only, so the two
    agree. *)
Fixpoint deepSet (m : gmap string value) (keys : list string) (v : value)
  : go (gmap string value) :=
  match keys with
  | [] => Panic "index out of range [-1]"
  | key :: rest =>
      match rest with
      | [] => Ret (<[key := v]> m)
      | _ :: _ =>
          match m !! key with
          | None =>
              sub ← deepSet ∅ rest v; Ret (<[key := VMap (Some sub)]> m)
          | Some (VMap (Some inner)) =>
              sub ← deepSet inner rest v; Ret (<[key := VMap (Some sub)]> m)
          | Some (VMap None) => Panic "assignment to entry in nil map"
          | Some _ => Panic "interface conversion: not a map[string]interface {}"
          end
      end
  end.

Fixpoint findNestedSchema (currentSchema : Schema) (keys : list string) : Schema + error :=
  match keys with
  | [] => inl currentSchema
  | key :: rest =>
      match lookupProperty (Properties currentSchema) key with
      | None =>
          match AdditionalPropertiesSchema currentSchema with
          | None => inr (ENew ("nested schema for key " +:+ Quote key +:+ " not found"))
          | Some sc => findNestedSchema sc rest
          end
      | Some propertySchema => findNestedSchema propertySchema rest
      end
  end.

(** One of the three conversion loops of [convertArrayParameterToType]: empty
    strings are skipped, the first item that does not convert ends the loop
    with its error. *)
Fixpoint convertItems (conv : string -> value + NumError) (strArray : list string)
    (iarr : option (list value)) : value * option error :=
  match strArray with
  | [] => (VSlice iarr, None)
  | str :: rest =>
      if String.eqb str "" then convertItems conv rest iarr
      else
        match conv str with
        | inr e => (VNil, Some (ofNumError e))
        | inl v => convertItems conv rest (appendValue iarr v)
        end
  end.

Definition convertArrayParameterToType (strArray : list string) (typ : option (list string))
  : value * option error :=
  if Permits typ "boolean" then
    convertItems (fun str => match ParseBool str with
                             | inl b => inl (VBool b)
                             | inr e => inr e
                             end) strArray None
  else if Permits typ "integer" then
    convertItems (fun str => match Atoi str with
                             | inl z => inl (VInt z)
                             | inr e => inr e
                             end) strArray None
  else if Permits typ "number" then
    convertItems (fun str => match ParseFloat str 64 with
                             | inl f => inl (VFloat64 f)
                             | inr e => inr e
                             end) strArray None
  else if Permits typ "string" then (VStrings strArray, None)
  else (VNil, Some (ENew ("unsupported parameter array type: " +:+ SprintTypes typ))).

Definition pathFromKeys (kk : list string) : list value := map VString kk.

Definition handlePropParseError (path_ : list string) (err : error) : error :=
  match err with
  | EParse _ =>
      EParse {| Kind := KindOther; Value := VNil; Reason := ""; Cause := Some err;
                path := pathFromKeys path_ |}
  | _ => EWrap ("property " +:+ Quote (strings.Join path_ ".") +:+ ": ") err
  end.

(** The first error of [parsePrimitive] over the items of an array property. *)
Fixpoint checkItems (vals : list string) (items : option Schema) : go (option error) :=
  match vals with
  | [] => Ret None
  | v :: rest =>
      r ← parsePrimitive v items;
      match r with
      | (_, Some err) => Ret (Some err)
      | (_, None) => checkItems rest items
      end
  end.

(** The array rule of [makeObject], which the source has twice (for a declared
    array property and for a nested key whose schema permits an array): split
    the raw value, parse every item, convert the list.  The error is returned
    as it is; the caller wraps it with the path of the property. *)
Definition arrayProperty (raw : string) (propSchema : Schema) : go (value * option error) :=
  let vals := Split raw urlDecoderDelimiter in
  e ← checkItems vals (Items propSchema);
  match e with
  | Some err => Ret (VNil, Some err)
  | None =>
      match Items propSchema with
      | None => Panic nilDereference
      | Some items => Ret (convertArrayParameterToType vals (Type_ items))
      end
  end.

(** The loop of an object property over the keys of [props]; [entries] is
    what is left of the range over [props]. *)
Fixpoint nestedProps (props : gmap string string) (schema : Schema) (propName : string)
    (entries : list (string * string)) (obj : gmap string value)
  : go (gmap string value + error) :=
  match entries with
  | [] => Ret (inl obj)
  | (prop, _) :: rest =>
      if negb (strings.HasPrefix prop (propName +:+ urlDecoderDelimiter))
      then nestedProps props schema propName rest obj
      else
        let mapKeys := Split prop urlDecoderDelimiter in
        match findNestedSchema schema mapKeys with
        | inr err =>
            Ret (inr (EParse {| Kind := KindOther; Value := VNil;
                                Reason := errorString err; Cause := None;
                                path := pathFromKeys mapKeys |}))
        | inl nestedSchema =>
            if Permits (Type_ nestedSchema) "array" then
              r ← arrayProperty (getProp props prop) nestedSchema;
              match r with
              | (_, Some err) => Ret (inr (handlePropParseError mapKeys err))
              | (ivals, None) =>
                  obj' ← deepSet obj mapKeys ivals;
                  nestedProps props schema propName rest obj'
              end
            else
              r ← parsePrimitive (getProp props prop) (Some nestedSchema);
              match r with
              | (_, Some err) => Ret (inr (handlePropParseError mapKeys err))
              | (val, None) =>
                  obj' ← deepSet obj mapKeys val;
                  nestedProps props schema propName rest obj'
              end
        end
  end.

(** The loop of [makeObject] over the declared properties; [todo] is what is
    left of the range over [schema.Value.Properties]. *)
Fixpoint makeObjectProps (props : gmap string string) (schema : Schema)
    (todo : list (string * Schema)) (obj : gmap string value)
  : go (option (gmap string value) * option error) :=
  match todo with
  | [] => Ret (Some obj, None)
  | (propName, propSchema) :: rest =>
      if Is (Type_ propSchema) "array" then
        r ← arrayProperty (getProp props propName) propSchema;
        match r with
        | (_, Some err) => Ret (None, Some (handlePropParseError [propName] err))
        | (ivals, None) => makeObjectProps props schema rest (<[propName := ivals]> obj)
        end
      else if Is (Type_ propSchema) "object" then
        r ← nestedProps props schema propName (rangeOrder props) obj;
        match r with
        | inr err => Ret (None, Some err)
        | inl obj' => makeObjectProps props schema rest obj'
        end
      else
        r ← parsePrimitive (getProp props propName) (Some propSchema);
        match r with
        | (_, Some err) => Ret (None, Some (handlePropParseError [propName] err))
        | (val, None) => makeObjectProps props schema rest (<[propName := val]> obj)
        end
  end.

(** makeObject returns an object that contains properties from props.
    A value of every property is parsed as a primitive value. *)
Definition makeObject (props : gmap string string) (schema : Schema)
  : go (option (gmap string value) * option error) :=
  makeObjectProps props schema (Properties schema) ∅.

(** ** The value decoders *)

(** The results of the three operations of a value decoder. *)
Definition primitiveResult : Type := value * bool * option error.
Definition arrayResult : Type := option (list value) * bool * option error.
Definition objectResult : Type := option (gmap string value) * bool * option error.

(** [raw, ok := m[key]] on a [map[string]string]. *)
Definition commaOk (m : gmap string string) (key : string) : string * bool :=
  match m !! key with
  | Some raw => (raw, true)
  | None => ("", false)
  end.

(** [values, ok := m[key]] on a [map[string][]string]. *)
Definition commaOkValues (m : gmap string (list string)) (key : string)
  : list string * bool :=
  match m !! key with
  | Some values => (values, true)
  | None => ([], false)
  end.

(** *** pathParamDecoder decodes values of path parameters. *)

Definition path_DecodePrimitive (pathParams : option (gmap string string))
    (param : string) (sm : SerializationMethod) (schema : Schema) : go primitiveResult :=
  match (if String.eqb (Style sm) "simple" then Some ""
         else if String.eqb (Style sm) "label" then Some "."
         else if String.eqb (Style sm) "matrix" then Some (";" +:+ param +:+ "=")
         else None) with
  | None => Ret (VNil, false, Some (invalidSerializationMethodErr sm))
  | Some prefix =>
      match pathParams with
      | None => Ret (VNil, false, None)
      | Some pp =>
          let '(raw, ok) := commaOk pp param in
          if negb ok || String.eqb raw "" then Ret (VNil, false, None)
          else
            match cutPrefix raw prefix with
            | (_, Some err) => Ret (VNil, ok, Some err)
            | (src, None) =>
                r ← parsePrimitive src (Some schema);
                Ret (r.1, ok, r.2)
            end
      end
  end.

Definition path_DecodeArray (pathParams : option (gmap string string))
    (param : string) (sm : SerializationMethod) (schema : Schema) : go arrayResult :=
  match (if String.eqb (Style sm) "simple" then Some ("", ",")
         else if String.eqb (Style sm) "label" && negb (Explode sm) then Some (".", ",")
         else if String.eqb (Style sm) "label" && Explode sm then Some (".", ".")
         else if String.eqb (Style sm) "matrix" && negb (Explode sm)
              then Some (";" +:+ param +:+ "=", ",")
         else if String.eqb (Style sm) "matrix" && Explode sm
              then Some (";" +:+ param +:+ "=", ";" +:+ param +:+ "=")
         else None) with
  | None => Ret (None, false, Some (invalidSerializationMethodErr sm))
  | Some (prefix, delim) =>
      match pathParams with
      | None => Ret (None, false, None)
      | Some pp =>
          let '(raw, ok) := commaOk pp param in
          if negb ok || String.eqb raw "" then Ret (None, false, None)
          else
            match cutPrefix raw prefix with
            | (_, Some err) => Ret (None, ok, Some err)
            | (src, None) =>
                r ← parseArray (Split src delim) schema;
                Ret (r.1, ok, r.2)
            end
      end
  end.

Definition path_DecodeObject (pathParams : option (gmap string string))
    (param : string) (sm : SerializationMethod) (schema : Schema) : go objectResult :=
  match (if String.eqb (Style sm) "simple" && negb (Explode sm) then Some ("", ",", ",")
         else if String.eqb (Style sm) "simple" && Explode sm then Some ("", ",", "=")
         else if String.eqb (Style sm) "label" && negb (Explode sm) then Some (".", ",", ",")
         else if String.eqb (Style sm) "label" && Explode sm then Some (".", ".", "=")
         else if String.eqb (Style sm) "matrix" && negb (Explode sm)
              then Some (";" +:+ param +:+ "=", ",", ",")
         else if String.eqb (Style sm) "matrix" && Explode sm then Some (";", ";", "=")
         else None) with
  | None => Ret (None, false, Some (invalidSerializationMethodErr sm))
  | Some (prefix, propsDelim, valueDelim) =>
      match pathParams with
      | None => Ret (None, false, None)
      | Some pp =>
          let '(raw, ok) := commaOk pp param in
          if negb ok || String.eqb raw "" then Ret (None, false, None)
          else
            match cutPrefix raw prefix with
            | (_, Some err) => Ret (None, ok, Some err)
            | (src, None) =>
                match propsFromString src propsDelim valueDelim with
                | (_, Some err) => Ret (None, ok, Some err)
                | (props, None) =>
                    r ← makeObject (default ∅ props) schema;
                    Ret (r.1, ok, r.2)
                end
            end
      end
  end.

(** *** urlValuesDecoder decodes values of query parameters. *)

Definition notImplementedNot : error := ENew "not implemented: decoding 'not'".

(** The [allOf] loop of [parseValue]; [value] and [err] are the variables of
    the loop as the previous member left them. *)
Fixpoint parseAllOf (parse : Schema -> go (value * option error)) (members : list Schema)
    (val : value) (err : option error) : go (value * option error) :=
  match members with
  | [] => Ret (val, err)
  | sr :: rest =>
      r ← parse sr;
      let '(val', err') := r in
      if isNil val' || bool_decide (err' <> None) then Ret (val', err')
      else parseAllOf parse rest val' err'
  end.

(** The [anyOf] loop of [parseValue]. *)
Fixpoint parseAnyOf (parse : Schema -> go (value * option error)) (members : list Schema)
    (err : option error) : go (value * option error) :=
  match members with
  | [] => Ret (VNil, err)
  | sr :: rest =>
      r ← parse sr;
      match r with
      | (val, None) => Ret (val, None)
      | (_, Some e) => parseAnyOf parse rest (Some e)
      end
  end.

(** The [oneOf] loop of [parseValue]: the last value parsed without error and
    the number of members that parsed without error. *)
Fixpoint parseOneOf (parse : Schema -> go (value * option error)) (members : list Schema)
    (val : value) (isMatched : Z) : go (value * Z) :=
  match members with
  | [] => Ret (val, isMatched)
  | sr :: rest =>
      r ← parse sr;
      match r with
      | (result, None) => parseOneOf parse rest result (isMatched + 1)%Z
      | (_, Some _) => parseOneOf parse rest val isMatched
      end
  end.

Definition oneOfMatchedErr (isMatched : Z) : error :=
  ENew ("decoding oneOf failed: " +:+ pretty isMatched +:+ " schemas matched").

Fixpoint parseValue (v : string) (schema : Schema) : go (value * option error) :=
  match AllOf schema with
  | _ :: _ => parseAllOf (parseValue v) (AllOf schema) VNil None
  | [] =>
      match AnyOf schema with
      | _ :: _ => parseAnyOf (parseValue v) (AnyOf schema) None
      | [] =>
          match OneOf schema with
          | _ :: _ =>
              r ← parseOneOf (parseValue v) (OneOf schema) VNil 0;
              let '(val, isMatched) := r in
              if (isMatched =? 1)%Z then Ret (val, None)
              else Ret (VNil, Some (oneOfMatchedErr isMatched))
          | [] =>
              match Not schema with
              | Some _ => Ret (VNil, Some notImplementedNot)
              | None => parsePrimitive v (Some schema)
              end
          end
      end
  end.

(** [d.parseValue(v, schemaRef.Value.Items)]: the items schema is dereferenced
    first. *)
Definition parseValueRef (v : string) (schema : option Schema) : go (value * option error) :=
  match schema with
  | None => Panic nilDereference
  | Some sc => parseValue v sc
  end.

(** [urlValuesDecoder.parseArray]. *)
Definition query_parseArray (raw : list string) (schemaRef : Schema)
  : go (option (list value) * option error) :=
  parseItems (fun v => parseValueRef v (Items schemaRef)) 0 raw None.

Definition query_DecodePrimitive (values : gmap string (list string))
    (param : string) (sm : SerializationMethod) (schema : Schema) : go primitiveResult :=
  if negb (String.eqb (Style sm) "form")
  then Ret (VNil, false, Some (invalidSerializationMethodErr sm))
  else
    let '(vals, ok) := commaOkValues values param in
    match vals with
    | [] => Ret (VNil, ok, None)
    | v0 :: _ =>
        if bool_decide (Type_ schema = None) && negb (String.eqb (Pattern schema) "")
        then Ret (VString v0, ok, None)
        else
          r ← parsePrimitive v0 (Some schema);
          Ret (r.1, ok, r.2)
    end.

Definition query_DecodeArray (values : gmap string (list string))
    (param : string) (sm : SerializationMethod) (schema : Schema) : go arrayResult :=
  if String.eqb (Style sm) "deepObject"
  then Ret (None, false, Some (invalidSerializationMethodErr sm))
  else
    let '(vals, ok) := commaOkValues values param in
    match vals with
    | [] => Ret (None, ok, None)
    | v0 :: _ =>
        let vals' :=
          if negb (Explode sm) then
            let delim :=
              if String.eqb (Style sm) "form" then ","
              else if String.eqb (Style sm) "spaceDelimited" then " "
              else if String.eqb (Style sm) "pipeDelimited" then "|"
              else "" in
            Split v0 delim
          else vals in
        r ← query_parseArray vals' schema;
        Ret (r.1, ok, r.2)
    end.

(** The capture of the group of [\[(.*?)\]] once the opening bracket is read:
    the bytes up to the first closing bracket, unless a newline comes first
    (the dot does not match it).  The rest of the key follows the capture. *)
Fixpoint untilBracket (s : string) (acc : string) : option (string * string) :=
  match s with
  | EmptyString => None
  | String c s' =>
      if Ascii.eqb c "]" then Some (acc, s')
      else if Ascii.eqb c (ascii_of_nat 10) then None
      else untilBracket s' (acc +:+ String c EmptyString)
  end.

(** The first submatches of [FindAllStringSubmatch(key, -1)] for the regular
    expression of the deepObject style, left to right; [n] bounds the number
    of bytes still to scan. *)
Fixpoint bracketsFrom (n : nat) (s : string) : list string :=
  match n, s with
  | S n', String c s' =>
      if Ascii.eqb c "[" then
        match untilBracket s' EmptyString with
        | Some (m, rest) => m :: bracketsFrom n' rest
        | None => bracketsFrom n' s'
        end
      else bracketsFrom n' s'
  | _, _ => []
  end.

Definition findBrackets (key : string) : list string :=
  bracketsFrom (String.length key) key.

(** The explode branch of the form style: [props[key] = values[0]] for every
    key of the query. *)
Fixpoint firstValues (entries : list (string * list string)) (props : gmap string string)
  : go (gmap string string) :=
  match entries with
  | [] => Ret props
  | (key, vals) :: rest =>
      match vals with
      | [] => Panic "index out of range [0] with length 0"
      | v0 :: _ => firstValues rest (<[key := v0]> props)
      end
  end.

(** The loop of the deepObject style over the keys of the query. *)
Fixpoint deepObjectProps (entries : list (string * list string)) (props : gmap string string)
  : gmap string string :=
  match entries with
  | [] => props
  | (key, vals) :: rest =>
      match findBrackets key with
      | [] => deepObjectProps rest props
      | [m] =>
          deepObjectProps rest (<[m := strings.Join vals urlDecoderDelimiter]> props)
      | kk =>
          deepObjectProps rest
            (<[strings.Join kk urlDecoderDelimiter :=
                 strings.Join vals urlDecoderDelimiter]> props)
      end
  end.

(** [propsFn(d.values)]: [None] when the style is neither form nor deepObject. *)
Definition query_propsFn (param : string) (sm : SerializationMethod)
    (params : gmap string (list string))
  : option (go (option (gmap string string) * option error)) :=
  if String.eqb (Style sm) "form" then
    Some (if bool_decide (params = ∅) then Ret (None, None)
          else if Explode sm then
            props ← firstValues (rangeOrder params) ∅; Ret (Some props, None)
          else
            match (commaOkValues params param).1 with
            | [] => Ret (None, None)
            | v0 :: _ => Ret (propsFromString v0 "," ",")
            end)
  else if String.eqb (Style sm) "deepObject" then
    Some (let props := deepObjectProps (rangeOrder params) ∅ in
          if bool_decide (props = ∅) then Ret (None, None) else Ret (Some props, None))
  else None.

(** Whether some key of [props], split into a path, leads to a value of [val]. *)
Fixpoint anyDeepGet (val : option (gmap string value)) (entries : list (string * string))
  : bool :=
  match entries with
  | [] => false
  | (k, _) :: rest =>
      if (deepGet val (Split k urlDecoderDelimiter)).2 then true
      else anyDeepGet val rest
  end.

(** The loop that computes [found] in [urlValuesDecoder.DecodeObject]. *)
Fixpoint foundProps (props : gmap string string) (schema : Schema)
    (val : option (gmap string value)) (todo : list (string * Schema)) : bool :=
  match todo with
  | [] => false
  | (propName, _) :: rest =>
      if bool_decide (is_Some (props !! propName)) then true
      else if (Permits (Type_ schema) "array" || Permits (Type_ schema) "object")
              && anyDeepGet val (rangeOrder props)
      then true
      else foundProps props schema val rest
  end.

Definition query_DecodeObject (values : gmap string (list string))
    (param : string) (sm : SerializationMethod) (schema : Schema) : go objectResult :=
  match query_propsFn param sm values with
  | None => Ret (None, false, Some (invalidSerializationMethodErr sm))
  | Some propsFn =>
      r ← propsFn;
      match r with
      | (_, Some err) => Ret (None, false, Some err)
      | (None, None) => Ret (None, false, None)
      | (Some props, None) =>
          o ← makeObject props schema;
          match o with
          | (_, Some err) => Ret (None, false, Some err)
          | (val, None) =>
              Ret (val, foundProps props schema val (Properties schema), None)
          end
      end
  end.

(** *** headerParamDecoder decodes values of header parameters. *)

Definition header_DecodePrimitive (header : gmap string (list string))
    (param : string) (sm : SerializationMethod) (schema : Schema) : go primitiveResult :=
  if negb (String.eqb (Style sm) "simple")
  then Ret (VNil, false, Some (invalidSerializationMethodErr sm))
  else
    let '(raw, ok) := commaOkValues header (CanonicalHeaderKey param) in
    match raw with
    | [] => Ret (VNil, ok, None)
    | r0 :: _ =>
        r ← parsePrimitive r0 (Some schema);
        Ret (r.1, ok, r.2)
    end.

Definition header_DecodeArray (header : gmap string (list string))
    (param : string) (sm : SerializationMethod) (schema : Schema) : go arrayResult :=
  if negb (String.eqb (Style sm) "simple")
  then Ret (None, false, Some (invalidSerializationMethodErr sm))
  else
    let '(raw, ok) := commaOkValues header (CanonicalHeaderKey param) in
    match raw with
    | [] => Ret (None, ok, None)
    | r0 :: _ =>
        r ← parseArray (Split r0 ",") schema;
        Ret (r.1, ok, r.2)
    end.

Definition header_DecodeObject (header : gmap string (list string))
    (param : string) (sm : SerializationMethod) (schema : Schema) : go objectResult :=
  if negb (String.eqb (Style sm) "simple")
  then Ret (None, false, Some (invalidSerializationMethodErr sm))
  else
    let valueDelim := if Explode sm then "=" else "," in
    let '(raw, ok) := commaOkValues header (CanonicalHeaderKey param) in
    match raw with
    | [] => Ret (None, ok, None)
    | r0 :: _ =>
        match propsFromString r0 "," valueDelim with
        | (_, Some err) => Ret (None, ok, Some err)
        | (props, None) =>
            r ← makeObject (default ∅ props) schema;
            Ret (r.1, ok, r.2)
        end
    end.

(** *** cookieParamDecoder decodes values of cookie parameters. *)

(** [*http.Request] as the decoders read it: the header map, and
    [req.Cookie(name)], which gives the value of the named cookie or an error,
    [http.ErrNoCookie] when the request has no such cookie. *)
Record Request : Type := mkRequest {
  Header : gmap string (list string);
  Cookie : string -> string + error }.

(** [err != http.ErrNoCookie]. *)
Definition notErrNoCookie (r : string + error) : bool :=
  match r with
  | inr (ENew msg) => negb (String.eqb msg "http: named cookie not present")
  | _ => true
  end.

Definition decodingParamErr (param : string) (err : error) : error :=
  EWrap ("decoding param " +:+ Quote param +:+ ": ") err.

Definition cookie_DecodePrimitive (req : Request)
    (param : string) (sm : SerializationMethod) (schema : Schema) : go primitiveResult :=
  if negb (String.eqb (Style sm) "form")
  then Ret (VNil, false, Some (invalidSerializationMethodErr sm))
  else
    let cookie := Cookie req param in
    let found := notErrNoCookie cookie in
    if negb found then Ret (VNil, found, None)
    else
      match cookie with
      | inr err => Ret (VNil, found, Some (decodingParamErr param err))
      | inl cookieValue =>
          r ← parsePrimitive cookieValue (Some schema);
          Ret (r.1, found, r.2)
      end.

Definition cookie_DecodeArray (req : Request)
    (param : string) (sm : SerializationMethod) (schema : Schema) : go arrayResult :=
  if negb (String.eqb (Style sm) "form") || Explode sm
  then Ret (None, false, Some (invalidSerializationMethodErr sm))
  else
    let cookie := Cookie req param in
    let found := notErrNoCookie cookie in
    if negb found then Ret (None, found, None)
    else
      match cookie with
      | inr err => Ret (None, found, Some (decodingParamErr param err))
      | inl cookieValue =>
          r ← parseArray (Split cookieValue ",") schema;
          Ret (r.1, found, r.2)
      end.

Definition cookie_DecodeObject (req : Request)
    (param : string) (sm : SerializationMethod) (schema : Schema) : go objectResult :=
  if negb (String.eqb (Style sm) "form") || Explode sm
  then Ret (None, false, Some (invalidSerializationMethodErr sm))
  else
    let cookie := Cookie req param in
    let found := notErrNoCookie cookie in
    if negb found then Ret (None, found, None)
    else
      match cookie with
      | inr err => Ret (None, found, Some (decodingParamErr param err))
      | inl cookieValue =>
          match propsFromString cookieValue "," "," with
          | (_, Some err) => Ret (None, found, Some err)
          | (props, None) =>
              r ← makeObject (default ∅ props) schema;
              Ret (r.1, found, r.2)
          end
      end.

(** *** The interface valueDecoder *)

(** An implementation of the interface other than the four of this file. *)
Record decoderMethods : Type := mkDecoderMethods {
  otherDecodePrimitive : string -> SerializationMethod -> Schema -> go primitiveResult;
  otherDecodeArray : string -> SerializationMethod -> Schema -> go arrayResult;
  otherDecodeObject : string -> SerializationMethod -> Schema -> go objectResult }.

(** A value of the interface [valueDecoder], by its dynamic type. *)
Inductive valueDecoder : Type :=
| pathParamDecoder (pathParams : option (gmap string string))
| urlValuesDecoder (values : gmap string (list string))
| headerParamDecoder (header : gmap string (list string))
| cookieParamDecoder (req : Request)
| otherDecoder (methods : decoderMethods).

Definition DecodePrimitive (dec : valueDecoder) : string -> SerializationMethod -> Schema -> go primitiveResult :=
  match dec with
  | pathParamDecoder pathParams => path_DecodePrimitive pathParams
  | urlValuesDecoder values => query_DecodePrimitive values
  | headerParamDecoder header => header_DecodePrimitive header
  | cookieParamDecoder req => cookie_DecodePrimitive req
  | otherDecoder methods => otherDecodePrimitive methods
  end.

Definition DecodeArray (dec : valueDecoder) : string -> SerializationMethod -> Schema -> go arrayResult :=
  match dec with
  | pathParamDecoder pathParams => path_DecodeArray pathParams
  | urlValuesDecoder values => query_DecodeArray values
  | headerParamDecoder header => header_DecodeArray header
  | cookieParamDecoder req => cookie_DecodeArray req
  | otherDecoder methods => otherDecodeArray methods
  end.

Definition DecodeObject (dec : valueDecoder) : string -> SerializationMethod -> Schema -> go objectResult :=
  match dec with
  | pathParamDecoder pathParams => path_DecodeObject pathParams
  | urlValuesDecoder values => query_DecodeObject values
  | headerParamDecoder header => header_DecodeObject header
  | cookieParamDecoder req => cookie_DecodeObject req
  | otherDecoder methods => otherDecodeObject methods
  end.

(** ** The schema-directed dispatcher *)

(** The [allOf] loop of [decodeValue]; [val], [found] and [err] are the
    variables of the function as the previous member left them. *)
Fixpoint decodeAllOf (decode : Schema -> go primitiveResult) (members : list Schema)
    (val : value) (found : bool) (err : option error) : go primitiveResult :=
  match members with
  | [] => Ret (val, found, err)
  | sr :: rest =>
      r ← decode sr;
      let '(val', f, err') := r in
      let found' := found || f in
      if isNil val' || bool_decide (err' <> None) then Ret (val', found', err')
      else decodeAllOf decode rest val' found' err'
  end.

(** The [anyOf] loop of [decodeValue] and what follows it. *)
Fixpoint decodeAnyOf (decode : Schema -> go primitiveResult) (param : string)
    (required : bool) (members : list Schema) (found : bool) : go primitiveResult :=
  match members with
  | [] =>
      if required
      then Ret (VNil, found,
                Some (ENew ("decoding anyOf for parameter " +:+ Quote param +:+ " failed")))
      else Ret (VNil, found, None)
  | sr :: rest =>
      r ← decode sr;
      let '(val, f, _) := r in
      let found' := found || f in
      if negb (isNil val) then Ret (val, found', None)
      else decodeAnyOf decode param required rest found'
  end.

(** The [oneOf] loop of [decodeValue]: the last value that is not nil, the
    number of members that gave one, and [found]. *)
Fixpoint decodeOneOf (decode : Schema -> go primitiveResult) (members : list Schema)
    (val : value) (isMatched : Z) (found : bool) : go (value * Z * bool) :=
  match members with
  | [] => Ret (val, isMatched, found)
  | sr :: rest =>
      r ← decode sr;
      let '(v, f, _) := r in
      let found' := found || f in
      if negb (isNil v) then decodeOneOf decode rest v (isMatched + 1)%Z found'
      else decodeOneOf decode rest val isMatched found'
  end.

Fixpoint decodeValue (dec : valueDecoder) (param : string) (sm : SerializationMethod)
    (schema : Schema) (required : bool) {struct schema} : go primitiveResult :=
  match AllOf schema with
  | _ :: _ =>
      decodeAllOf (fun sr => decodeValue dec param sm sr required) (AllOf schema)
        VNil false None
  | [] =>
  match AnyOf schema with
  | _ :: _ =>
      decodeAnyOf (fun sr => decodeValue dec param sm sr required) param required
        (AnyOf schema) false
  | [] =>
  match OneOf schema with
  | _ :: _ =>
      r ← decodeOneOf (fun sr => decodeValue dec param sm sr required) (OneOf schema)
            VNil 0 false;
      let '(val, isMatched, found) := r in
      if (1 <=? isMatched)%Z then Ret (val, found, None)
      else if required
      then Ret (VNil, found,
                Some (ENew ("decoding oneOf failed: " +:+ Quote param +:+ " is required")))
      else Ret (VNil, found, None)
  | [] =>
  match Not schema with
  | Some _ => Ret (VNil, false, Some notImplementedNot)
  | None =>
  match Type_ schema with
  | Some _ =>
      if Is (Type_ schema) "array" then
        r ← DecodeArray dec param sm schema;
        Ret (VSlice r.1.1, r.1.2, r.2)
      else if Is (Type_ schema) "object" then
        r ← DecodeObject dec param sm schema;
        Ret (VMap r.1.1, r.1.2, r.2)
      else DecodePrimitive dec param sm schema
  | None =>
      match dec with
      | pathParamDecoder pathParams =>
          Ret (VNil, bool_decide (is_Some (default ∅ pathParams !! param)), None)
      | urlValuesDecoder values =>
          if negb (String.eqb (Pattern schema) "")
          then DecodePrimitive dec param sm schema
          else Ret (VNil, bool_decide (is_Some (values !! param)), None)
      | headerParamDecoder header =>
          Ret (VNil, bool_decide (is_Some (header !! CanonicalHeaderKey param)), None)
      | cookieParamDecoder req => Ret (VNil, notErrNoCookie (Cookie req param), None)
      | otherDecoder _ => Ret (VNil, false, Some (ENew "unsupported decoder"))
      end
  end end end end end.

(** ** The facade for styled parameters *)

(** [openapi3.Parameter] as [decodeStyledParameter] reads it ([Parameter] is
    a keyword here, hence the name).  The method
    [param.SerializationMethod()] belongs to package openapi3, which is not
    under src/: [ParamSerializationMethod] is what it returns for the
    parameter. *)
Record Param : Type := mkParam {
  Name : string;
  In : string;
  Required : bool;
  ParamSchema : Schema;
  ParamSerializationMethod : SerializationMethod + error }.

(** [RequestValidationInput]: the request, the path parameters and what
    [input.GetQueryParams()] returns. *)
Record RequestValidationInput : Type := mkInput {
  InputRequest : Request;
  PathParams : option (gmap string string);
  QueryParams : gmap string (list string) }.

(** decodeStyledParameter returns a value of an operation's parameter from
    HTTP request for parameters defined using the style format, and whether
    the parameter is supplied in the input. *)
Definition decodeStyledParameter (param : Param) (input : RequestValidationInput)
  : go primitiveResult :=
  match ParamSerializationMethod param with
  | inr err => Ret (VNil, false, Some err)
  | inl sm =>
      if String.eqb (In param) "path" then
        if bool_decide (default ∅ (PathParams input) = ∅) then Ret (VNil, false, None)
        else decodeValue (pathParamDecoder (PathParams input)) (Name param) sm
               (ParamSchema param) (Required param)
      else if String.eqb (In param) "query" then
        if bool_decide (QueryParams input = ∅) then Ret (VNil, false, None)
        else decodeValue (urlValuesDecoder (QueryParams input)) (Name param) sm
               (ParamSchema param) (Required param)
      else if String.eqb (In param) "header" then
        decodeValue (headerParamDecoder (Header (InputRequest input))) (Name param) sm
          (ParamSchema param) (Required param)
      else if String.eqb (In param) "cookie" then
        decodeValue (cookieParamDecoder (InputRequest input)) (Name param) sm
          (ParamSchema param) (Required param)
      else Ret (VNil, false, Some (ENew ("unsupported parameter's 'in': " +:+ In param)))
  end.

(** ** The body decoder registry *)

(** What a body decoder is given: [isMultipartPart] tells whether the reader
    is a [*multipart.Part]. *)
Record Body : Type := mkBody {
  bodyData : string;
  isMultipartPart : bool }.

(** [*openapi3.Encoding]; [None] is the nil pointer. *)
Record Encoding : Type := mkEncoding {
  EncContentType : string;
  EncStyle : string;
  EncExplode : option bool }.

(** EncodingFn is a function that returns an encoding of a request body's part. *)
Definition EncodingFn : Type := option (string -> option Encoding).

(** BodyDecoder is an interface to decode a body of a request or response. *)
Definition BodyDecoder : Type :=
  Body -> gmap string (list string) -> option Schema -> EncodingFn -> go (value * option error).

(** The state of the package variable [bodyDecoders]. *)
Abbreviation registry := (gmap string BodyDecoder).

(** RegisteredBodyDecoder returns the registered body decoder for the given
    content type. *)
Definition RegisteredBodyDecoder (bodyDecoders : registry) (contentType : string)
  : option BodyDecoder :=
  bodyDecoders !! contentType.

(** RegisterBodyDecoder registers a request body's decoder for a content type. *)
Definition RegisterBodyDecoder (bodyDecoders : registry) (contentType : string)
    (decoder : option BodyDecoder) : go registry :=
  if String.eqb contentType "" then Panic "contentType is empty"
  else
    match decoder with
    | None => Panic "decoder is not defined"
    | Some d => Ret (<[contentType := d]> bodyDecoders)
    end.

(** UnregisterBodyDecoder dissociates a body decoder from a content type. *)
Definition UnregisterBodyDecoder (bodyDecoders : registry) (contentType : string)
  : go registry :=
  if String.eqb contentType "" then Panic "contentType is empty"
  else Ret (delete contentType bodyDecoders).

Definition headerCT : string := CanonicalHeaderKey "Content-Type".

Definition prefixUnsupportedCT : string := "unsupported content type".

(** [header.Get(key)]. *)
Definition headerGet (header : gmap string (list string)) (key : string) : string :=
  match (commaOkValues header (CanonicalHeaderKey key)).1 with
  | [] => ""
  | v :: _ => v
  end.

(** The content type [decodeBody] goes by: the header's, and [text/plain] for
    a part of a multipart body that has none. *)
Definition bodyContentType (body : Body) (header : gmap string (list string)) : string :=
  let contentType := headerGet header headerCT in
  if String.eqb contentType "" && isMultipartPart body then "text/plain"
  else contentType.

(** The error of [decodeBody] for a media type without a decoder. *)
Definition unsupportedContentType (mediaType : string) : error :=
  EParse {| Kind := KindUnsupportedFormat; Value := VNil;
            Reason := prefixUnsupportedCT +:+ " " +:+ Quote mediaType;
            Cause := None; path := [] |}.

(** decodeBody returns a decoded body.
    The function returns ParseError when a body is invalid. *)
Definition decodeBody (bodyDecoders : registry) (body : Body)
    (header : gmap string (list string)) (schema : option Schema) (encFn : EncodingFn)
  : go (string * value * option error) :=
  let mediaType := parseMediaType (bodyContentType body header) in
  match bodyDecoders !! mediaType with
  | None => Ret ("", VNil, Some (unsupportedContentType mediaType))
  | Some decoder =>
      r ← decoder body header schema encFn;
      match r with
      | (_, Some err) => Ret ("", VNil, Some err)
      | (val, None) => Ret (mediaType, val, None)
      end
  end.

(** The error [multipartBodyDecoder] returns for the part [name] when
    [decodeBody] fails on the body of the part with [err]. *)
Definition partError (name : string) (err : error) : error :=
  match err with
  | EParse _ =>
      EParse {| Kind := KindOther; Value := VNil; Reason := ""; Cause := Some err;
                path := [VString name] |}
  | _ => EWrap ("part " +:+ name +:+ ": ") err
  end.

(** The error of [JSONBodyDecoder] for a body that is not JSON; [err] is the
    error of the JSON decoder. *)
Definition jsonError (err : error) : error :=
  EParse {| Kind := KindInvalidFormat; Value := VNil; Reason := ""; Cause := Some err;
            path := [] |}.

End Decoder.

Abbreviation registry := (gmap string BodyDecoder).

(** ** A reference instance of [Externals]

    The closed examples below are evaluated with this instance.  It follows
    the documented behaviour of Go's library on the inputs the examples use:
    [ParseBool], [ParseInt] and [Atoi] are strconv's; [ParseFloat] reads plain
    decimal literals (an optional sign, digits, an optional fraction) of at
    most 15 digits, for which one IEEE operation gives the right rounding, and
    reports a syntax error on every other literal; [Quote] and [explode] treat
    a byte above 0x7F as a printable character of its own; [SprintOther]
    prints a placeholder; an absent type set permits no type; a [range]
    visits a map in the order of [map_to_list].  The theorems do not depend
    on it. *)

Module Reference.

Definition byte (c : ascii) : Z := Z.of_nat (nat_of_ascii c).

Definition lower (c : ascii) : Z := Z.lor (byte c) 32.

Definition syntaxError (fn s : string) : NumError :=
  {| Func := fn; Num := s; Err := ErrSyntax |}.

Definition rangeError (fn s : string) : NumError :=
  {| Func := fn; Num := s; Err := ErrRange |}.

(** [strconv.ParseBool]. *)
Definition ParseBool (str : string) : bool + NumError :=
  if existsb (String.eqb str) ["1"; "t"; "T"; "TRUE"; "true"; "True"] then inl true
  else if existsb (String.eqb str) ["0"; "f"; "F"; "FALSE"; "false"; "False"] then inl false
  else inr (syntaxError "ParseBool" str).

(** The digits of [strconv.ParseUint]: [inl n] the number read, [inr true] a
    range error, [inr false] a syntax error. *)
Fixpoint digits (base maxVal : Z) (base0 : bool) (s : string) (n : Z) : Z + bool :=
  match s with
  | EmptyString => inl n
  | String c s' =>
      if Ascii.eqb c "_" && base0 then digits base maxVal base0 s' n
      else
        let d := if (48 <=? byte c)%Z && (byte c <=? 57)%Z then (byte c - 48)%Z
                 else if (97 <=? lower c)%Z && (lower c <=? 122)%Z then (lower c - 87)%Z
                 else 255%Z in
        if (base <=? d)%Z then inr false
        else if (maxVal <? n * base + d)%Z then inr true
        else digits base maxVal base0 s' (n * base + d)%Z
  end.

(** [underscoreOK]: underscores separate digits only; [saw] is 0 after a
    digit or a base prefix, 1 after an underscore, 2 at the beginning and
    after anything else. *)
Fixpoint underscoreScan (hex : bool) (saw : nat) (s : string) : bool :=
  match s with
  | EmptyString => negb (Nat.eqb saw 1)
  | String c s' =>
      if ((48 <=? byte c)%Z && (byte c <=? 57)%Z)
         || (hex && (97 <=? lower c)%Z && (lower c <=? 102)%Z)
      then underscoreScan hex 0 s'
      else if Ascii.eqb c "_" then
        if Nat.eqb saw 0 then underscoreScan hex 1 s' else false
      else if Nat.eqb saw 1 then false
      else underscoreScan hex 2 s'
  end.

Definition isBasePrefix (c : ascii) : bool :=
  (lower c =? 98)%Z || (lower c =? 111)%Z || (lower c =? 120)%Z.

Definition underscoreOK (s : string) : bool :=
  let s := match s with
           | String c s' => if Ascii.eqb c "-" || Ascii.eqb c "+" then s' else s
           | _ => s
           end in
  match s with
  | String "0" (String c s') =>
      if isBasePrefix c then underscoreScan (lower c =? 120)%Z 0 s'
      else underscoreScan false 2 s
  | _ => underscoreScan false 2 s
  end.

(** [strconv.ParseUint(s, base, bitSize)] for [base] 0 or 10: [inr true] a
    range error, [inr false] a syntax error. *)
Definition ParseUint (s : string) (base bitSize : Z) : Z + bool :=
  match s with
  | EmptyString => inr false
  | String c0 rest =>
      let base0 := (base =? 0)%Z in
      let '(b, body) :=
        if base0 then
          if Ascii.eqb c0 "0" then
            match rest with
            | String c1 (String c2 rest') =>
                if (lower c1 =? 98)%Z then (2%Z, String c2 rest')
                else if (lower c1 =? 111)%Z then (8%Z, String c2 rest')
                else if (lower c1 =? 120)%Z then (16%Z, String c2 rest')
                else (8%Z, rest)
            | _ => (8%Z, rest)
            end
          else (10%Z, s)
        else (base, s) in
      match digits b (2 ^ bitSize - 1) base0 body 0 with
      | inr r => inr r
      | inl n =>
          if base0 && existsb (Ascii.eqb "_") (list_ascii_of_string s) && negb (underscoreOK s)
          then inr false
          else inl n
      end
  end.

Definition parseSigned (fn : string) (s : string) (base bitSize : Z) : Z + NumError :=
  match s with
  | EmptyString => inr (syntaxError fn s)
  | String c rest =>
      let neg := Ascii.eqb c "-" in
      let body := if Ascii.eqb c "+" || neg then rest else s in
      match ParseUint body base bitSize with
      | inr false => inr (syntaxError fn s)
      | inr true => inr (rangeError fn s)
      | inl un =>
          let cutoff := (2 ^ (bitSize - 1))%Z in
          if negb neg && (cutoff <=? un)%Z then inr (rangeError fn s)
          else if neg && (cutoff <? un)%Z then inr (rangeError fn s)
          else inl (if neg then (- un)%Z else un)
      end
  end.

(** [strconv.ParseInt(s, base, bitSize)] for [base] 0 or 10. *)
Definition ParseInt (s : string) (base bitSize : Z) : Z + NumError :=
  parseSigned "ParseInt" s base bitSize.

(** [strconv.Atoi(s)]: [ParseInt(s, 10, 0)] on a 64-bit platform. *)
Definition Atoi (s : string) : Z + NumError := parseSigned "Atoi" s 10 64.

(** The decimal digits of [s] as a number, and how many there are; [None]
    when a byte is not a digit. *)
Fixpoint decimal (s : string) (n : Z) (k : nat) : option (Z * nat) :=
  match s with
  | EmptyString => Some (n, k)
  | String c s' =>
      if (48 <=? byte c)%Z && (byte c <=? 57)%Z
      then decimal s' (n * 10 + (byte c - 48))%Z (S k)
      else None
  end.

(** The index of the first ['.'] of [s] splits it into the digits before and
    after it. *)
Fixpoint cutAtDot (s : string) (acc : string) : string * option string :=
  match s with
  | EmptyString => (acc, None)
  | String c s' =>
      if Ascii.eqb c "." then (acc, Some s')
      else cutAtDot s' (acc +:+ String c EmptyString)
  end.

Definition ParseFloat (s : string) (bitSize : Z) : float + NumError :=
  let neg := match s with String c _ => Ascii.eqb c "-" | _ => false end in
  let body := match s with
              | String c rest => if Ascii.eqb c "+" || Ascii.eqb c "-" then rest else s
              | _ => s
              end in
  let '(ip, fp) := cutAtDot body EmptyString in
  let fp' := default EmptyString fp in
  match decimal (ip +:+ fp') 0 0 with
  | Some (m, k) =>
      if Nat.eqb k 0 || Nat.ltb 15 k then inr (syntaxError "ParseFloat" s)
      else
        let f := PrimFloat.div (PrimFloat.of_uint63 (Uint63.of_Z m))
                   (PrimFloat.of_uint63 (Uint63.of_Z (10 ^ Z.of_nat (String.length fp')))) in
        inl (if neg then PrimFloat.opp f else f)
  | None => inr (syntaxError "ParseFloat" s)
  end.

Definition hexDigit (n : Z) : string :=
  String (ascii_of_nat (Z.to_nat (if (n <? 10)%Z then 48 + n else 87 + n)%Z)) EmptyString.

(** [strconv.Quote]. *)
Fixpoint quoteBody (s : string) : string :=
  match s with
  | EmptyString => EmptyString
  | String c s' =>
      let b := byte c in
      (if (b =? 34)%Z then "\" +:+ dquote
       else if (b =? 92)%Z then "\\"
       else if (b =? 7)%Z then "\a"
       else if (b =? 8)%Z then "\b"
       else if (b =? 12)%Z then "\f"
       else if (b =? 10)%Z then "\n"
       else if (b =? 13)%Z then "\r"
       else if (b =? 9)%Z then "\t"
       else if (b =? 11)%Z then "\v"
       else if (b <? 32)%Z || (b =? 127)%Z then "\x" +:+ hexDigit (b / 16) +:+ hexDigit (b mod 16)
       else String c EmptyString) +:+ quoteBody s'
  end.

Definition Quote (s : string) : string := dquote +:+ quoteBody s +:+ dquote.

Definition SprintOther (v : value) : string :=
  match v with
  | VStrings l => "[" +:+ strings.Join l " " +:+ "]"
  | _ => "?"
  end.

Definition SprintTypes (t : option (list string)) : string :=
  match t with
  | None => "%!s(*openapi3.Types=<nil>)"
  | Some l => "&[" +:+ strings.Join l " " +:+ "]"
  end.

Definition explode (s : string) : list string :=
  map (fun c => String c EmptyString) (list_ascii_of_string s).

(** The bytes of a header field name (the token characters of RFC 7230). *)
Definition validHeaderFieldByte (c : ascii) : bool :=
  let b := byte c in
  ((48 <=? b)%Z && (b <=? 57)%Z) || ((97 <=? b)%Z && (b <=? 122)%Z)
  || ((65 <=? b)%Z && (b <=? 90)%Z)
  || existsb (Ascii.eqb c) (list_ascii_of_string "!#$%&'*+-.^_`|~").

Fixpoint canonicalize (upper : bool) (s : string) : string :=
  match s with
  | EmptyString => EmptyString
  | String c s' =>
      let b := byte c in
      let c' := if upper && (97 <=? b)%Z && (b <=? 122)%Z then ascii_of_nat (Z.to_nat (b - 32))
                else if negb upper && (65 <=? b)%Z && (b <=? 90)%Z
                     then ascii_of_nat (Z.to_nat (b + 32))
                else c in
      String c' (canonicalize (Ascii.eqb c "-") s')
  end.

(** [http.CanonicalHeaderKey]. *)
Definition CanonicalHeaderKey (s : string) : string :=
  if forallb validHeaderFieldByte (list_ascii_of_string s) then canonicalize true s else s.

(** Modelled from the spec: [parseMediaType] of package openapi3filter, which
    is not under src/: "the media-type string is parsed (stripping parameters
    like charset=...)".  The media type is what stands before the first
    semicolon. *)
Fixpoint parseMediaType (contentType : string) : string :=
  match contentType with
  | EmptyString => EmptyString
  | String c s' => if Ascii.eqb c ";" then EmptyString else String c (parseMediaType s')
  end.

End Reference.

#[global] Instance refExternals : Externals := {|
  ParseInt := Reference.ParseInt;
  ParseFloat := Reference.ParseFloat;
  ParseBool := Reference.ParseBool;
  Atoi := Reference.Atoi;
  Quote := Reference.Quote;
  SprintOther := Reference.SprintOther;
  SprintTypes := Reference.SprintTypes;
  explode := Reference.explode;
  CanonicalHeaderKey := Reference.CanonicalHeaderKey;
  parseMediaType := Reference.parseMediaType;
  permitsUntyped := false;
  rangeOrder := fun V m => map_to_list m;
  rangeOrder_perm := fun V m => Permutation_refl (map_to_list m) |}.

(** ** Schemas and requests of the closed examples *)

Module Examples.

Definition schemaOf (types : option (list string)) : Schema :=
  mkSchema types "" "" [] [] [] None None [] None.

Definition stringSchema : Schema := schemaOf (Some ["string"]).
Definition integerSchema : Schema := schemaOf (Some ["integer"]).
Definition untypedSchema : Schema := schemaOf None.

Definition arrayOf (items : Schema) : Schema :=
  mkSchema (Some ["array"]) "" "" [] [] [] None (Some items) [] None.

Definition objectOf (properties : list (string * Schema)) : Schema :=
  mkSchema (Some ["object"]) "" "" [] [] [] None None properties None.

Definition allOf (members : list Schema) : Schema :=
  mkSchema None "" "" members [] [] None None [] None.

Definition oneOf (members : list Schema) : Schema :=
  mkSchema None "" "" [] [] members None None [] None.

(** A request without headers and with one cookie. *)
Definition cookieRequest (name val : string) : Request :=
  {| Header := ∅;
     Cookie := fun n => if String.eqb n name then inl val else inr ErrNoCookie |}.

(** A body decoder that returns the bytes of the body. *)
Definition plainDecoder : BodyDecoder :=
  fun body _ _ _ => Ret (VString (bodyData body), None).

End Examples.

(** ** Inputs of the closed examples *)

Module Closed.
Import Examples.

Definition pathInput : RequestValidationInput :=
  {| InputRequest := cookieRequest "session" "1"; PathParams := None; QueryParams := ∅ |}.

(** A path parameter with a style that no path decoder accepts. *)
Definition pipePathParam : Param :=
  {| Name := "id"; In := "path"; Required := true; ParamSchema := integerSchema;
     ParamSerializationMethod := inl (mkSM "pipeDelimited" true) |}.

Definition plainRegistry : registry := {["text/plain" := plainDecoder]}.

Definition customHeader : gmap string (list string) :=
  {["Content-Type" := ["application/x-custom; charset=utf-8"]]}.

Definition someBody : Body := {| bodyData := "abc"; isMultipartPart := false |}.

Definition invalidInteger (raw : string) : error :=
  EParse {| Kind := KindInvalidFormat; Value := VString raw;
            Reason := "an invalid integer"; Cause := Some ErrSyntax; path := [] |}.

Definition queryP (raw : string) : valueDecoder := urlValuesDecoder {["p" := [raw]]}.

Definition formExplode : SerializationMethod := mkSM "form" true.

(** A header with an empty value, and a path parameter with an empty raw
    value. *)
Definition emptyHeader : gmap string (list string) := {["X-Tag" := [""]]}.

Definition emptyPath : gmap string string := {["id" := ""]}.

Definition abProps : gmap string string := {["a" := "1"]}.

Definition abSchema : Schema := objectOf [("a", integerSchema); ("b", stringSchema)].

Definition abObject : gmap string value := <["b" := VNil]> {["a" := VInt64 1]}.

End Closed.

(** ** Vocabulary of the statements *)

(** Every item of [raw] parses, without error, to the value of [vs] at its
    place, and none of these values is nil. *)
Definition parsesTo (parse : string -> go (value * option error))
    (raw : list string) (vs : list value) : Prop :=
  Forall2 (fun s v => parse s = Ret (v, None) /\ isNil v = false) raw vs.

(** The slice that holds [vs]: the nil slice when there is none. *)
Definition sliceOf (vs : list value) : option (list value) :=
  match vs with
  | [] => None
  | _ => Some vs
  end.

(** Every schema of [members] decodes, without error, to the value and the
    found flag of [rs] at its place, and none of these values is nil. *)
Definition decodesTo (decode : Schema -> go primitiveResult)
    (members : list Schema) (rs : list (value * bool)) : Prop :=
  Forall2 (fun m r => decode m = Ret (r.1, r.2, None) /\ isNil r.1 = false) members rs.

(** Every schema of [members] is decoded or parsed without a panic, with the
    result of [rs] at its place. *)
Definition returns {A : Type} (f : Schema -> go A) (members : list Schema) (rs : list A)
  : Prop :=
  Forall2 (fun m r => f m = Ret r) members rs.

(** The number of results without error. *)
Definition countParsed (rs : list (value * option error)) : nat :=
  length (List.filter (fun r => bool_decide (r.2 = None)) rs).

(** Whether the byte [c] occurs in [s]. *)
Fixpoint occurs (c : ascii) (s : string) : bool :=
  match s with
  | EmptyString => false
  | String a s' => Ascii.eqb c a || occurs c s'
  end.

(** A value is a [map[string]interface{}]. *)
Definition isMap (v : value) : bool :=
  match v with
  | VMap _ => true
  | _ => false
  end.

(** The items of a list that a separator of one byte [c] joins and splits
    back: there is one at least, none is empty and none holds [c]. *)
Definition separable (c : ascii) (items : list string) : Prop :=
  items <> [] /\ Forall (fun x => x <> "" /\ occurs c x = false) items.

(** The schema has neither [allOf], [anyOf], [oneOf] nor [not]. *)
Definition plainSchema (schema : Schema) : Prop :=
  AllOf schema = [] /\ AnyOf schema = [] /\ OneOf schema = [] /\ Not schema = None.

(** The items of the array schema are declared, and [string] is the first of
    their types. *)
Definition stringItems (schema : Schema) : Prop :=
  exists (items : Schema) (more : list string),
    Items schema = Some items /\ Slice (Type_ items) = "string" :: more.

(** Whether a source string has the format [propsFromString] requires: an
    even number of pieces when the two delimiters are equal, and otherwise
    pieces that the value delimiter cuts in two. *)
Definition wellFormedProps {ext : Externals} (src propDelim valueDelim : string) : bool :=
  if String.eqb propDelim valueDelim
  then Nat.even (length (Split src propDelim))
  else forallb (fun p => Nat.eqb (length (Split p valueDelim)) 2) (Split src propDelim).

(** The map that holds the pairs of [kvs], a later pair replacing an earlier
    one of the same key. *)
Definition mapOfPairs (kvs : list (string * string)) : gmap string string :=
  fold_left (fun m kv => <[kv.1 := kv.2]> m) kvs ∅.

(** The names and values of [kvs] listed in turn. *)
Definition flatPairs (kvs : list (string * string)) : list string :=
  concat (map (fun kv => [kv.1; kv.2]) kvs).

(** Neither a name nor a value of [kvs] holds the byte [c]. *)
Definition pairsFree (c : ascii) (kvs : list (string * string)) : Prop :=
  Forall (fun kv => occurs c kv.1 = false /\ occurs c kv.2 = false) kvs.

(** The errors of the primitive parser for the raw value [raw]: a ParseError
    on that value, of kind InvalidFormat or Other, with no path of its own. *)
Definition primitiveError (raw : string) (e : error) : Prop :=
  exists pe : ParseError,
    e = EParse pe /\ Value pe = VString raw /\ path pe = []
    /\ (Kind pe = KindInvalidFormat \/ Kind pe = KindOther).

(** [str != ""], the test of the conversion loops. *)
Definition nonEmpty (str : string) : bool := negb (String.eqb str "").

(** The keys [ks] as the deepObject style writes them after the name of a
    parameter: [[k1][k2]...]. *)
Definition bracketed (ks : list string) : string :=
  fold_right (fun k acc => "[" +:+ k +:+ "]" +:+ acc) "" ks.

(** A key that the regular expression of the deepObject style captures whole:
    it holds no closing bracket and no newline. *)
Definition bracketKey (k : string) : Prop :=
  occurs "]" k = false /\ occurs (ascii_of_nat 10) k = false.

(** The pairs of [kvs] as the styles write an object: [n1,v1,n2,v2,...] when
    one delimiter separates the properties and the name of a property from
    its value, and [n1=v1,n2=v2,...] when the two differ. *)
Definition writePairs (propDelim valueDelim : ascii) (kvs : list (string * string)) : string :=
  if Ascii.eqb propDelim valueDelim
  then strings.Join (flatPairs kvs) (String propDelim EmptyString)
  else strings.Join (map (fun kv => kv.1 +:+ String valueDelim EmptyString +:+ kv.2) kvs)
                    (String propDelim EmptyString).

(** ** Parameters defined via the content property *)

(** [*openapi3.MediaType]: its [Schema] field, a [*SchemaRef] ([None] is
    nil). *)
Record MediaType : Type := mkMediaType {
  MediaSchema : option Schema }.

(** [openapi3.Parameter] with its [Content] field, a
    [map[string]*MediaType] ([None] is the nil map), which the decoders of
    styled parameters do not read. *)
Record ContentParam : Type := mkContentParam {
  Base : Param;
  Content : option (gmap string MediaType) }.

(** What the content decoder calls outside the repository's sources:
    [json.Unmarshal] into an empty interface, and [Content.Get] of package
    openapi3, which finds the media type of a content map for a MIME type. *)
Class ContentExternals : Type := {
  jsonUnmarshal : string -> value + error;
  contentGet : gmap string MediaType -> string -> option MediaType }.

(** [ContentParameterDecoder]: the type of [input.ParamDecoder] and of
    [defaultContentParameterDecoder]. *)
Definition ContentParameterDecoder : Type :=
  ContentParam -> list string -> go (value * option Schema * option error).

(** The closure [unmarshal] of [defaultContentParameterDecoder]: a text that
    is not JSON is taken as a string unless the schema is absent or of type
    object. *)
Definition unmarshal {ext : Externals} {cext : ContentExternals}
    (encoded : string) (paramSchema : option Schema) : value * option error :=
  match jsonUnmarshal encoded with
  | inl decoded => (decoded, None)
  | inr err =>
      match paramSchema with
      | Some sc =>
          if negb (Is (Type_ sc) "object") then (VString encoded, None)
          else (VNil, Some err)
      | None => (VNil, Some err)
      end
  end.

(** The loop of [defaultContentParameterDecoder] over several values; [None]
    when an item is not unmarshaled. *)
Fixpoint unmarshalItems {ext : Externals} {cext : ContentExternals}
    (values : list string) (items : option Schema) (outArray : list value)
  : option (list value) :=
  match values with
  | [] => Some outArray
  | v :: rest =>
      match unmarshal v items with
      | (_, Some _) => None
      | (item, None) => unmarshalItems rest items (outArray ++ [item])
      end
  end.

Definition defaultContentParameterDecoder {ext : Externals} {cext : ContentExternals}
    (param : ContentParam) (values : list string)
  : go (value * option Schema * option error) :=
  let name := Name (Base param) in
  if Nat.ltb 1 (length values) && negb (String.eqb (In (Base param)) "query") then
    Ret (VNil, None,
         Some (ENew (In (Base param) +:+ " parameter " +:+ Quote name
                     +:+ " cannot have multiple values")))
  else
    match Content param with
    | None =>
        Ret (VNil, None,
             Some (ENew ("parameter " +:+ Quote name +:+ " expected to have content")))
    | Some content =>
        if negb (Nat.eqb (size content) 1) then
          Ret (VNil, None,
               Some (ENew ("multiple content types for parameter " +:+ Quote name)))
        else
          match contentGet content "application/json" with
          | None =>
              Ret (VNil, None,
                   Some (ENew ("parameter " +:+ Quote name +:+ " has no content schema")))
          | Some mt =>
              match MediaSchema mt with
              | None => Panic nilDereference
              | Some outSchema =>
                  let failed :=
                    Ret (VNil, Some outSchema,
                         Some (ENew ("error unmarshaling parameter " +:+ Quote name))) in
                  match values with
                  | [v] =>
                      match unmarshal v (Some outSchema) with
                      | (_, Some _) => failed
                      | (outValue, None) => Ret (outValue, Some outSchema, None)
                      end
                  | _ =>
                      match unmarshalItems values (Items outSchema) [] with
                      | None => failed
                      | Some outArray => Ret (VSlice (Some outArray), Some outSchema, None)
                      end
                  end
              end
          end
    end.

(** Decodes a parameter defined via the content property as an object.  It
    uses the user specified decoder, or the built-in decoder for
    application/json.  [paramDecoder] is [input.ParamDecoder]; the result is
    the value, the schema, [found] and the error. *)
Definition decodeContentParameter {ext : Externals} {cext : ContentExternals}
    (param : ContentParam) (input : RequestValidationInput)
    (paramDecoder : option ContentParameterDecoder)
  : go (value * option Schema * bool * option error) :=
  let name := Name (Base param) in
  let missing (err : option error) :=
    Ret (VNil, None, false,
         if Required (Base param)
         then Some (ENew ("parameter " +:+ Quote name +:+ " is required, but missing"))
         else err) in
  let decode (paramValues : list string) :=
    r ← default defaultContentParameterDecoder paramDecoder param paramValues;
    Ret (r.1.1, r.1.2, true, r.2) in
  if String.eqb (In (Base param)) "path" then
    match default ∅ (PathParams input) !! name with
    | Some paramValue => decode [paramValue]
    | None => missing None
    end
  else if String.eqb (In (Base param)) "query" then
    match QueryParams input !! name with
    | Some paramValues => decode paramValues
    | None => missing None
    end
  else if String.eqb (In (Base param)) "header" then
    match Header (InputRequest input) !! CanonicalHeaderKey name with
    | Some headerValues => decode headerValues
    | None => missing None
    end
  else if String.eqb (In (Base param)) "cookie" then
    match Cookie (InputRequest input) name with
    | inl cookieValue => decode [cookieValue]
    | inr err =>
        if notErrNoCookie (inr err) then Ret (VNil, None, false, Some err)
        else missing (Some err)
    end
  else
    Ret (VNil, None, false,
         Some (ENew ("unsupported parameter.in: " +:+ Quote (In (Base param))))).

(** What [unmarshal] makes of a text under a schema that is not of type
    object: the JSON value, or the text itself when it is not JSON. *)
Definition jsonOrString {cext : ContentExternals} (encoded : string) : value :=
  match jsonUnmarshal encoded with
  | inl decoded => decoded
  | inr _ => VString encoded
  end.

(** The parameter has one content, which [Content.Get] finds for
    application/json, with the schema [sc]. *)
Definition jsonContent {cext : ContentExternals} (param : ContentParam) (sc : Schema) : Prop :=
  exists (content : gmap string MediaType) (mt : MediaType),
    Content param = Some content /\ size content = 1
    /\ contentGet content "application/json" = Some mt /\ MediaSchema mt = Some sc.

(** ** The zip body decoder *)

(** The error of a call of [rc.Read]: [io.EOF] or another error. *)
Inductive readError : Type :=
| EOF
| readFailed (err : error).

(** One call of [rc.Read(buffer)]: the bytes it stores at the beginning of
    the buffer, and its error. *)
Definition readResult : Type := (string * option readError)%type.

(** A file of a zip archive, as the decoder sees it: [f.Open()] fails, or
    gives a reader, described by the results of the successive calls of
    [Read].  A reader without a result left is at its end: the call reads no
    byte and returns [io.EOF]. *)
Inductive zipFile : Type :=
| openFails (err : error)
| opens (reads : list readResult).

(** [zip.NewReader] on the bytes of the body: the files of the archive, or an
    error. *)
Class ZipExternals : Type := {
  zipNewReader : string -> list zipFile + error }.

Definition bufferSize : nat := 256.

(** [make([]byte, bufferSize)]. *)
Definition newBuffer : string :=
  string_of_list_ascii (repeat (ascii_of_nat 0) bufferSize).

(** The buffer after a call of [Read] that read [data]: the bytes read come
    first, the rest of the buffer is as it was. *)
Definition store (data buffer : string) : string :=
  data +:+ strings.drop (String.length data) buffer.

(** The loop over the calls of [Read] on one file; the buffer and the content
    when the loop ends, or the error of a call. *)
Fixpoint readFile (reads : list readResult) (buffer content : string)
  : (string * string) + error :=
  match reads with
  | [] => inl (buffer, content)
  | (data, err) :: rest =>
      let buffer' := store data buffer in
      let content' :=
        if Nat.ltb 0 (String.length data) then content +:+ buffer' else content in
      match err with
      | Some EOF => inl (buffer', content')
      | Some (readFailed e) => inr e
      | None => readFile rest buffer' content'
      end
  end.

(** The loop over the files of the archive. *)
Fixpoint readFiles (files : list zipFile) (buffer content : string) : string + error :=
  match files with
  | [] => inl content
  | openFails err :: _ => inr err
  | opens reads :: rest =>
      match readFile reads buffer content with
      | inr err => inr err
      | inl (buffer', content') => readFiles rest buffer' content'
      end
  end.

(** zipFileBodyDecoder is a body decoder that decodes a zip file body to a
    string. *)
Definition zipFileBodyDecoder {zext : ZipExternals} : BodyDecoder :=
  fun body header schema encFn =>
    match zipNewReader (bodyData body) with
    | inr err => Ret (VNil, Some err)
    | inl files =>
        match readFiles files newBuffer "" with
        | inr err => Ret (VNil, Some err)
        | inl content => Ret (VString content, None)
        end
    end.

(** Every call of [Read] on the files stores no more bytes than the buffer
    holds. *)
Definition readsFit (files : list zipFile) : Prop :=
  Forall (fun f => match f with
                   | openFails _ => True
                   | opens reads =>
                       Forall (fun r : readResult => String.length r.1 <= bufferSize) reads
                   end) files.

(** ** The urlencoded body decoder *)

(** What the urlencoded body decoder calls outside the repository's sources:
    [url.ParseQuery], the method [SerializationMethod] of [*openapi3.Encoding]
    (on the nil pointer too) and [reflect.DeepEqual]. *)
Class FormExternals : Type := {
  ParseQuery : string -> gmap string (list string) + error;
  encSerializationMethod : option Encoding -> SerializationMethod;
  DeepEqual : value -> value -> bool }.

Definition isEqual {fext : FormExternals} (value1 value2 : value) : bool :=
  DeepEqual value1 value2.

Definition decodeProperty {ext : Externals} {fext : FormExternals}
    (dec : valueDecoder) (name : string) (prop : Schema) (encFn : EncodingFn)
  : go primitiveResult :=
  let enc := match encFn with
             | Some fn => fn name
             | None => None
             end in
  decodeValue dec name (encSerializationMethod enc) prop false.

(** The loop of [decodeSchemaConstructs] over the properties of one schema:
    the object, or the error of a conflict. *)
Fixpoint decodeProperties {ext : Externals} {fext : FormExternals}
    (dec : valueDecoder) (props : list (string * Schema))
    (obj : gmap string value) (encFn : EncodingFn) : go (gmap string value + error) :=
  match props with
  | [] => Ret (inl obj)
  | (name, prop) :: rest =>
      r ← decodeProperty dec name prop encFn;
      match r with
      | (_, _, Some _) => decodeProperties dec rest obj encFn
      | (val, _, None) =>
          match obj !! name with
          | Some existingValue =>
              if negb (isEqual existingValue val)
              then Ret (inr (ENew ("conflicting values for property " +:+ Quote name)))
              else decodeProperties dec rest (<[name := val]> obj) encFn
          | None => decodeProperties dec rest (<[name := val]> obj) encFn
          end
      end
  end.

(** decodeSchemaConstructs tries to decode properties based on provided
    schemas.  The source updates [obj] in place; here the updated object is
    returned, or the error. *)
Fixpoint decodeSchemaConstructs {ext : Externals} {fext : FormExternals}
    (dec : valueDecoder) (schemas : list Schema)
    (obj : gmap string value) (encFn : EncodingFn) : go (gmap string value + error) :=
  match schemas with
  | [] => Ret (inl obj)
  | schemaRef :: rest =>
      r ← decodeProperties dec (Properties schemaRef) obj encFn;
      match r with
      | inr err => Ret (inr err)
      | inl obj' => decodeSchemaConstructs dec rest obj' encFn
      end
  end.

Definition unsupportedProperty {ext : Externals} (propName : string) : error :=
  ENew ("unsupported schema of request body's property " +:+ Quote propName).

(** The loop of [urlencodedBodyDecoder] that validates the properties of the
    schema of the body: the first property that is not supported, if any. *)
Fixpoint checkProperties {ext : Externals} (props : list (string * Schema))
  : go (option error) :=
  match props with
  | [] => Ret None
  | (propName, propSchema) :: rest =>
      if Is (Type_ propSchema) "object" then Ret (Some (unsupportedProperty propName))
      else if Is (Type_ propSchema) "array" then
        match Items propSchema with
        | None => Panic nilDereference
        | Some items =>
            if negb (Is (Type_ items) "string" || Is (Type_ items) "integer"
                     || Is (Type_ items) "number" || Is (Type_ items) "boolean")
            then Ret (Some (unsupportedProperty propName))
            else checkProperties rest
        end
      else checkProperties rest
  end.

Definition urlencodedBodyDecoder {ext : Externals} {fext : FormExternals} : BodyDecoder :=
  fun body header schema encFn =>
    match schema with
    | None => Panic nilDereference
    | Some sc =>
        if negb (Is (Type_ sc) "object")
        then Ret (VNil, Some (ENew "unsupported schema of request body"))
        else
          e ← checkProperties (Properties sc);
          match e with
          | Some err => Ret (VNil, Some err)
          | None =>
              match ParseQuery (bodyData body) with
              | inr err => Ret (VNil, Some err)
              | inl values =>
                  let dec := urlValuesDecoder values in
                  r1 ← decodeSchemaConstructs dec (AllOf sc) ∅ encFn;
                  match r1 with
                  | inr err => Ret (VNil, Some err)
                  | inl obj1 =>
                      r2 ← decodeSchemaConstructs dec (AnyOf sc) obj1 encFn;
                      match r2 with
                      | inr err => Ret (VNil, Some err)
                      | inl obj2 =>
                          r3 ← decodeSchemaConstructs dec (OneOf sc) obj2 encFn;
                          match r3 with
                          | inr err => Ret (VNil, Some err)
                          | inl obj3 =>
                              r4 ← decodeSchemaConstructs dec [sc] obj3 encFn;
                              match r4 with
                              | inr err => Ret (VNil, Some err)
                              | inl obj => Ret (VMap (Some obj), None)
                              end
                          end
                      end
                  end
              end
          end
    end.

(** The names of the properties that the schemas of [schemas] declare. *)
Definition declaredNames (schemas : list Schema) : list string :=
  concat (map (fun s => map fst (Properties s)) schemas).

(** ** Inputs of the closed examples of the further properties *)

Module MoreExamples.
Import Examples.

(** [json.Unmarshal] as far as the closed examples go: the three literal
    names are read, every other text is refused. *)
Definition literalUnmarshal (s : string) : value + error :=
  if String.eqb s "true" then inl (VBool true)
  else if String.eqb s "false" then inl (VBool false)
  else if String.eqb s "null" then inl VNil
  else inr (ENew "invalid character").

(** [Content.Get] as far as the closed examples go: the media type under the
    MIME type itself. *)
#[global] Instance refContentExternals : ContentExternals :=
  {| jsonUnmarshal := literalUnmarshal;
     contentGet := fun content mime => content !! mime |}.

(** An archive reader for the closed examples: the body is the content of
    the one file of the archive, which is read in one call. *)
#[global] Instance refZipExternals : ZipExternals :=
  {| zipNewReader := fun data => inl [opens [(data, Some EOF)]] |}.

(** [url.ParseQuery] as far as the closed examples go (one pair [k=v]
    without escapes), [SerializationMethod] of an encoding (form with explode
    unless the encoding says otherwise), and [reflect.DeepEqual] on nil and on
    strings. *)
#[global] Instance refFormExternals : FormExternals :=
  {| ParseQuery := fun s =>
       match strings.splitScan "=" 0 "" s with
       | [k; v] => inl {[k := [v]]}
       | _ => inr (ENew "invalid query")
       end;
     encSerializationMethod := fun enc =>
       match enc with
       | None => mkSM "form" true
       | Some e =>
           mkSM (if String.eqb (EncStyle e) "" then "form" else EncStyle e)
                (default true (EncExplode e))
       end;
     DeepEqual := fun v1 v2 =>
       match v1, v2 with
       | VNil, VNil => true
       | VString s, VString t => String.eqb s t
       | _, _ => false
       end |}.

Definition tagsHeader : gmap string (list string) := {["X-Tag" := ["a,b"]]}.

Definition tagsQuery : gmap string (list string) := {["tags" := ["a|b"]]}.

Definition colourPairs : list (string * string) := [("r", "1"); ("g", "")].

Definition colourHeader : gmap string (list string) := {["X-Colour" := ["r=1,g="]]}.

Definition nestedObject : gmap string value :=
  {["a" := VMap (Some {["b" := VInt64 1]})]}.

Definition anyOfSchema (members : list Schema) : Schema :=
  mkSchema None "" "" [] members [] None None [] None.

(** An array property that the property map does not give, beside a
    primitive one that it gives. *)
Definition tagsSchema : Schema :=
  objectOf [("a", integerSchema); ("tags", arrayOf stringSchema)].

Definition tagsObject : gmap string value :=
  <["tags" := VStrings [""]]> {["a" := VInt64 1]}.

(** A parameter defined via the content property, with one content. *)
Definition jsonParam (loc : string) (required : bool) (sc : Schema) : ContentParam :=
  {| Base := {| Name := "filter"; In := loc; Required := required; ParamSchema := sc;
                ParamSerializationMethod := inl (mkSM "form" true) |};
     Content := Some {["application/json" := mkMediaType (Some sc)]} |}.

Definition filterInput : RequestValidationInput :=
  {| InputRequest := cookieRequest "session" "1"; PathParams := None;
     QueryParams := {["filter" := ["true"]]} |}.

(** An object property "a" with a nested integer property "b". *)
Definition nestedSchema : Schema := objectOf [("a", objectOf [("b", integerSchema)])].

Definition zipBody : Body := {| bodyData := "abc"; isMultipartPart := false |}.

Definition formBody : Body := {| bodyData := "a=x"; isMultipartPart := false |}.

Definition formSchema : Schema := objectOf [("a", stringSchema); ("b", stringSchema)].

Definition formObject : gmap string value := <["b" := VNil]> {["a" := VString "x"]}.

End MoreExamples.

(** The error of the object assembler for the property of keys [keys] whose
    raw value is refused with [cause]: a ParseError whose own path is the
    keys and whose cause is [cause] when that is a ParseError, and otherwise
    [cause] wrapped behind "property <quoted keys joined by dots>: ". *)
Definition propertyError {ext : Externals} (keys : list string) (cause err : error) : Prop :=
  match cause with
  | EParse _ =>
      err = EParse {| Kind := KindOther; Value := VNil; Reason := ""; Cause := Some cause;
                      path := map VString keys |}
  | _ => err = EWrap ("property " +:+ Quote (strings.Join keys ".") +:+ ": ") cause
  end.

(** The raw value [raw] is refused with [cause] for the schema [sc]: by the
    array rule when [asArray] is true, by the primitive parser otherwise. *)
Definition valueFails {ext : Externals} (asArray : bool) (raw : string) (sc : Schema)
    (cause : error) : Prop :=
  if asArray then exists v : value, arrayProperty raw sc = Ret (v, Some cause)
  else exists v : value, parsePrimitive raw (Some sc) = Ret (v, Some cause).

(** [err] is the error of the object assembler at the declared property
    [propName]: the raw value of the property is refused, or, for a property
    of type object, a key of the property map that starts with the name and
    the delimiter has no nested schema or a raw value that is refused. *)
Definition failsAt {ext : Externals} (props : gmap string string) (schema : Schema)
    (propName : string) (propSchema : Schema) (err : error) : Prop :=
  if Is (Type_ propSchema) "array" then
    exists cause : error,
      valueFails true (getProp props propName) propSchema cause
      /\ propertyError [propName] cause err
  else if Is (Type_ propSchema) "object" then
    exists prop : string,
      is_Some (props !! prop)
      /\ strings.HasPrefix prop (propName +:+ urlDecoderDelimiter) = true
      /\ match findNestedSchema schema (Split prop urlDecoderDelimiter) with
         | inr e =>
             err = EParse {| Kind := KindOther; Value := VNil; Reason := errorString e;
                             Cause := None;
                             path := map VString (Split prop urlDecoderDelimiter) |}
         | inl nested =>
             exists cause : error,
               valueFails (Permits (Type_ nested) "array") (getProp props prop) nested cause
               /\ propertyError (Split prop urlDecoderDelimiter) cause err
         end
  else
    exists cause : error,
      valueFails false (getProp props propName) propSchema cause
      /\ propertyError [propName] cause err.

(** ** Proof automation *)

(** Destructs what the matches of [H] branch on, until none is left. *)
Ltac break_matches H :=
  repeat (unfold mbind, go_bind in H; cbn [fst snd negb orb andb] in H;
          match type of H with
          | context [?m !! ?k] => destruct (m !! k) eqn:?
          | context [match ?x with _ => _ end] => destruct x eqn:?
          end).

(** An error is one of [errors.New] or of a [fmt.Errorf] without [%w]. *)
Definition isNew (e : error) : bool :=
  match e with
  | ENew _ => true
  | _ => false
  end.

(** Turns the tests on the style into equations. *)
Ltac style_facts :=
  repeat match goal with
         | E : String.eqb _ _ = true |- _ => apply String.eqb_eq in E
         | E : String.eqb _ _ = false |- _ => apply String.eqb_neq in E
         end.

(** Closes a goal whose hypothesis [H] equates two results that differ. *)
Ltac differ H :=
  exfalso; unfold commaOk, commaOkValues in H; break_matches H;
  solve [discriminate H | congruence].

(** Whether the path parameters hold a non-empty raw value for [param]. *)
Definition pathValuePresent (pathParams : option (gmap string string)) (param : string)
  : bool :=
  match default ∅ pathParams !! param with
  | Some raw => negb (String.eqb raw "")
  | None => false
  end.

(** Reads the found flag off [H], an equation between a decoder's result and
    [Ret (v, found, err)]. *)
Ltac read_found H :=
  unfold commaOk, commaOkValues in H; break_matches H;
  try discriminate H; injection H as ? ? ?; subst;
  repeat match goal with
         | Hb : context [negb ?b] |- _ => is_var b; destruct b
         end;
  cbn [negb orb andb] in *;
  solve [reflexivity | congruence | discriminate].

(** * Properties *)

Section Properties.
Context {ext : Externals}.

(** ** The primitive parser *)

Lemma parsePrimitive_empty_nil (schema : option Schema) :
  parsePrimitive "" schema = Ret (VNil, None).
Proof. reflexivity. Qed.

(** C8: for every schema (and for a nil schema reference), [parsePrimitive]
    applied to the empty string returns the nil value and no error, whatever
    the type set of the schema. *)
Theorem parsePrimitive_empty_is_nil (schema : option Schema) :
  parsePrimitive "" schema = Ret (VNil, None).
Proof.
  unfold parsePrimitive.
  reflexivity.
Qed.

(** ** The facade *)

(** C10: when [param.SerializationMethod()] gave a serialization method [sm],
    of any style and explode flag, a path parameter decoded against a request
    whose path-parameter map is empty (nil or without entries), and a query
    parameter decoded against a request whose query map is empty, give the
    nil value, [found = false] and no error. *)
Theorem decodeStyledParameter_empty_surface
    (param : Param) (input : RequestValidationInput) (sm : SerializationMethod) :
  ParamSerializationMethod param = inl sm ->
  (In param = "path" -> default ∅ (PathParams input) = ∅ ->
   decodeStyledParameter param input = Ret (VNil, false, None))
  /\ (In param = "query" -> QueryParams input = ∅ ->
      decodeStyledParameter param input = Ret (VNil, false, None)).
Proof.
  intros Hsm. unfold decodeStyledParameter. rewrite Hsm.
  split.
  - intros Hin Hempty. rewrite Hin. simpl.
    rewrite bool_decide_eq_true_2 by exact Hempty. reflexivity.
  - intros Hin Hempty. rewrite Hin. simpl.
    rewrite bool_decide_eq_true_2 by exact Hempty. reflexivity.
Qed.

(** ** The body decoder registry *)

Lemma lookup_after_unregister (bodyDecoders : registry) (contentType : string)
    (decoder : BodyDecoder) :
  delete contentType (<[contentType := decoder]> bodyDecoders) !! contentType = None.
Proof. apply lookup_delete_eq. Qed.

(** C7: [decodeBody] on a content type whose media type has no registered
    decoder returns a ParseError of kind UnsupportedFormat whose reason is
    "unsupported content type" followed by the quoted media type; and for
    every non-empty content type and decoder, after [RegisterBodyDecoder] and
    then [UnregisterBodyDecoder] no decoder is registered for it, so that
    decoding a body of that media type returns this error again. *)
Theorem decodeBody_unsupported_media_type
    (bodyDecoders : registry) (body : Body) (header : gmap string (list string))
    (schema : option Schema) (encFn : EncodingFn) :
  (bodyDecoders !! parseMediaType (bodyContentType body header) = None ->
   decodeBody bodyDecoders body header schema encFn =
     Ret ("", VNil,
          Some (EParse {| Kind := KindUnsupportedFormat; Value := VNil;
                          Reason := "unsupported content type " +:+
                                    Quote (parseMediaType (bodyContentType body header));
                          Cause := None; path := [] |})))
  /\ (forall (contentType : string) (decoder : BodyDecoder),
        contentType <> "" ->
        exists r1 r2 : registry,
          RegisterBodyDecoder bodyDecoders contentType (Some decoder) = Ret r1
          /\ UnregisterBodyDecoder r1 contentType = Ret r2
          /\ RegisteredBodyDecoder r2 contentType = None
          /\ (parseMediaType (bodyContentType body header) = contentType ->
              decodeBody r2 body header schema encFn =
                Ret ("", VNil,
                     Some (EParse {| Kind := KindUnsupportedFormat; Value := VNil;
                                     Reason := "unsupported content type " +:+
                                               Quote contentType;
                                     Cause := None; path := [] |})))).
Proof.
  split.
  - intros Hnone. unfold decodeBody. cbv zeta.
    unfold BodyDecoder in *. rewrite Hnone. reflexivity.
  - intros contentType decoder Hne.
    exists (<[contentType := decoder]> bodyDecoders).
    exists (delete contentType (<[contentType := decoder]> bodyDecoders)).
    assert (Heqb : String.eqb contentType "" = false)
      by (apply String.eqb_neq; exact Hne).
    unfold RegisterBodyDecoder, UnregisterBodyDecoder, RegisteredBodyDecoder.
    rewrite Heqb.
    repeat split.
    + apply lookup_after_unregister.
    + intros Hmt. unfold decodeBody. cbv zeta. rewrite Hmt.
      pose proof (lookup_after_unregister bodyDecoders contentType decoder) as Hgone.
      unfold BodyDecoder in *. rewrite Hgone. reflexivity.
Qed.

(** ** The path of a ParseError *)

(** C5 (the code at the failing input): the error of a part [inner] that
    fails with a JSON error, inside the part [outer] of a multipart body.
    [Path] puts the segment of the enclosing part last, and [Error] renders
    the path in that order. *)
Theorem nested_part_error_path (outer inner msg : string) :
  errPath (partError outer (partError inner (jsonError (ENew msg))))
    = [VString inner; VString outer]
  /\ errorString (partError outer (partError inner (jsonError (ENew msg))))
    = ("path " +:+ inner +:+ "." +:+ outer) +:+ ": " +:+ msg.
Proof.
  split.
  - reflexivity.
  - cbn. reflexivity.
Qed.

(** ** Arrays *)

Lemma appendValue_fold (vs : list value) (acc : option (list value)) :
  fold_left appendValue vs acc =
    match vs with
    | [] => acc
    | _ => Some (default [] acc ++ vs)
    end.
Proof.
  revert acc. induction vs as [|v vs IH]; intros acc.
  - reflexivity.
  - simpl. rewrite IH. destruct vs as [|w vs].
    + reflexivity.
    + unfold appendValue. simpl. rewrite <- app_assoc. reflexivity.
Qed.

(** The items that parse to a non-nil value are appended, and the loop goes
    on with the rest. *)
Lemma parseItems_app (parse : string -> go (value * option error))
    (pre rest : list string) (vs : list value) :
  parsesTo parse pre vs ->
  forall (i : Z) (acc : option (list value)),
    parseItems parse i (pre ++ rest) acc =
    parseItems parse (i + Z.of_nat (length pre)) rest (fold_left appendValue vs acc).
Proof.
  induction 1 as [|s v pre vs [Hs Hv] _ IH]; intros i acc.
  - simpl. rewrite Z.add_0_r. reflexivity.
  - cbn [app parseItems]. rewrite Hs. cbn [mbind go_bind]. rewrite Hv.
    rewrite IH. cbn [length fold_left].
    f_equal. lia.
Qed.

Lemma parseItems_all (parse : string -> go (value * option error))
    (raw : list string) (vs : list value) :
  parsesTo parse raw vs ->
  parseItems parse 0 raw None = Ret (sliceOf vs, None).
Proof.
  intros H. rewrite <- (app_nil_r raw).
  rewrite (parseItems_app parse raw [] vs H). simpl.
  rewrite appendValue_fold. destruct vs; reflexivity.
Qed.

Lemma parseItems_nil_item (parse : string -> go (value * option error))
    (pre post : list string) (x : string) (vs : list value) :
  parsesTo parse pre vs ->
  parse x = Ret (VNil, None) ->
  parseItems parse 0 (pre ++ x :: post) None = Ret (None, None).
Proof.
  intros H Hx. rewrite (parseItems_app parse pre (x :: post) vs H).
  cbn [parseItems]. rewrite Hx. reflexivity.
Qed.

Lemma parseItems_failing_item (parse : string -> go (value * option error))
    (pre post : list string) (x : string) (vs : list value) (v : value) (err : error) :
  parsesTo parse pre vs ->
  parse x = Ret (v, Some err) ->
  parseItems parse 0 (pre ++ x :: post) None =
    Ret (None, Some (itemError (Z.of_nat (length pre)) err)).
Proof.
  intros H Hx. rewrite (parseItems_app parse pre (x :: post) vs H).
  cbn [parseItems]. rewrite Hx. reflexivity.
Qed.

(** C4 (amended): let the items of [pre] parse, without error, to the non-nil
    values [vs].  Then [pre] decodes to the slice of [vs], in input order
    (the nil slice when [pre] is empty); [pre] followed by an item that
    parses to nil decodes to the nil slice with no error, whatever follows;
    and [pre] followed by an item that fails to parse decodes to the error of
    that item under its index, whatever follows, also when a later item
    parses to nil.  The same holds for the array parser of the query decoder,
    whose items are parsed by [parseValue]. *)
Theorem parseArray_first_stop_decides (schemaRef : Schema) (pre : list string)
    (vs : list value) :
  (parsesTo (fun v => parsePrimitive v (Items schemaRef)) pre vs ->
   parseArray pre schemaRef = Ret (sliceOf vs, None)
   /\ (forall x post,
         parsePrimitive x (Items schemaRef) = Ret (VNil, None) ->
         parseArray (pre ++ x :: post) schemaRef = Ret (None, None))
   /\ (forall x post v err,
         parsePrimitive x (Items schemaRef) = Ret (v, Some err) ->
         parseArray (pre ++ x :: post) schemaRef =
           Ret (None, Some (itemError (Z.of_nat (length pre)) err))))
  /\ (parsesTo (fun v => parseValueRef v (Items schemaRef)) pre vs ->
      query_parseArray pre schemaRef = Ret (sliceOf vs, None)
      /\ (forall x post,
            parseValueRef x (Items schemaRef) = Ret (VNil, None) ->
            query_parseArray (pre ++ x :: post) schemaRef = Ret (None, None))
      /\ (forall x post v err,
            parseValueRef x (Items schemaRef) = Ret (v, Some err) ->
            query_parseArray (pre ++ x :: post) schemaRef =
              Ret (None, Some (itemError (Z.of_nat (length pre)) err)))).
Proof.
  split; intros H; unfold parseArray, query_parseArray.
  - split; [|split].
    + apply parseItems_all; exact H.
    + intros x post Hx. eapply parseItems_nil_item; eauto.
    + intros x post v err Hx. eapply parseItems_failing_item; eauto.
  - split; [|split].
    + apply parseItems_all; exact H.
    + intros x post Hx. eapply parseItems_nil_item; eauto.
    + intros x post v err Hx. eapply parseItems_failing_item; eauto.
Qed.

(** ** The dispatcher: allOf *)

Lemma decodeValue_allOf_eq (dec : valueDecoder) (param : string) (sm : SerializationMethod)
    (schema : Schema) (required : bool) :
  AllOf schema <> [] ->
  decodeValue dec param sm schema required =
    decodeAllOf (fun sr => decodeValue dec param sm sr required) (AllOf schema)
      VNil false None.
Proof.
  destruct schema as [ty fmt pat allOf anyOf oneOf not items props addl].
  cbn [AllOf]. intros Hne. destruct allOf as [|m ms]; [congruence|].
  reflexivity.
Qed.

Lemma last_cons_default {A : Type} (l : list A) (a d : A) :
  List.last (a :: l) d = List.last l a.
Proof.
  revert a d. induction l as [|b l IH]; intros a d.
  - reflexivity.
  - change (List.last (a :: b :: l) d) with (List.last (b :: l) d).
    rewrite (IH b d), (IH b a). reflexivity.
Qed.

(** The value and the found flag the members of [rs] leave in the variables
    of the loop. *)
Lemma decodeAllOf_app (decode : Schema -> go primitiveResult)
    (pre rest : list Schema) (rs : list (value * bool)) :
  decodesTo decode pre rs ->
  forall (val : value) (found : bool),
    decodeAllOf decode (pre ++ rest) val found None =
    decodeAllOf decode rest (List.last (map fst rs) val) (found || existsb snd rs) None.
Proof.
  induction 1 as [|m r pre rs [Hm Hv] _ IH]; intros val found.
  - simpl. rewrite orb_false_r. reflexivity.
  - cbn [app decodeAllOf]. rewrite Hm. cbn [mbind go_bind]. rewrite Hv.
    cbn [orb]. rewrite bool_decide_eq_false_2 by (intros Hc; apply Hc; reflexivity).
    rewrite IH. cbn [map existsb]. rewrite orb_assoc.
    rewrite last_cons_default. reflexivity.
Qed.

(** C3 (amended): when [allOf] is not empty, the members are decoded in
    order.  Let the members [pre] decode without error to non-nil values.  If
    the next member gives a nil value or an error, the loop stops there and
    the result is the value and the error of that member, the values of the
    members before it being dropped; if [pre] is the whole list, the result
    is the value of the last member.  In both cases [found] is true iff one
    of the members decoded so far found input. *)
Theorem decodeValue_allOf_last_decoded (dec : valueDecoder) (param : string)
    (sm : SerializationMethod) (schema : Schema) (required : bool)
    (pre : list Schema) (rs : list (value * bool)) :
  decodesTo (fun sr => decodeValue dec param sm sr required) pre rs ->
  (forall m post v f err,
      AllOf schema = pre ++ m :: post ->
      decodeValue dec param sm m required = Ret (v, f, err) ->
      isNil v = true \/ err <> None ->
      decodeValue dec param sm schema required = Ret (v, existsb snd rs || f, err))
  /\ (pre <> [] -> AllOf schema = pre ->
      decodeValue dec param sm schema required =
        Ret (List.last (map fst rs) VNil, existsb snd rs, None)).
Proof.
  intros Hpre. split.
  - intros m post v f err Hall Hm Hstop.
    rewrite decodeValue_allOf_eq by (rewrite Hall; destruct pre; discriminate).
    rewrite Hall.
    rewrite (decodeAllOf_app _ pre (m :: post) rs Hpre).
    cbn [decodeAllOf]. rewrite Hm. cbn [mbind go_bind orb].
    destruct Hstop as [Hnil | Herr].
    + rewrite Hnil. reflexivity.
    + rewrite (bool_decide_eq_true_2 _ Herr). rewrite orb_true_r. reflexivity.
  - intros Hne Hall.
    rewrite decodeValue_allOf_eq by (rewrite Hall; exact Hne).
    rewrite Hall. rewrite <- (app_nil_r pre).
    rewrite (decodeAllOf_app _ pre [] rs Hpre).
    reflexivity.
Qed.

(** ** The dispatcher: oneOf *)

Lemma decodeValue_oneOf_eq (dec : valueDecoder) (param : string) (sm : SerializationMethod)
    (schema : Schema) (required : bool) :
  AllOf schema = [] -> AnyOf schema = [] -> OneOf schema <> [] ->
  decodeValue dec param sm schema required =
    (r ← decodeOneOf (fun sr => decodeValue dec param sm sr required) (OneOf schema)
           VNil 0 false;
     let '(val, isMatched, found) := r in
     if (1 <=? isMatched)%Z then Ret (val, found, None)
     else if required
     then Ret (VNil, found,
               Some (ENew ("decoding oneOf failed: " +:+ Quote param +:+ " is required")))
     else Ret (VNil, found, None)).
Proof.
  destruct schema as [ty fmt pat allOf anyOf oneOf not items props addl].
  cbn [AllOf AnyOf OneOf]. intros -> -> Hne.
  destruct oneOf as [|m ms]; [congruence|]. reflexivity.
Qed.

Lemma parseValue_oneOf_eq (v : string) (schema : Schema) :
  AllOf schema = [] -> AnyOf schema = [] -> OneOf schema <> [] ->
  parseValue v schema =
    (r ← parseOneOf (parseValue v) (OneOf schema) VNil 0;
     let '(val, isMatched) := r in
     if (isMatched =? 1)%Z then Ret (val, None)
     else Ret (VNil, Some (oneOfMatchedErr isMatched))).
Proof.
  destruct schema as [ty fmt pat allOf anyOf oneOf not items props addl].
  cbn [AllOf AnyOf OneOf]. intros -> -> Hne.
  destruct oneOf as [|m ms]; [congruence|]. reflexivity.
Qed.

(** What the oneOf loop of [decodeValue] computes when no member panics: the
    last value that is not nil, and one match for each such value. *)
Lemma decodeOneOf_returns (decode : Schema -> go primitiveResult)
    (members : list Schema) (rs : list primitiveResult) :
  returns decode members rs ->
  forall (val : value) (isMatched : Z) (found : bool),
    decodeOneOf decode members val isMatched found =
      Ret (fold_left (fun acc r => if isNil r.1.1 then acc else r.1.1) rs val,
           (isMatched + Z.of_nat (length (List.filter (fun r => negb (isNil r.1.1)) rs)))%Z,
           found || existsb (fun r => r.1.2) rs).
Proof.
  induction 1 as [|m r members rs Hm _ IH]; intros val isMatched found.
  - simpl. rewrite Z.add_0_r, orb_false_r. reflexivity.
  - cbn [decodeOneOf]. rewrite Hm. cbn [mbind go_bind].
    destruct r as [[v f] e]. cbn [fold_left List.filter existsb fst snd].
    destruct (isNil v) eqn:Hv; cbn [negb]; rewrite IH; rewrite orb_assoc.
    + reflexivity.
    + cbn [length]. f_equal. f_equal. f_equal. lia.
Qed.

Lemma fold_last_non_nil (rs : list primitiveResult) (val : value) :
  isNil val = false \/ Exists (fun r => isNil r.1.1 = false) rs ->
  isNil (fold_left (fun acc r => if isNil r.1.1 then acc else r.1.1) rs val) = false.
Proof.
  revert val. induction rs as [|r rs IH]; intros val [Hval | Hex].
  - exact Hval.
  - inversion Hex.
  - cbn [fold_left]. apply IH. left.
    destruct (isNil r.1.1) eqn:Hr; [exact Hval | exact Hr].
  - cbn [fold_left]. apply IH. inversion Hex as [? ? Hr | ? ? Hrest]; subst.
    + left. rewrite Hr. exact Hr.
    + right. exact Hrest.
Qed.

Lemma count_non_nil_positive (rs : list primitiveResult) :
  Exists (fun r => isNil r.1.1 = false) rs ->
  (1 <= Z.of_nat (length (List.filter (fun r => negb (isNil r.1.1)) rs)))%Z.
Proof.
  induction 1 as [r rs Hr | r rs _ IH].
  - cbn [List.filter]. rewrite Hr. cbn [negb length]. lia.
  - cbn [List.filter]. destruct (negb (isNil r.1.1)); cbn [length]; lia.
Qed.

(** What the oneOf loop of [parseValue] computes when no member panics: one
    match for each member parsed without error. *)
Lemma parseOneOf_returns (parse : Schema -> go (value * option error))
    (members : list Schema) (rs : list (value * option error)) :
  returns parse members rs ->
  forall (val : value) (isMatched : Z),
    exists val', parseOneOf parse members val isMatched =
      Ret (val', (isMatched + Z.of_nat (countParsed rs))%Z).
Proof.
  unfold countParsed.
  induction 1 as [|m r members rs Hm _ IH]; intros val isMatched.
  - exists val. simpl. rewrite Z.add_0_r. reflexivity.
  - cbn [parseOneOf]. rewrite Hm. cbn [mbind go_bind].
    destruct r as [v [e|]]; cbn [List.filter snd].
    + rewrite bool_decide_eq_false_2 by discriminate. apply IH.
    + rewrite bool_decide_eq_true_2 by reflexivity.
      destruct (IH v (isMatched + 1)%Z) as [val' Hval']. exists val'.
      rewrite Hval'. cbn [length]. f_equal. f_equal. lia.
Qed.

(** The last result with a value that is not nil, when there is one. *)
Lemma last_non_nil (rs : list primitiveResult) :
  Exists (fun r => isNil r.1.1 = false) rs ->
  exists (pre : list primitiveResult) (r : primitiveResult) (post : list primitiveResult),
    rs = pre ++ r :: post /\ isNil r.1.1 = false
    /\ Forall (fun r' => isNil r'.1.1 = true) post.
Proof.
  induction rs as [|r rs IH]; intros Hex; [inversion Hex|].
  destruct (existsb (fun r' => negb (isNil r'.1.1)) rs) eqn:Hrest.
  - apply existsb_exists in Hrest. destruct Hrest as (r' & Hin & Hr').
    destruct IH as (pre & r0 & post & -> & Hr0 & Hpost).
    { apply Exists_exists. exists r'. split; [apply list_elem_of_In; exact Hin|].
      apply negb_true_iff. exact Hr'. }
    exists (r :: pre), r0, post. split; [reflexivity | split; assumption].
  - assert (Hpost : Forall (fun r' => isNil r'.1.1 = true) rs).
    { apply Forall_forall. intros r' Hin.
      destruct (isNil r'.1.1) eqn:Hr'; [reflexivity|]. exfalso.
      assert (Htrue : existsb (fun r' => negb (isNil r'.1.1)) rs = true).
      { apply existsb_exists. exists r'. split; [apply list_elem_of_In; exact Hin|].
        rewrite Hr'. reflexivity. }
      congruence. }
    exists [], r, rs. split; [reflexivity|]. split; [|exact Hpost].
    inversion Hex as [? ? Hr | ? ? Hrs]; subst; [exact Hr|].
    exfalso. apply Exists_exists in Hrs. destruct Hrs as (r' & Hin & Hr').
    rewrite Forall_forall in Hpost. rewrite (Hpost r' Hin) in Hr'. discriminate Hr'.
Qed.

(** The value the oneOf loop of [decodeValue] keeps: the value of the last
    result that is not nil. *)
Lemma fold_last_value (pre post : list primitiveResult) (r : primitiveResult)
    (val : value) :
  isNil r.1.1 = false -> Forall (fun r' => isNil r'.1.1 = true) post ->
  fold_left (fun acc r' => if isNil r'.1.1 then acc else r'.1.1) (pre ++ r :: post) val
    = r.1.1.
Proof.
  intros Hr Hpost. rewrite fold_left_app. cbn [fold_left]. rewrite Hr.
  generalize (r.1.1). induction Hpost as [|r' post Hr' _ IH]; intros acc; [reflexivity|].
  cbn [fold_left]. rewrite Hr'. apply IH.
Qed.

(** C6: under a schema whose [oneOf] is what the dispatcher goes by ([allOf]
    and [anyOf] are empty), styled decoding returns a decoded value of one of
    the members, and no error, whenever the members are decoded without a
    panic and at least one of them, possibly more, gives a non-nil value: the
    value returned is the value of the last member that gives one, and [found]
    tells whether one of the members found the parameter; whereas
    [parseValue] returns the nil value and the error "decoding oneOf failed:
    <n> schemas matched" whenever the members are parsed without a panic and
    more than one of them, [n] of them, parses without error. *)
Theorem oneOf_styled_tolerates_several_matches (dec : valueDecoder) (param : string)
    (sm : SerializationMethod) (schema : Schema) (required : bool) (v : string) :
  AllOf schema = [] -> AnyOf schema = [] -> OneOf schema <> [] ->
  (forall rs : list primitiveResult,
      returns (fun sr => decodeValue dec param sm sr required) (OneOf schema) rs ->
      Exists (fun r => isNil r.1.1 = false) rs ->
      exists val found,
        decodeValue dec param sm schema required = Ret (val, found, None)
        /\ isNil val = false
        /\ found = existsb (fun r => r.1.2) rs
        /\ exists (pre : list primitiveResult) (r : primitiveResult)
                  (post : list primitiveResult),
             rs = pre ++ r :: post /\ r.1.1 = val
             /\ Forall (fun r' => isNil r'.1.1 = true) post)
  /\ (forall rs : list (value * option error),
        returns (parseValue v) (OneOf schema) rs ->
        1 < countParsed rs ->
        exists err,
          parseValue v schema = Ret (VNil, Some err)
          /\ err = ENew ("decoding oneOf failed: " +:+ pretty (Z.of_nat (countParsed rs))
                         +:+ " schemas matched")).
Proof.
  intros HallOf HanyOf HoneOf. split.
  - intros rs Hrs Hex.
    rewrite decodeValue_oneOf_eq by assumption.
    rewrite (decodeOneOf_returns _ _ _ Hrs). cbn [mbind go_bind].
    pose proof (count_non_nil_positive rs Hex) as Hcount.
    rewrite (proj2 (Z.leb_le _ _)) by lia.
    destruct (last_non_nil rs Hex) as (pre & r & post & Heq & Hr & Hpost).
    exists r.1.1, (existsb (fun r => r.1.2) rs).
    split; [|split; [exact Hr | split; [reflexivity|]]].
    + rewrite Heq at 1. rewrite (fold_last_value pre post r VNil Hr Hpost). reflexivity.
    + exists pre, r, post. split; [exact Heq | split; [reflexivity | exact Hpost]].
  - intros rs Hrs Hcount.
    rewrite parseValue_oneOf_eq by assumption.
    destruct (parseOneOf_returns _ _ _ Hrs VNil 0%Z) as [val' Hval'].
    rewrite Hval'. cbn [mbind go_bind].
    rewrite (proj2 (Z.eqb_neq _ _)) by lia.
    eexists. split; reflexivity.
Qed.

(** ** The style checks of the value decoders *)

Lemma handlePropParseError_not_new (path_ : list string) (err : error) :
  isNew (handlePropParseError path_ err) = false.
Proof. destruct err; reflexivity. Qed.

Lemma nestedProps_error_not_new (props : gmap string string) (schema : Schema)
    (propName : string) (entries : list (string * string)) :
  forall (obj : gmap string value) (e : error),
    nestedProps props schema propName entries obj = Ret (inr e) -> isNew e = false.
Proof.
  induction entries as [|[prop val] entries IH]; intros obj e H.
  - discriminate H.
  - cbn [nestedProps] in H.
    destruct (negb (strings.HasPrefix prop (propName +:+ urlDecoderDelimiter))).
    + eapply IH; exact H.
    + break_matches H; try discriminate H;
        try (eapply IH; exact H);
        injection H as <-; first [reflexivity | apply handlePropParseError_not_new].
Qed.

Lemma makeObjectProps_error_not_new (props : gmap string string) (schema : Schema)
    (todo : list (string * Schema)) :
  forall (obj : gmap string value) (o : option (gmap string value)) (e : error),
    makeObjectProps props schema todo obj = Ret (o, Some e) -> isNew e = false.
Proof.
  induction todo as [|[propName propSchema] todo IH]; intros obj o e H.
  - discriminate H.
  - cbn [makeObjectProps] in H.
    destruct (Is (Type_ propSchema) "array"); [|destruct (Is (Type_ propSchema) "object")].
    + destruct (arrayProperty _ _) as [[ivals [err|]]|]; cbn [mbind go_bind] in H;
        try discriminate H.
      * injection H as _ <-. apply handlePropParseError_not_new.
      * eapply IH; exact H.
    + destruct (nestedProps _ _ _ _ _) as [[obj'|err]|] eqn:Hn; cbn [mbind go_bind] in H;
        try discriminate H.
      * eapply IH; exact H.
      * injection H as _ <-. eapply nestedProps_error_not_new; exact Hn.
    + destruct (parsePrimitive _ _) as [[val [err|]]|]; cbn [mbind go_bind] in H;
        try discriminate H.
      * injection H as _ <-. apply handlePropParseError_not_new.
      * eapply IH; exact H.
Qed.

Lemma makeObject_error_not_new (props : gmap string string) (schema : Schema)
    (o : option (gmap string value)) (e : error) :
  makeObject props schema = Ret (o, Some e) -> isNew e = false.
Proof. apply makeObjectProps_error_not_new. Qed.

Lemma propsFromString_error_not_new (src propDelim valueDelim : string)
    (o : option (gmap string string)) (e : error) :
  propsFromString src propDelim valueDelim = (o, Some e) -> isNew e = false.
Proof.
  unfold propsFromString.
  destruct (String.eqb propDelim valueDelim).
  - destruct (negb _); intros H; [|discriminate H].
    injection H as _ <-. reflexivity.
  - generalize (∅ : gmap string string).
    induction (Split src propDelim) as [|p pairs IH]; intros acc H.
    + discriminate H.
    + cbn [splitPairs] in H.
      destruct (Split p valueDelim) as [|k [|v [|? ?]]];
        try (injection H as _ <-; reflexivity).
      eapply IH; exact H.
Qed.

Lemma path_DecodePrimitive_ism (pathParams : option (gmap string string))
    (param : string) (sm : SerializationMethod) (schema : Schema) :
  path_DecodePrimitive pathParams param sm schema =
    Ret (VNil, false, Some (invalidSerializationMethodErr sm))
  <-> ~ List.In (Style sm) ["simple"; "label"; "matrix"].
Proof.
  unfold path_DecodePrimitive.
  destruct (String.eqb (Style sm) "simple") eqn:E1;
    [|destruct (String.eqb (Style sm) "label") eqn:E2;
      [|destruct (String.eqb (Style sm) "matrix") eqn:E3]];
    style_facts.
  1-3: split; [intros H; differ H | intros Hn; exfalso; apply Hn; simpl; auto].
  split; [intros _ | reflexivity].
  simpl. intros [H|[H|[H|[]]]]; congruence.
Qed.

Lemma path_DecodeArray_ism (pathParams : option (gmap string string))
    (param : string) (sm : SerializationMethod) (schema : Schema) :
  path_DecodeArray pathParams param sm schema =
    Ret (None, false, Some (invalidSerializationMethodErr sm))
  <-> ~ List.In (Style sm) ["simple"; "label"; "matrix"].
Proof.
  unfold path_DecodeArray.
  destruct (String.eqb (Style sm) "simple") eqn:E1;
    [|destruct (String.eqb (Style sm) "label") eqn:E2;
      [|destruct (String.eqb (Style sm) "matrix") eqn:E3]];
    destruct (Explode sm); cbn [andb negb]; style_facts.
  1-6: split; [intros H; differ H | intros Hn; exfalso; apply Hn; simpl; auto].
  all: split; [intros _ | reflexivity].
  all: simpl; intros [H|[H|[H|[]]]]; congruence.
Qed.

Lemma path_DecodeObject_ism (pathParams : option (gmap string string))
    (param : string) (sm : SerializationMethod) (schema : Schema) :
  path_DecodeObject pathParams param sm schema =
    Ret (None, false, Some (invalidSerializationMethodErr sm))
  <-> ~ List.In (Style sm) ["simple"; "label"; "matrix"].
Proof.
  unfold path_DecodeObject.
  destruct (String.eqb (Style sm) "simple") eqn:E1;
    [|destruct (String.eqb (Style sm) "label") eqn:E2;
      [|destruct (String.eqb (Style sm) "matrix") eqn:E3]];
    destruct (Explode sm); cbn [andb negb]; style_facts.
  1-6: split; [intros H; differ H | intros Hn; exfalso; apply Hn; simpl; auto].
  all: split; [intros _ | reflexivity].
  all: simpl; intros [H|[H|[H|[]]]]; congruence.
Qed.

Lemma header_DecodePrimitive_ism (header : gmap string (list string))
    (param : string) (sm : SerializationMethod) (schema : Schema) :
  header_DecodePrimitive header param sm schema =
    Ret (VNil, false, Some (invalidSerializationMethodErr sm))
  <-> Style sm <> "simple".
Proof.
  unfold header_DecodePrimitive.
  destruct (String.eqb (Style sm) "simple") eqn:E1; cbn [negb]; style_facts.
  - split; [intros H; differ H | intros Hn; congruence].
  - split; [intros _; exact E1 | reflexivity].
Qed.

Lemma header_DecodeArray_ism (header : gmap string (list string))
    (param : string) (sm : SerializationMethod) (schema : Schema) :
  header_DecodeArray header param sm schema =
    Ret (None, false, Some (invalidSerializationMethodErr sm))
  <-> Style sm <> "simple".
Proof.
  unfold header_DecodeArray.
  destruct (String.eqb (Style sm) "simple") eqn:E1; cbn [negb]; style_facts.
  - split; [intros H; differ H | intros Hn; congruence].
  - split; [intros _; exact E1 | reflexivity].
Qed.

Lemma header_DecodeObject_ism (header : gmap string (list string))
    (param : string) (sm : SerializationMethod) (schema : Schema) :
  header_DecodeObject header param sm schema =
    Ret (None, false, Some (invalidSerializationMethodErr sm))
  <-> Style sm <> "simple".
Proof.
  unfold header_DecodeObject.
  destruct (String.eqb (Style sm) "simple") eqn:E1; cbn [negb]; style_facts.
  - split; [intros H; differ H | intros Hn; congruence].
  - split; [intros _; exact E1 | reflexivity].
Qed.

Lemma cookie_DecodePrimitive_ism (req : Request)
    (param : string) (sm : SerializationMethod) (schema : Schema) :
  cookie_DecodePrimitive req param sm schema =
    Ret (VNil, false, Some (invalidSerializationMethodErr sm))
  <-> Style sm <> "form".
Proof.
  unfold cookie_DecodePrimitive.
  destruct (String.eqb (Style sm) "form") eqn:E1; cbn [negb]; style_facts.
  - split; [intros H | intros Hn; congruence].
    exfalso. cbv zeta in H.
    destruct (notErrNoCookie (Cookie req param)); cbn [negb] in H; differ H.
  - split; [intros _; exact E1 | reflexivity].
Qed.

Lemma cookie_DecodeArray_ism (req : Request)
    (param : string) (sm : SerializationMethod) (schema : Schema) :
  cookie_DecodeArray req param sm schema =
    Ret (None, false, Some (invalidSerializationMethodErr sm))
  <-> (Style sm <> "form" \/ Explode sm = true).
Proof.
  unfold cookie_DecodeArray.
  destruct (String.eqb (Style sm) "form") eqn:E1; destruct (Explode sm);
    cbn [negb orb]; style_facts.
  2: { split; [intros H | intros [Hn|Hn]; congruence].
       exfalso. cbv zeta in H.
       destruct (notErrNoCookie (Cookie req param)); cbn [negb] in H; differ H. }
  all: split; [intros _; auto | reflexivity].
Qed.

Lemma cookie_DecodeObject_ism (req : Request)
    (param : string) (sm : SerializationMethod) (schema : Schema) :
  cookie_DecodeObject req param sm schema =
    Ret (None, false, Some (invalidSerializationMethodErr sm))
  <-> (Style sm <> "form" \/ Explode sm = true).
Proof.
  unfold cookie_DecodeObject.
  destruct (String.eqb (Style sm) "form") eqn:E1; destruct (Explode sm);
    cbn [negb orb]; style_facts.
  2: { split; [intros H | intros [Hn|Hn]; congruence].
       exfalso. cbv zeta in H.
       destruct (notErrNoCookie (Cookie req param)); cbn [negb] in H; differ H. }
  all: split; [intros _; auto | reflexivity].
Qed.

Lemma query_DecodePrimitive_ism (values : gmap string (list string))
    (param : string) (sm : SerializationMethod) (schema : Schema) :
  query_DecodePrimitive values param sm schema =
    Ret (VNil, false, Some (invalidSerializationMethodErr sm))
  <-> Style sm <> "form".
Proof.
  unfold query_DecodePrimitive.
  destruct (String.eqb (Style sm) "form") eqn:E1; cbn [negb]; style_facts.
  - split; [intros H; differ H | intros Hn; congruence].
  - split; [intros _; exact E1 | reflexivity].
Qed.

Lemma query_DecodeArray_ism (values : gmap string (list string))
    (param : string) (sm : SerializationMethod) (schema : Schema) :
  query_DecodeArray values param sm schema =
    Ret (None, false, Some (invalidSerializationMethodErr sm))
  <-> Style sm = "deepObject".
Proof.
  unfold query_DecodeArray.
  destruct (String.eqb (Style sm) "deepObject") eqn:E1; style_facts.
  - split; [intros _; exact E1 | reflexivity].
  - split; [intros H | intros Hn; congruence].
    unfold commaOkValues in H.
    destruct (values !! param) as [[|v0 vals]|]; try discriminate H.
    destruct (query_parseArray _ schema) as [r|]; discriminate H.
Qed.

Lemma query_propsFn_error_not_new (param : string) (sm : SerializationMethod)
    (values : gmap string (list string))
    (propsFn : go (option (gmap string string) * option error))
    (o : option (gmap string string)) (e : error) :
  query_propsFn param sm values = Some propsFn ->
  propsFn = Ret (o, Some e) -> isNew e = false.
Proof.
  unfold query_propsFn. intros Hfn Hp.
  destruct (String.eqb (Style sm) "form");
    [|destruct (String.eqb (Style sm) "deepObject"); [|discriminate Hfn]];
    injection Hfn as <-.
  - destruct (bool_decide (values = ∅)); [discriminate Hp|].
    destruct (Explode sm).
    + destruct (firstValues _ _); discriminate Hp.
    + destruct ((commaOkValues values param).1) as [|v0 vals]; [discriminate Hp|].
      injection Hp as Hp. eapply propsFromString_error_not_new; exact Hp.
  - cbv zeta in Hp. destruct (bool_decide _); discriminate Hp.
Qed.

Lemma query_DecodeObject_ism (values : gmap string (list string))
    (param : string) (sm : SerializationMethod) (schema : Schema) :
  query_DecodeObject values param sm schema =
    Ret (None, false, Some (invalidSerializationMethodErr sm))
  <-> ~ List.In (Style sm) ["form"; "deepObject"].
Proof.
  unfold query_DecodeObject.
  destruct (query_propsFn param sm values) as [propsFn|] eqn:Hfn.
  - split.
    + intros H. exfalso.
      destruct propsFn as [[o [e|]]|] eqn:Hp; cbn [mbind go_bind] in H.
      * assert (He : e = invalidSerializationMethodErr sm)
          by (destruct o; injection H as ->; reflexivity).
        subst e.
        pose proof (query_propsFn_error_not_new _ _ _ _ _ _ Hfn eq_refl) as Hnew.
        discriminate Hnew.
      * destruct o as [props|]; [|discriminate H].
        destruct (makeObject props schema) as [[val [e|]]|] eqn:Hm;
          cbn [mbind go_bind] in H; try discriminate H.
        injection H as ->.
        pose proof (makeObject_error_not_new _ _ _ _ Hm) as Hnew.
        discriminate Hnew.
      * discriminate H.
    + intros Hn. exfalso. apply Hn. unfold query_propsFn in Hfn.
      destruct (String.eqb (Style sm) "form") eqn:E1;
        [|destruct (String.eqb (Style sm) "deepObject") eqn:E2; [|discriminate Hfn]];
        style_facts; simpl; auto.
  - split; [intros _ | reflexivity].
    unfold query_propsFn in Hfn.
    destruct (String.eqb (Style sm) "form") eqn:E1; [discriminate Hfn|].
    destruct (String.eqb (Style sm) "deepObject") eqn:E2; [discriminate Hfn|].
    style_facts. simpl. intros [H|[H|[]]]; congruence.
Qed.

(** C1 (amended): an operation of a value decoder returns the invalid
    serialization method error, with no value and [found = false], exactly
    when the style check of that operation rejects the method, whether the
    surface contains the parameter or not: the path decoder for a style other
    than simple, label and matrix; the query decoder's [DecodePrimitive] for
    a style other than form, its [DecodeArray] for the style deepObject only
    (so that spaceDelimited and pipeDelimited, and any other style, pass with
    either explode flag), its [DecodeObject] for a style other than form and
    deepObject; the header decoder for a style other than simple; the cookie
    decoder's [DecodePrimitive] for a style other than form (with either
    explode flag), its [DecodeArray] and [DecodeObject] for a style other
    than form or for explode = true. *)
Theorem invalid_serialization_method_iff_style_check
    (param : string) (sm : SerializationMethod) (schema : Schema) :
  (forall pathParams : option (gmap string string),
      (path_DecodePrimitive pathParams param sm schema =
         Ret (VNil, false, Some (invalidSerializationMethodErr sm))
       <-> ~ List.In (Style sm) ["simple"; "label"; "matrix"])
      /\ (path_DecodeArray pathParams param sm schema =
            Ret (None, false, Some (invalidSerializationMethodErr sm))
          <-> ~ List.In (Style sm) ["simple"; "label"; "matrix"])
      /\ (path_DecodeObject pathParams param sm schema =
            Ret (None, false, Some (invalidSerializationMethodErr sm))
          <-> ~ List.In (Style sm) ["simple"; "label"; "matrix"]))
  /\ (forall values : gmap string (list string),
        (query_DecodePrimitive values param sm schema =
           Ret (VNil, false, Some (invalidSerializationMethodErr sm))
         <-> Style sm <> "form")
        /\ (query_DecodeArray values param sm schema =
              Ret (None, false, Some (invalidSerializationMethodErr sm))
            <-> Style sm = "deepObject")
        /\ (query_DecodeObject values param sm schema =
              Ret (None, false, Some (invalidSerializationMethodErr sm))
            <-> ~ List.In (Style sm) ["form"; "deepObject"]))
  /\ (forall header : gmap string (list string),
        (header_DecodePrimitive header param sm schema =
           Ret (VNil, false, Some (invalidSerializationMethodErr sm))
         <-> Style sm <> "simple")
        /\ (header_DecodeArray header param sm schema =
              Ret (None, false, Some (invalidSerializationMethodErr sm))
            <-> Style sm <> "simple")
        /\ (header_DecodeObject header param sm schema =
              Ret (None, false, Some (invalidSerializationMethodErr sm))
            <-> Style sm <> "simple"))
  /\ (forall req : Request,
        (cookie_DecodePrimitive req param sm schema =
           Ret (VNil, false, Some (invalidSerializationMethodErr sm))
         <-> Style sm <> "form")
        /\ (cookie_DecodeArray req param sm schema =
              Ret (None, false, Some (invalidSerializationMethodErr sm))
            <-> (Style sm <> "form" \/ Explode sm = true))
        /\ (cookie_DecodeObject req param sm schema =
              Ret (None, false, Some (invalidSerializationMethodErr sm))
            <-> (Style sm <> "form" \/ Explode sm = true))).
Proof.
  repeat split.
  all: first
    [ apply path_DecodePrimitive_ism | apply path_DecodeArray_ism
    | apply path_DecodeObject_ism | apply query_DecodePrimitive_ism
    | apply query_DecodeArray_ism | apply query_DecodeObject_ism
    | apply header_DecodePrimitive_ism | apply header_DecodeArray_ism
    | apply header_DecodeObject_ism | apply cookie_DecodePrimitive_ism
    | apply cookie_DecodeArray_ism | apply cookie_DecodeObject_ism ].
Qed.

(** ** The found flag of the value decoders *)


Lemma header_found (header : gmap string (list string)) (param : string)
    (sm : SerializationMethod) (schema : Schema) :
  Style sm = "simple" ->
  (forall v found err,
      header_DecodePrimitive header param sm schema = Ret (v, found, err) ->
      found = bool_decide (is_Some (header !! CanonicalHeaderKey param)))
  /\ (forall v found err,
        header_DecodeArray header param sm schema = Ret (v, found, err) ->
        found = bool_decide (is_Some (header !! CanonicalHeaderKey param)))
  /\ (forall v found err,
        header_DecodeObject header param sm schema = Ret (v, found, err) ->
        found = bool_decide (is_Some (header !! CanonicalHeaderKey param))).
Proof.
  intros Hstyle.
  unfold header_DecodePrimitive, header_DecodeArray, header_DecodeObject, commaOkValues.
  rewrite Hstyle. cbn [String.eqb Ascii.eqb Bool.eqb negb].
  destruct (header !! CanonicalHeaderKey param) as [[|r0 raw]|];
    repeat split; intros v found err H; cbv zeta in H.
  all: try (injection H as _ <- _; reflexivity).
  all: read_found H.
Qed.

Lemma cookie_found (req : Request) (param : string)
    (sm : SerializationMethod) (schema : Schema) :
  Style sm = "form" ->
  (forall v found err,
      cookie_DecodePrimitive req param sm schema = Ret (v, found, err) ->
      found = notErrNoCookie (Cookie req param))
  /\ (Explode sm = false ->
      (forall v found err,
          cookie_DecodeArray req param sm schema = Ret (v, found, err) ->
          found = notErrNoCookie (Cookie req param))
      /\ (forall v found err,
            cookie_DecodeObject req param sm schema = Ret (v, found, err) ->
            found = notErrNoCookie (Cookie req param))).
Proof.
  intros Hstyle.
  unfold cookie_DecodePrimitive, cookie_DecodeArray, cookie_DecodeObject.
  rewrite Hstyle. cbn [String.eqb Ascii.eqb Bool.eqb negb orb]. cbv zeta.
  destruct (notErrNoCookie (Cookie req param)); cbn [negb].
  - split; [|intros ->; split]; intros v found err H; read_found H.
  - split; [|intros ->; split]; intros v found err H; read_found H.
Qed.

Lemma query_found (values : gmap string (list string)) (param : string)
    (sm : SerializationMethod) (schema : Schema) :
  (Style sm = "form" ->
   forall v found err,
     query_DecodePrimitive values param sm schema = Ret (v, found, err) ->
     found = bool_decide (is_Some (values !! param)))
  /\ (Style sm <> "deepObject" ->
      forall v found err,
        query_DecodeArray values param sm schema = Ret (v, found, err) ->
        found = bool_decide (is_Some (values !! param))).
Proof.
  unfold query_DecodePrimitive, query_DecodeArray, commaOkValues. split.
  - intros Hstyle v found err H. rewrite Hstyle in H.
    cbn [String.eqb Ascii.eqb Bool.eqb negb] in H.
    destruct (values !! param) as [[|v0 vals]|].
    + injection H as _ <- _. reflexivity.
    + read_found H.
    + injection H as _ <- _. reflexivity.
  - intros Hstyle v found err H.
    apply String.eqb_neq in Hstyle. rewrite Hstyle in H.
    destruct (values !! param) as [[|v0 vals]|].
    + injection H as _ <- _. reflexivity.
    + destruct (query_parseArray _ schema) as [r|]; [|discriminate H].
      cbn [mbind go_bind] in H. injection H as _ <- _. reflexivity.
    + injection H as _ <- _. reflexivity.
Qed.

Lemma path_found (pathParams : option (gmap string string)) (param : string)
    (sm : SerializationMethod) (schema : Schema) :
  List.In (Style sm) ["simple"; "label"; "matrix"] ->
  (forall v found err,
      path_DecodePrimitive pathParams param sm schema = Ret (v, found, err) ->
      found = pathValuePresent pathParams param)
  /\ (forall v found err,
        path_DecodeArray pathParams param sm schema = Ret (v, found, err) ->
        found = pathValuePresent pathParams param)
  /\ (forall v found err,
        path_DecodeObject pathParams param sm schema = Ret (v, found, err) ->
        found = pathValuePresent pathParams param).
Proof.
  intros Hstyle.
  unfold path_DecodePrimitive, path_DecodeArray, path_DecodeObject, pathValuePresent,
    commaOk.
  destruct pathParams as [pp|]; cbn [default from_option id].
  - destruct (pp !! param) as [raw|]; [destruct (String.eqb raw "") eqn:Hraw|];
      cbn [negb orb];
      destruct Hstyle as [<-|[<-|[<-|[]]]]; destruct (Explode sm);
      cbn [String.eqb Ascii.eqb Bool.eqb negb andb];
      repeat split; intros v found err H.
    all: try (injection H as _ <- _; reflexivity).
    all: read_found H.
  - rewrite lookup_empty.
    destruct Hstyle as [<-|[<-|[<-|[]]]]; destruct (Explode sm);
      cbn [String.eqb Ascii.eqb Bool.eqb negb andb];
      repeat split; intros v found err H.
    all: injection H as _ <- _; reflexivity.
Qed.

(** C2 (amended): when the style check of the operation accepts the
    serialization method and the operation returns, [found] is true iff the
    surface contains the parameter name, also when its value is empty, for
    the three operations of the header decoder, for [DecodePrimitive] and
    [DecodeArray] of the query decoder and for the three operations of the
    cookie decoder; for the three operations of the path decoder, [found] is
    true iff the path parameters hold a non-empty raw value for the name. *)
Theorem found_reports_presence (param : string) (sm : SerializationMethod)
    (schema : Schema) :
  (forall header : gmap string (list string),
      Style sm = "simple" ->
      (forall v found err,
          header_DecodePrimitive header param sm schema = Ret (v, found, err) ->
          found = bool_decide (is_Some (header !! CanonicalHeaderKey param)))
      /\ (forall v found err,
            header_DecodeArray header param sm schema = Ret (v, found, err) ->
            found = bool_decide (is_Some (header !! CanonicalHeaderKey param)))
      /\ (forall v found err,
            header_DecodeObject header param sm schema = Ret (v, found, err) ->
            found = bool_decide (is_Some (header !! CanonicalHeaderKey param))))
  /\ (forall values : gmap string (list string),
        (Style sm = "form" ->
         forall v found err,
           query_DecodePrimitive values param sm schema = Ret (v, found, err) ->
           found = bool_decide (is_Some (values !! param)))
        /\ (Style sm <> "deepObject" ->
            forall v found err,
              query_DecodeArray values param sm schema = Ret (v, found, err) ->
              found = bool_decide (is_Some (values !! param))))
  /\ (forall req : Request,
        Style sm = "form" ->
        (forall v found err,
            cookie_DecodePrimitive req param sm schema = Ret (v, found, err) ->
            found = notErrNoCookie (Cookie req param))
        /\ (Explode sm = false ->
            (forall v found err,
                cookie_DecodeArray req param sm schema = Ret (v, found, err) ->
                found = notErrNoCookie (Cookie req param))
            /\ (forall v found err,
                  cookie_DecodeObject req param sm schema = Ret (v, found, err) ->
                  found = notErrNoCookie (Cookie req param))))
  /\ (forall pathParams : option (gmap string string),
        List.In (Style sm) ["simple"; "label"; "matrix"] ->
        (forall v found err,
            path_DecodePrimitive pathParams param sm schema = Ret (v, found, err) ->
            found = pathValuePresent pathParams param)
        /\ (forall v found err,
              path_DecodeArray pathParams param sm schema = Ret (v, found, err) ->
              found = pathValuePresent pathParams param)
        /\ (forall v found err,
              path_DecodeObject pathParams param sm schema = Ret (v, found, err) ->
              found = pathValuePresent pathParams param)).
Proof.
  split; [|split; [|split]].
  - intros header. apply header_found.
  - intros values. apply query_found.
  - intros req. apply cookie_found.
  - intros pathParams. apply path_found.
Qed.

(** ** The object assembler *)

Lemma splitScan_not_empty (sep : string) (s : string) :
  forall (skip : nat) (tok : string), strings.splitScan sep skip tok s <> [].
Proof.
  induction s as [|a s IH]; intros skip tok.
  - discriminate.
  - cbn [strings.splitScan]. destruct skip as [|k]; [|apply IH].
    destruct (String.prefix sep (String a s)); [discriminate | apply IH].
Qed.

(** A separator of one byte that occurs in [s] cuts it in two pieces at
    least. *)
Lemma splitScan_occurs (c : ascii) (s : string) :
  forall tok : string,
    occurs c s = true ->
    exists k1 k2 rest,
      strings.splitScan (String c EmptyString) O tok s = k1 :: k2 :: rest.
Proof.
  induction s as [|a s IH]; intros tok Hocc.
  - discriminate Hocc.
  - cbn [strings.splitScan String.prefix String.length Nat.sub].
    cbn [occurs] in Hocc.
    destruct (ascii_dec c a) as [->|Hne].
    + destruct s as [|b s'].
      * exists tok, EmptyString, []. reflexivity.
      * pose proof (splitScan_not_empty (String a EmptyString) (String b s') O EmptyString)
          as Hne.
        destruct (strings.splitScan (String a EmptyString) O EmptyString (String b s'))
          as [|k2 rest] eqn:Hsplit; [congruence|].
        exists tok, k2, rest. reflexivity.
    + apply IH. rewrite (proj2 (Ascii.eqb_neq c a) Hne) in Hocc. exact Hocc.
Qed.

Lemma prefix_occurs (c : ascii) (name : string) :
  forall s : string,
    String.prefix (name +:+ String c EmptyString) s = true -> occurs c s = true.
Proof.
  induction name as [|a name IH]; intros s Hp.
  - change (EmptyString +:+ String c EmptyString) with (String c EmptyString) in Hp.
    destruct s as [|b s]; cbn [String.prefix] in Hp; [discriminate Hp|].
    destruct (ascii_dec c b) as [->|Hne]; [|discriminate Hp].
    cbn [occurs]. rewrite Ascii.eqb_refl. reflexivity.
  - change (String a name +:+ String c EmptyString)
      with (String a (name +:+ String c EmptyString)) in Hp.
    destruct s as [|b s]; cbn [String.prefix] in Hp; [discriminate Hp|].
    destruct (ascii_dec a b) as [->|Hne]; [|discriminate Hp].
    cbn [occurs]. rewrite (IH s Hp). apply orb_true_r.
Qed.

(** The path of a key that starts with the name of an object property and the
    delimiter has two segments at least. *)
Lemma split_nested_key (prop propName : string) :
  strings.HasPrefix prop (propName +:+ urlDecoderDelimiter) = true ->
  exists k1 k2 rest, Split prop urlDecoderDelimiter = k1 :: k2 :: rest.
Proof.
  unfold strings.HasPrefix, urlDecoderDelimiter, Split. intros Hp.
  apply splitScan_occurs. eapply prefix_occurs. exact Hp.
Qed.

Lemma deepSet_step (m : gmap string value) (k1 k2 : string) (rest : list string)
    (x : value) :
  deepSet m (k1 :: k2 :: rest) x =
    match m !! k1 with
    | None => sub ← deepSet ∅ (k2 :: rest) x; Ret (<[k1 := VMap (Some sub)]> m)
    | Some (VMap (Some inner)) =>
        sub ← deepSet inner (k2 :: rest) x; Ret (<[k1 := VMap (Some sub)]> m)
    | Some (VMap None) => Panic "assignment to entry in nil map"
    | Some _ => Panic "interface conversion: not a map[string]interface {}"
    end.
Proof. reflexivity. Qed.

(** [deepSet] along a path of two segments at least leaves the entries of the
    object that are not maps where they are. *)
Lemma deepSet_keeps_scalars (m m' : gmap string value) (k1 k2 : string)
    (rest : list string) (x : value) (p : string) (v : value) :
  deepSet m (k1 :: k2 :: rest) x = Ret m' ->
  m !! p = Some v -> isMap v = false -> m' !! p = Some v.
Proof.
  intros Hset Hp Hv. rewrite deepSet_step in Hset.
  destruct (m !! k1) as [w|] eqn:Hk1.
  - destruct w as [| | | | | | | |l|[inner|]]; try discriminate Hset.
    destruct (deepSet inner (k2 :: rest) x) as [sub|]; [|discriminate Hset].
    cbn [mbind go_bind] in Hset. injection Hset as <-.
    destruct (decide (k1 = p)) as [->|Hne].
    + rewrite Hk1 in Hp. injection Hp as <-. discriminate Hv.
    + rewrite lookup_insert_ne by exact Hne. exact Hp.
  - destruct (deepSet ∅ (k2 :: rest) x) as [sub|]; [|discriminate Hset].
    cbn [mbind go_bind] in Hset. injection Hset as <-.
    rewrite lookup_insert_ne by congruence. exact Hp.
Qed.

Lemma nestedProps_keeps_scalars (props : gmap string string) (schema : Schema)
    (propName : string) (entries : list (string * string)) (p : string) (v : value) :
  isMap v = false ->
  forall obj obj' : gmap string value,
    nestedProps props schema propName entries obj = Ret (inl obj') ->
    obj !! p = Some v -> obj' !! p = Some v.
Proof.
  intros Hv. induction entries as [|[prop val] entries IH]; intros obj obj' H Hp.
  - injection H as <-. exact Hp.
  - cbn [nestedProps] in H.
    destruct (strings.HasPrefix prop (propName +:+ urlDecoderDelimiter)) eqn:Hpre;
      cbn [negb] in H; [|eapply IH; eauto].
    destruct (split_nested_key prop propName Hpre) as (k1 & k2 & rest & Hkeys).
    rewrite Hkeys in H.
    destruct (findNestedSchema schema (k1 :: k2 :: rest)) as [nested|err];
      [|discriminate H].
    destruct (Permits (Type_ nested) "array").
    + destruct (arrayProperty _ nested) as [[ivals [err|]]|];
        cbn [mbind go_bind] in H; try discriminate H.
      destruct (deepSet obj (k1 :: k2 :: rest) ivals) as [obj1|] eqn:Hset;
        cbn [mbind go_bind] in H; [|discriminate H].
      eapply IH; [exact H|]. eapply deepSet_keeps_scalars; eauto.
    + destruct (parsePrimitive _ (Some nested)) as [[x [err|]]|];
        cbn [mbind go_bind] in H; try discriminate H.
      destruct (deepSet obj (k1 :: k2 :: rest) x) as [obj1|] eqn:Hset;
        cbn [mbind go_bind] in H; [|discriminate H].
      eapply IH; [exact H|]. eapply deepSet_keeps_scalars; eauto.
Qed.

Lemma parsePrimitiveCase_scalar (raw : string) (schema : Schema) (typ : string) :
  isMap (parsePrimitiveCase raw schema typ).1 = false.
Proof.
  unfold parsePrimitiveCase, invalidFormat.
  repeat match goal with
         | |- context [if ?b then _ else _] => destruct b
         | |- context [match ?x with inl _ => _ | inr _ => _ end] => destruct x
         end; reflexivity.
Qed.

Lemma parsePrimitiveTypes_scalar (raw : string) (schema : Schema) (types : list string) :
  forall (v : value) (err : option error),
    isMap v = false ->
    isMap (parsePrimitiveTypes raw schema types v err).1 = false.
Proof.
  induction types as [|typ types IH]; intros v err Hv.
  - exact Hv.
  - cbn [parsePrimitiveTypes].
    pose proof (parsePrimitiveCase_scalar raw schema typ) as Hcase.
    destruct (parsePrimitiveCase raw schema typ) as [v' [e|]].
    + apply IH. exact Hcase.
    + exact Hcase.
Qed.

(** The primitive parser gives no map. *)
Lemma parsePrimitive_scalar (raw : string) (schema : option Schema) (v : value)
    (err : option error) :
  parsePrimitive raw schema = Ret (v, err) -> isMap v = false.
Proof.
  unfold parsePrimitive. destruct (String.eqb raw "").
  - intros H. injection H as <- _. reflexivity.
  - destruct schema as [sc|]; [|discriminate].
    intros H. injection H as H.
    pose proof (parsePrimitiveTypes_scalar raw sc (Slice (Type_ sc)) VNil None eq_refl) as Hs.
    rewrite H in Hs. exact Hs.
Qed.

(** The invariant of the loop of [makeObject]: an entry that is not a map and
    whose name is not declared further on stays, and every declared property
    that is neither an array nor an object gets what the primitive parser
    makes of its raw value. *)
Lemma makeObjectProps_primitives (props : gmap string string) (schema : Schema)
    (todo : list (string * Schema)) :
  NoDup (map fst todo) ->
  forall obj obj' : gmap string value,
    makeObjectProps props schema todo obj = Ret (Some obj', None) ->
    (forall p v, ~ List.In p (map fst todo) -> obj !! p = Some v -> isMap v = false ->
                 obj' !! p = Some v)
    /\ (forall p ps, List.In (p, ps) todo ->
                     Is (Type_ ps) "array" = false -> Is (Type_ ps) "object" = false ->
                     exists v, parsePrimitive (getProp props p) (Some ps) = Ret (v, None)
                               /\ obj' !! p = Some v).
Proof.
  induction todo as [|[q qs] todo IH]; intros Hnd obj obj' H.
  - injection H as <-. split; [auto | intros p ps []].
  - apply NoDup_cons in Hnd. destruct Hnd as [Hq Hnd].
    assert (Hq' : ~ List.In q (map fst todo))
      by (intros Hin; apply Hq; apply list_elem_of_In; exact Hin).
    specialize (IH Hnd).
    cbn [makeObjectProps] in H.
    assert (Hstep : exists obj1,
               makeObjectProps props schema todo obj1 = Ret (Some obj', None)
               /\ (forall p v, p <> q -> obj !! p = Some v -> isMap v = false ->
                               obj1 !! p = Some v)
               /\ (Is (Type_ qs) "array" = false -> Is (Type_ qs) "object" = false ->
                   exists v, parsePrimitive (getProp props q) (Some qs) = Ret (v, None)
                             /\ obj1 !! q = Some v)).
    { destruct (Is (Type_ qs) "array") eqn:Harr;
        [|destruct (Is (Type_ qs) "object") eqn:Hobj].
      - destruct (arrayProperty _ qs) as [[ivals [err|]]|]; cbn [mbind go_bind] in H;
          try discriminate H.
        exists (<[q := ivals]> obj). split; [exact H|]. split; [|discriminate].
        intros p v Hne Hp _. rewrite lookup_insert_ne by congruence. exact Hp.
      - destruct (nestedProps _ _ _ _ _) as [[obj1|err]|] eqn:Hn;
          cbn [mbind go_bind] in H; try discriminate H.
        exists obj1. split; [exact H|]. split; [|discriminate].
        intros p v _ Hp Hv. eapply nestedProps_keeps_scalars; eauto.
      - destruct (parsePrimitive _ (Some qs)) as [[val [err|]]|] eqn:Hval;
          cbn [mbind go_bind] in H; try discriminate H.
        exists (<[q := val]> obj). split; [exact H|]. split.
        + intros p v Hne Hp _. rewrite lookup_insert_ne by congruence. exact Hp.
        + intros _ _. exists val. split; [reflexivity|]. apply lookup_insert_eq. }
    destruct Hstep as (obj1 & Hrest & Hkeep & Hhead).
    destruct (IH obj1 obj' Hrest) as [IHkeep IHprim].
    split.
    + intros p v Hnot Hp Hv.
      apply IHkeep; [| |exact Hv].
      * intros Hin. apply Hnot. right. exact Hin.
      * apply Hkeep; [|exact Hp|exact Hv].
        intros ->. apply Hnot. left. reflexivity.
    + intros p ps [Heq|Hin] Harr Hobj.
      * injection Heq as <- <-.
        destruct (Hhead Harr Hobj) as (v & Hparse & Hv).
        exists v. split; [exact Hparse|].
        apply IHkeep; [exact Hq'|exact Hv|].
        eapply parsePrimitive_scalar; exact Hparse.
      * apply IHprim; assumption.
Qed.

(** C9: when the object assembler returns an object for a property map and a
    schema (whose property names are the keys of a map, hence distinct), the
    object has an entry for every declared property whose type is neither
    array nor object, and this entry is nil when the property map has no such
    key. *)
Theorem makeObject_primitive_properties (props : gmap string string)
    (schema : Schema) (obj : gmap string value) :
  NoDup (map fst (Properties schema)) ->
  makeObject props schema = Ret (Some obj, None) ->
  forall (propName : string) (propSchema : Schema),
    List.In (propName, propSchema) (Properties schema) ->
    Is (Type_ propSchema) "array" = false ->
    Is (Type_ propSchema) "object" = false ->
    is_Some (obj !! propName)
    /\ (props !! propName = None -> obj !! propName = Some VNil).
Proof.
  intros Hnd Hobj propName propSchema Hin Harr Hob.
  destruct (makeObjectProps_primitives props schema (Properties schema) Hnd ∅ obj Hobj)
    as [_ Hprim].
  destruct (Hprim propName propSchema Hin Harr Hob) as (v & Hparse & Hv).
  split.
  - exists v. exact Hv.
  - intros Habsent. unfold getProp in Hparse. rewrite Habsent in Hparse.
    cbn [default from_option id] in Hparse.
    rewrite parsePrimitive_empty_nil in Hparse.
    injection Hparse as <-. exact Hv.
Qed.

End Properties.

(** * Closed examples

    Each lemma below evaluates the decoder, with [refExternals], on a
    concrete input. *)

Import Examples Closed.

(** C10, witness: a path parameter of style pipeDelimited, which the path
    decoder rejects, decoded against a request without path parameters. *)
Lemma decodeStyledParameter_empty_surface_witness :
  decodeStyledParameter pipePathParam pathInput = Ret (VNil, false, None).
Proof.
  apply (proj1 (decodeStyledParameter_empty_surface pipePathParam pathInput
                  (mkSM "pipeDelimited" true) eq_refl)).
  - reflexivity.
  - reflexivity.
Defined.

(** C7, witness: a content type with a parameter whose media type has no
    decoder, and the same media type registered and unregistered. *)
Lemma decodeBody_unsupported_media_type_witness :
  decodeBody plainRegistry someBody customHeader None None =
    Ret ("", VNil,
         Some (EParse {| Kind := KindUnsupportedFormat; Value := VNil;
                         Reason := "unsupported content type " +:+
                                   Quote "application/x-custom";
                         Cause := None; path := [] |}))
  /\ exists r1 r2 : registry,
       RegisterBodyDecoder plainRegistry "application/x-custom" (Some plainDecoder) = Ret r1
       /\ UnregisterBodyDecoder r1 "application/x-custom" = Ret r2
       /\ RegisteredBodyDecoder r2 "application/x-custom" = None
       /\ decodeBody r2 someBody customHeader None None =
            Ret ("", VNil,
                 Some (EParse {| Kind := KindUnsupportedFormat; Value := VNil;
                                 Reason := "unsupported content type " +:+
                                           Quote "application/x-custom";
                                 Cause := None; path := [] |})).
Proof.
  pose proof (decodeBody_unsupported_media_type plainRegistry someBody customHeader
                None None) as [Hfirst Hsecond].
  split.
  - apply Hfirst. vm_compute. reflexivity.
  - destruct (Hsecond "application/x-custom" plainDecoder) as (r1 & r2 & H1 & H2 & H3 & H4).
    + discriminate.
    + exists r1, r2. repeat split; try assumption. apply H4. reflexivity.
Defined.

(** C4, witness: two integers, then an empty item or an item that is no
    integer. *)
Lemma parseArray_first_stop_decides_witness :
  parseArray ["1"; "2"] (arrayOf integerSchema) = Ret (Some [VInt64 1; VInt64 2], None)
  /\ parseArray ["1"; "2"; ""; "x"] (arrayOf integerSchema) = Ret (None, None)
  /\ parseArray ["1"; "2"; "x"; ""] (arrayOf integerSchema) =
       Ret (None, Some (itemError 2 (invalidInteger "x"))).
Proof.
  assert (Hpre : parsesTo (fun v => parsePrimitive v (Items (arrayOf integerSchema)))
                   ["1"; "2"] [VInt64 1; VInt64 2]).
  { repeat constructor. }
  destruct (proj1 (parseArray_first_stop_decides (arrayOf integerSchema) ["1"; "2"]
                     [VInt64 1; VInt64 2]) Hpre) as (Hall & Hnil & Herr).
  split; [exact Hall | split].
  - apply (Hnil "" ["x"]). reflexivity.
  - apply (Herr "x" [""] VNil). reflexivity.
Defined.

(** C4, counterexample: the second item parses to nil, and the array decodes
    to the error of the first item, not to nil without error. *)
Lemma parseArray_nil_item_after_failure :
  parsePrimitive "" (Items (arrayOf integerSchema)) = Ret (VNil, None)
  /\ parseArray ["x"; ""] (arrayOf integerSchema) =
       Ret (None, Some (itemError 0 (invalidInteger "x"))).
Proof. split; reflexivity. Qed.

(** C3, witness: a string member followed by an untyped member, which gives
    nil, and two string members. *)
Lemma decodeValue_allOf_last_decoded_witness :
  decodeValue (queryP "abc") "p" formExplode (allOf [stringSchema; untypedSchema]) false
    = Ret (VNil, true, None)
  /\ decodeValue (queryP "abc") "p" formExplode (allOf [stringSchema; stringSchema]) false
    = Ret (VString "abc", true, None).
Proof.
  split.
  - assert (Hpre : decodesTo (fun sr => decodeValue (queryP "abc") "p" formExplode sr false)
                     [stringSchema] [(VString "abc", true)]).
    { repeat constructor. }
    apply (proj1 (decodeValue_allOf_last_decoded (queryP "abc") "p" formExplode
                    (allOf [stringSchema; untypedSchema]) false
                    [stringSchema] [(VString "abc", true)] Hpre)
             untypedSchema [] VNil true None).
    + reflexivity.
    + reflexivity.
    + left. reflexivity.
  - assert (Hpre : decodesTo (fun sr => decodeValue (queryP "abc") "p" formExplode sr false)
                     [stringSchema; stringSchema]
                     [(VString "abc", true); (VString "abc", true)]).
    { repeat constructor. }
    apply (proj2 (decodeValue_allOf_last_decoded (queryP "abc") "p" formExplode
                    (allOf [stringSchema; stringSchema]) false
                    [stringSchema; stringSchema]
                    [(VString "abc", true); (VString "abc", true)] Hpre)).
    + discriminate.
    + reflexivity.
Defined.

(** C3, counterexample: the first member is decoded to the string "abc"
    without error, the second member gives nil, and the result is nil: the
    value of the last successful member is not returned. *)
Lemma decodeValue_allOf_drops_successful_value :
  decodeValue (queryP "abc") "p" formExplode stringSchema false
    = Ret (VString "abc", true, None)
  /\ decodeValue (queryP "abc") "p" formExplode untypedSchema false
    = Ret (VNil, true, None)
  /\ decodeValue (queryP "abc") "p" formExplode (allOf [stringSchema; untypedSchema]) false
    = Ret (VNil, true, None).
Proof. repeat split; reflexivity. Qed.

(** C6, witness: the query value "12" under [oneOf [string; integer]] matches
    both members; styled decoding returns the integer of the second member,
    [parseValue] the error of two matches. *)
Lemma oneOf_styled_tolerates_several_matches_witness :
  decodeValue (queryP "12") "p" formExplode (oneOf [stringSchema; integerSchema]) false
    = Ret (VInt64 12, true, None)
  /\ parseValue "12" (oneOf [stringSchema; integerSchema])
     = Ret (VNil, Some (ENew "decoding oneOf failed: 2 schemas matched")).
Proof.
  destruct (oneOf_styled_tolerates_several_matches (queryP "12") "p" formExplode
              (oneOf [stringSchema; integerSchema]) false "12")
    as [Hstyled Hbody].
  - reflexivity.
  - reflexivity.
  - discriminate.
  - split.
    + destruct (Hstyled [(VString "12", true, None); (VInt64 12, true, None)])
        as (val & found & Hdec & _ & -> & pre & r & post & Hrs & <- & Hpost).
      * repeat constructor.
      * constructor. reflexivity.
      * rewrite Hdec. destruct pre as [|r1 [|r2 pre]].
        -- injection Hrs as <- <-. inversion Hpost as [|? ? Hnil _]. discriminate Hnil.
        -- injection Hrs as _ <- _. reflexivity.
        -- injection Hrs as _ _ Hrs. destruct pre; discriminate Hrs.
    + destruct (Hbody [(VString "12", None); (VInt64 12, None)])
        as (err & Hparse & ->).
      * repeat constructor.
      * vm_compute. lia.
      * exact Hparse.
Defined.

(** C2, witness: a header that is present with an empty value is found; a
    path parameter that is present with an empty value is not. *)
Lemma found_reports_presence_witness :
  header_DecodePrimitive emptyHeader "x-tag" (mkSM "simple" false) stringSchema
    = Ret (VNil, true, None)
  /\ true = bool_decide (is_Some (emptyHeader !! CanonicalHeaderKey "x-tag"))
  /\ false = pathValuePresent (Some emptyPath) "id".
Proof.
  destruct (found_reports_presence "x-tag" (mkSM "simple" false) stringSchema)
    as (Hheader & _ & _ & _).
  destruct (found_reports_presence "id" (mkSM "simple" false) stringSchema)
    as (_ & _ & _ & Hpath).
  split; [reflexivity | split].
  - apply (proj1 (Hheader emptyHeader eq_refl) VNil true None). reflexivity.
  - apply (proj1 (Hpath (Some emptyPath) (or_introl eq_refl)) VNil false None).
    reflexivity.
Defined.

(** C2, counterexample: the path parameters contain the name "id", with an
    empty raw value, and [found] is false. *)
Lemma path_found_false_on_empty_value :
  is_Some (emptyPath !! "id")
  /\ path_DecodePrimitive (Some emptyPath) "id" (mkSM "simple" false) stringSchema
     = Ret (VNil, false, None).
Proof. split; [eexists; reflexivity | reflexivity]. Qed.

(** C1, counterexample: the query decoder decodes an array of style
    spaceDelimited with explode = true, and the cookie decoder a primitive of
    style form with explode = true, without error, although the surface
    contains the parameter. *)
Lemma explode_accepted_outside_the_table :
  query_DecodeArray {["a" := ["1"; "2"]]} "a" (mkSM "spaceDelimited" true)
      (arrayOf stringSchema)
    = Ret (Some [VString "1"; VString "2"], true, None)
  /\ cookie_DecodePrimitive (cookieRequest "c" "v") "c" (mkSM "form" true) stringSchema
    = Ret (VString "v", true, None).
Proof. split; reflexivity. Qed.

(** C9, witness: the property map has the key "a" only; the object holds the
    integer of "a" and nil for "b". *)
Lemma makeObject_primitive_properties_witness :
  makeObject abProps abSchema = Ret (Some abObject, None)
  /\ is_Some (abObject !! "b")
  /\ abObject !! "b" = Some VNil.
Proof.
  assert (Hobj : makeObject abProps abSchema = Ret (Some abObject, None))
    by (vm_compute; reflexivity).
  assert (Hnd : NoDup (map fst (Properties abSchema))).
  { apply (bool_decide_unpack _). vm_compute. exact I. }
  destruct (makeObject_primitive_properties abProps abSchema abObject Hnd Hobj
              "b" stringSchema) as [Hsome Hnil].
  - right. left. reflexivity.
  - reflexivity.
  - reflexivity.
  - split; [exact Hobj | split; [exact Hsome|]].
    apply Hnil. reflexivity.
Defined.

(** * Further properties of the decoder *)

Section MoreProperties.
Context {ext : Externals}.

(** ** Strings *)

Lemma append_nil_r (s : string) : s +:+ EmptyString = s.
Proof.
  induction s as [|a s IH]; [reflexivity|].
  change (String a s +:+ EmptyString) with (String a (s +:+ EmptyString)).
  rewrite IH. reflexivity.
Qed.

Lemma append_assoc (s t u : string) : (s +:+ t) +:+ u = s +:+ (t +:+ u).
Proof.
  induction s as [|a s IH]; [reflexivity|].
  change ((String a s +:+ t) +:+ u) with (String a ((s +:+ t) +:+ u)).
  rewrite IH. reflexivity.
Qed.

Lemma length_append (s t : string) :
  String.length (s +:+ t) = String.length s + String.length t.
Proof.
  induction s as [|a s IH]; [reflexivity|].
  change (String.length (String a s +:+ t)) with (S (String.length (s +:+ t))).
  rewrite IH. reflexivity.
Qed.

Lemma prefix_append (p s : string) : String.prefix p (p +:+ s) = true.
Proof.
  induction p as [|a p IH]; [destruct s; reflexivity|].
  change (String a p +:+ s) with (String a (p +:+ s)).
  cbn [String.prefix]. destruct (ascii_dec a a); [exact IH | congruence].
Qed.

Lemma prefix_split (p : string) :
  forall s : string, String.prefix p s = true -> s = p +:+ strings.drop (String.length p) s.
Proof.
  induction p as [|a p IH]; intros s H; [reflexivity|].
  destruct s as [|b s]; cbn [String.prefix] in H; [discriminate H|].
  destruct (ascii_dec a b) as [->|]; [|discriminate H].
  cbn [String.length strings.drop].
  change (String b p +:+ strings.drop (String.length p) s)
    with (String b (p +:+ strings.drop (String.length p) s)).
  rewrite <- (IH s H). reflexivity.
Qed.

Lemma drop_append (p s : string) : strings.drop (String.length p) (p +:+ s) = s.
Proof.
  induction p as [|a p IH]; [reflexivity|].
  change (String a p +:+ s) with (String a (p +:+ s)).
  cbn [String.length strings.drop]. exact IH.
Qed.

Lemma append_cancel_l (p s t : string) : p +:+ s = p +:+ t -> s = t.
Proof.
  induction p as [|a p IH]; intros H; [exact H|].
  change (String a (p +:+ s) = String a (p +:+ t)) in H.
  injection H as H. apply IH. exact H.
Qed.

(** ** Prefixes *)

(** X1: [cutPrefix] succeeds exactly on the raw values that start with the
    prefix, and then returns what follows the prefix; on every other raw
    value it returns the empty string and a ParseError of kind InvalidFormat
    that carries the raw value and names the quoted prefix. *)
Theorem cutPrefix_strips_exactly (raw prefix : string) :
  (forall src : string, cutPrefix raw prefix = (src, None) <-> raw = prefix +:+ src)
  /\ (forall (src : string) (err : error),
        cutPrefix raw prefix = (src, Some err) ->
        src = ""
        /\ String.prefix prefix raw = false
        /\ err = EParse {| Kind := KindInvalidFormat; Value := VString raw;
                           Reason := "a value must be prefixed with " +:+ Quote prefix;
                           Cause := None; path := [] |}).
Proof.
  unfold cutPrefix, strings.HasPrefix.
  destruct (String.eqb prefix "") eqn:Hempty.
  - apply String.eqb_eq in Hempty. subst prefix. split.
    + intros src. change (EmptyString +:+ src) with src.
      split; [intros H; injection H as <-; reflexivity | intros ->; reflexivity].
    + intros src err H. discriminate H.
  - destruct (String.prefix prefix raw) eqn:Hp; cbn [negb].
    + split.
      * intros src. split.
        -- intros H. injection H as <-. apply prefix_split. exact Hp.
        -- intros ->. rewrite drop_append. reflexivity.
      * intros src err H. discriminate H.
    + split.
      * intros src. split; [intros H; discriminate H|].
        intros ->. rewrite prefix_append in Hp. discriminate Hp.
      * intros src err H. injection H as <- <-. repeat split.
Qed.

(** ** Splitting and joining *)

Lemma splitScan_free (c : ascii) (x : string) :
  occurs c x = false ->
  forall tok s : string,
    strings.splitScan (String c EmptyString) O tok (x +:+ s) =
    strings.splitScan (String c EmptyString) O (tok +:+ x) s.
Proof.
  induction x as [|a x IH]; intros Hfree tok s.
  - rewrite append_nil_r. reflexivity.
  - cbn [occurs] in Hfree. apply orb_false_iff in Hfree. destruct Hfree as [Hca Hx].
    apply Ascii.eqb_neq in Hca.
    change (String a x +:+ s) with (String a (x +:+ s)).
    cbn [strings.splitScan String.prefix].
    destruct (ascii_dec c a) as [->|_]; [congruence|].
    rewrite (IH Hx). rewrite append_assoc. reflexivity.
Qed.

Lemma splitScan_separator (c : ascii) (tok s : string) :
  strings.splitScan (String c EmptyString) O tok (String c s) =
  tok :: strings.splitScan (String c EmptyString) O EmptyString s.
Proof.
  cbn [strings.splitScan String.prefix String.length Nat.sub].
  destruct (ascii_dec c c); [|congruence].
  destruct s; reflexivity.
Qed.

Lemma splitScan_Join (c : ascii) (items : list string) :
  forall x : string,
    Forall (fun x => occurs c x = false) (x :: items) ->
    strings.splitScan (String c EmptyString) O EmptyString
      (strings.Join (x :: items) (String c EmptyString)) = x :: items.
Proof.
  induction items as [|y items IH]; intros x Hall.
  - apply Forall_cons in Hall. destruct Hall as [Hx _].
    cbn [strings.Join]. rewrite <- (append_nil_r x) at 1.
    rewrite (splitScan_free c x Hx). reflexivity.
  - apply Forall_cons in Hall. destruct Hall as [Hx Hall].
    change (strings.Join (x :: y :: items) (String c EmptyString))
      with (x +:+ String c EmptyString +:+
            strings.Join (y :: items) (String c EmptyString)).
    rewrite (splitScan_free c x Hx).
    change (String c EmptyString +:+ strings.Join (y :: items) (String c EmptyString))
      with (String c (strings.Join (y :: items) (String c EmptyString))).
    rewrite splitScan_separator. rewrite (IH y Hall). reflexivity.
Qed.

(** Splitting what [Join] made of separable items gives the items back. *)
Lemma Split_Join (c : ascii) (items : list string) :
  separable c items ->
  Split (strings.Join items (String c EmptyString)) (String c EmptyString) = items.
Proof.
  unfold Split. intros [Hne Hall].
  destruct items as [|x items]; [congruence|].
  apply splitScan_Join. eapply Forall_impl; [exact Hall|].
  intros y [_ Hy]. exact Hy.
Qed.

Lemma Join_not_empty (c : ascii) (items : list string) :
  separable c items -> strings.Join items (String c EmptyString) <> "".
Proof.
  intros [Hne Hall]. destruct Hall as [|x items [Hx _] _]; [congruence|].
  destruct x as [|a x]; [congruence|].
  destruct items; discriminate.
Qed.

Lemma parsePrimitive_string (raw : string) (schema : Schema) (more : list string) :
  raw <> "" -> Slice (Type_ schema) = "string" :: more ->
  parsePrimitive raw (Some schema) = Ret (VString raw, None).
Proof.
  intros Hraw Hty. unfold parsePrimitive.
  rewrite (proj2 (String.eqb_neq raw "") Hraw). rewrite Hty. reflexivity.
Qed.

Lemma parseArray_strings (c : ascii) (items : list string) (schema : Schema) :
  separable c items -> stringItems schema ->
  parseArray items schema = Ret (Some (map VString items), None).
Proof.
  intros [Hne Hall] (it & more & Hitems & Hty). unfold parseArray.
  rewrite (parseItems_all _ items (map VString items)).
  - destruct items; [congruence | reflexivity].
  - rewrite Hitems. clear Hne.
    induction Hall as [|x items [Hx _] _ IH]; constructor; [|exact IH].
    split; [|reflexivity]. eapply parsePrimitive_string; eauto.
Qed.

Lemma cutPrefix_append (prefix s : string) : cutPrefix (prefix +:+ s) prefix = (s, None).
Proof.
  unfold cutPrefix, strings.HasPrefix.
  destruct (String.eqb prefix "") eqn:Hempty.
  - apply String.eqb_eq in Hempty. subst prefix. reflexivity.
  - rewrite prefix_append. cbn [negb]. rewrite drop_append. reflexivity.
Qed.

Lemma append_not_empty (p s : string) : s <> "" -> String.eqb (p +:+ s) "" = false.
Proof.
  intros Hs. apply String.eqb_neq. destruct p; [exact Hs | discriminate].
Qed.

(** The part of the three array operations that follows the style check, for
    a raw value made of a prefix and of joined items. *)
Lemma path_array_tail (c : ascii) (items : list string) (schema : Schema)
    (prefix : string) (ok : bool) :
  separable c items -> stringItems schema ->
  (match cutPrefix (prefix +:+ strings.Join items (String c EmptyString)) prefix with
   | (_, Some err) => Ret (None, ok, Some err)
   | (src, None) =>
       r ← parseArray (Split src (String c EmptyString)) schema;
       Ret (r.1, ok, r.2)
   end) = Ret (Some (map VString items), ok, None).
Proof.
  intros Hsep Hschema. rewrite cutPrefix_append.
  rewrite (Split_Join c items Hsep).
  rewrite (parseArray_strings c items schema Hsep Hschema). reflexivity.
Qed.

(** X2: a list of non-empty strings, none of which holds the delimiter,
    serialized as a path parameter of style simple (joined by commas), label
    (a dot, then joined by commas, or by dots with explode) or matrix without
    explode (";name=", then joined by commas), or as a header of style simple
    or a cookie of style form without explode (joined by commas), decodes
    against an array schema with string items to the list itself, in order,
    with [found = true] and no error. *)
Theorem decodeArray_of_joined_strings (param : string) (items : list string)
    (schema : Schema) :
  stringItems schema ->
  (forall (pathParams : gmap string string) (sm : SerializationMethod)
          (prefix : string) (c : ascii),
      separable c items ->
      (Style sm = "simple" /\ prefix = "" /\ c = ","%char)
      \/ (Style sm = "label" /\ Explode sm = false /\ prefix = "." /\ c = ","%char)
      \/ (Style sm = "label" /\ Explode sm = true /\ prefix = "." /\ c = "."%char)
      \/ (Style sm = "matrix" /\ Explode sm = false
          /\ prefix = ";" +:+ param +:+ "=" /\ c = ","%char) ->
      pathParams !! param = Some (prefix +:+ strings.Join items (String c EmptyString)) ->
      path_DecodeArray (Some pathParams) param sm schema =
        Ret (Some (map VString items), true, None))
  /\ (forall (header : gmap string (list string)) (sm : SerializationMethod)
             (others : list string),
        separable ","%char items ->
        Style sm = "simple" ->
        header !! CanonicalHeaderKey param = Some (strings.Join items "," :: others) ->
        header_DecodeArray header param sm schema =
          Ret (Some (map VString items), true, None))
  /\ (forall (req : Request) (sm : SerializationMethod),
        separable ","%char items ->
        Style sm = "form" -> Explode sm = false ->
        Cookie req param = inl (strings.Join items ",") ->
        cookie_DecodeArray req param sm schema =
          Ret (Some (map VString items), true, None)).
Proof.
  intros Hschema. split; [|split].
  - intros pathParams sm prefix c Hsep Hlayout Hraw.
    unfold path_DecodeArray, commaOk. rewrite Hraw.
    pose proof (append_not_empty prefix _ (Join_not_empty c items Hsep)) as Hne.
    destruct Hlayout as [(Hs & -> & ->)|[(Hs & He & -> & ->)|[(Hs & He & -> & ->)
                        |(Hs & He & -> & ->)]]];
      rewrite Hs; try rewrite He;
      cbn [String.eqb Ascii.eqb Bool.eqb andb negb orb];
      rewrite Hne; cbn [negb orb];
      apply (path_array_tail _ items schema _ true Hsep Hschema).
  - intros header sm others Hsep Hs Hraw.
    unfold header_DecodeArray, commaOkValues. rewrite Hs, Hraw.
    cbn [String.eqb Ascii.eqb Bool.eqb negb].
    rewrite (Split_Join ","%char items Hsep).
    rewrite (parseArray_strings _ items schema Hsep Hschema). reflexivity.
  - intros req sm Hsep Hs He Hcookie.
    unfold cookie_DecodeArray. rewrite Hs, He, Hcookie.
    cbn [String.eqb Ascii.eqb Bool.eqb negb orb notErrNoCookie].
    rewrite (Split_Join ","%char items Hsep).
    rewrite (parseArray_strings _ items schema Hsep Hschema). reflexivity.
Qed.

Lemma parseValue_plain (v : string) (schema : Schema) :
  plainSchema schema -> parseValue v schema = parsePrimitive v (Some schema).
Proof.
  destruct schema as [ty fmt pat allOf anyOf oneOf not items props addl].
  unfold plainSchema. cbn [AllOf AnyOf OneOf Not].
  intros (-> & -> & -> & ->). reflexivity.
Qed.

Lemma query_parseArray_strings (items : list string) (schema it : Schema)
    (more : list string) :
  items <> [] -> Forall (fun x => x <> "") items ->
  Items schema = Some it -> Slice (Type_ it) = "string" :: more -> plainSchema it ->
  query_parseArray items schema = Ret (Some (map VString items), None).
Proof.
  intros Hne Hall Hitems Hty Hplain. unfold query_parseArray.
  rewrite (parseItems_all _ items (map VString items)).
  - destruct items; [congruence | reflexivity].
  - rewrite Hitems. clear Hne.
    induction Hall as [|x items Hx _ IH]; constructor; [|exact IH].
    split; [|reflexivity]. cbn [parseValueRef]. rewrite parseValue_plain by exact Hplain.
    eapply parsePrimitive_string; eauto.
Qed.

Lemma separable_not_empty (c : ascii) (items : list string) :
  separable c items -> items <> [] /\ Forall (fun x => x <> "") items.
Proof.
  intros [Hne Hall]. split; [exact Hne|].
  eapply Forall_impl; [exact Hall|]. intros x [Hx _]. exact Hx.
Qed.

(** X3: a query parameter whose values are non-empty strings decodes, against
    an array schema whose items are a plain schema with [string] as first
    type, to the list of its values when explode is true (one value per
    occurrence of the key, for every style but deepObject), and to the items
    joined in its first value when explode is false: by commas for the style
    form, by spaces for spaceDelimited, by vertical bars for pipeDelimited
    (no item holding the delimiter); [found] is true and there is no error. *)
Theorem query_DecodeArray_of_strings (param : string) (items : list string)
    (schema it : Schema) (more : list string) (values : gmap string (list string))
    (sm : SerializationMethod) :
  Items schema = Some it -> Slice (Type_ it) = "string" :: more -> plainSchema it ->
  (Explode sm = true -> Style sm <> "deepObject" ->
   items <> [] -> Forall (fun x => x <> "") items ->
   values !! param = Some items ->
   query_DecodeArray values param sm schema = Ret (Some (map VString items), true, None))
  /\ (forall (c : ascii) (others : list string),
        Explode sm = false ->
        (Style sm = "form" /\ c = ","%char)
        \/ (Style sm = "spaceDelimited" /\ c = " "%char)
        \/ (Style sm = "pipeDelimited" /\ c = "|"%char) ->
        separable c items ->
        values !! param = Some (strings.Join items (String c EmptyString) :: others) ->
        query_DecodeArray values param sm schema =
          Ret (Some (map VString items), true, None)).
Proof.
  intros Hitems Hty Hplain. split.
  - intros He Hs Hne Hall Hvalues.
    unfold query_DecodeArray, commaOkValues.
    rewrite (proj2 (String.eqb_neq _ _) Hs), Hvalues, He.
    destruct items as [|x items]; [congruence|]. cbn [negb].
    rewrite (query_parseArray_strings (x :: items) schema it more); auto.
  - intros c others He Hlayout Hsep Hvalues.
    destruct (separable_not_empty c items Hsep) as [Hne Hall].
    unfold query_DecodeArray, commaOkValues. rewrite Hvalues, He.
    destruct Hlayout as [[Hs ->]|[[Hs ->]|[Hs ->]]]; rewrite Hs;
      cbn [String.eqb Ascii.eqb Bool.eqb negb];
      rewrite (Split_Join _ items Hsep);
      rewrite (query_parseArray_strings items schema it more); auto.
Qed.

(** ** The property splitter *)

Lemma mod2_even (n : nat) : Nat.eqb (n mod 2) 0 = Nat.even n.
Proof.
  destruct (Nat.even n) eqn:He.
  - apply Nat.even_spec in He. destruct He as [k ->].
    rewrite Nat.mul_comm, Nat.Div0.mod_mul. reflexivity.
  - apply Nat.eqb_neq. intros Hm. apply Nat.Div0.mod_divides in Hm.
    destruct Hm as [k Hk].
    assert (Nat.even n = true) by (apply Nat.even_spec; exists k; exact Hk).
    congruence.
Qed.

Lemma splitPairs_outcome (src propDelim valueDelim : string) (pairs : list string) :
  forall props : gmap string string,
    exists m : gmap string string,
      splitPairs src propDelim valueDelim pairs props =
        if forallb (fun p => Nat.eqb (length (Split p valueDelim)) 2) pairs
        then (Some m, None)
        else (None, Some (propsFormatErr src propDelim valueDelim)).
Proof.
  induction pairs as [|p pairs IH]; intros props.
  - exists props. reflexivity.
  - cbn [splitPairs forallb].
    destruct (Split p valueDelim) as [|k [|v [|w rest]]]; cbn [length Nat.eqb andb];
      try (exists props; reflexivity).
    apply IH.
Qed.

(** X4: [propsFromString] returns a map and no error when the source string
    is well formed, and otherwise no map and a ParseError of kind
    InvalidFormat that carries the source string: with equal delimiters the
    string is well formed iff it splits into an even number of pieces, with
    different delimiters iff the value delimiter cuts every piece in exactly
    two. *)
Theorem propsFromString_error_iff_malformed (src propDelim valueDelim : string) :
  exists m : gmap string string,
    propsFromString src propDelim valueDelim =
      if wellFormedProps src propDelim valueDelim
      then (Some m, None)
      else (None,
            Some (EParse {| Kind := KindInvalidFormat; Value := VString src;
                            Reason := "a value must be a list of object's properties in format "
                                      +:+ dquote +:+ "name" +:+ valueDelim +:+ "value"
                                      +:+ dquote +:+ " separated by " +:+ propDelim;
                            Cause := None; path := [] |})).
Proof.
  unfold propsFromString, wellFormedProps.
  destruct (String.eqb propDelim valueDelim).
  - exists (pairUp (Split src propDelim) ∅).
    rewrite mod2_even. destruct (Nat.even _); reflexivity.
  - apply splitPairs_outcome.
Qed.

Lemma occurs_append (c : ascii) (s t : string) :
  occurs c (s +:+ t) = occurs c s || occurs c t.
Proof.
  induction s as [|a s IH]; [reflexivity|].
  change (String a s +:+ t) with (String a (s +:+ t)).
  cbn [occurs]. rewrite IH. apply orb_assoc.
Qed.

Lemma Split_pair (c : ascii) (k v : string) :
  occurs c k = false -> occurs c v = false ->
  Split (k +:+ String c EmptyString +:+ v) (String c EmptyString) = [k; v].
Proof.
  intros Hk Hv. unfold Split.
  apply (splitScan_Join c [v] k). repeat constructor; assumption.
Qed.

Lemma splitPairs_joined (src : string) (cp cv : ascii) (kvs : list (string * string)) :
  pairsFree cv kvs ->
  forall props : gmap string string,
    splitPairs src (String cp EmptyString) (String cv EmptyString)
      (map (fun kv => kv.1 +:+ String cv EmptyString +:+ kv.2) kvs) props =
    (Some (fold_left (fun m kv => <[kv.1 := kv.2]> m) kvs props), None).
Proof.
  induction 1 as [|[k v] kvs [Hk Hv] _ IH]; intros props; [reflexivity|].
  cbn [map splitPairs fold_left fst snd] in *.
  rewrite (Split_pair cv k v Hk Hv). apply IH.
Qed.

Lemma pairUp_flat (kvs : list (string * string)) :
  forall props : gmap string string,
    pairUp (flatPairs kvs) props = fold_left (fun m kv => <[kv.1 := kv.2]> m) kvs props.
Proof.
  induction kvs as [|[k v] kvs IH]; intros props; [reflexivity|].
  apply IH.
Qed.

Lemma length_flatPairs (kvs : list (string * string)) :
  length (flatPairs kvs) = 2 * length kvs.
Proof.
  induction kvs as [|[k v] kvs IH]; [reflexivity|].
  change (flatPairs ((k, v) :: kvs)) with (k :: v :: flatPairs kvs).
  cbn [length]. rewrite IH. lia.
Qed.

Lemma propsFromString_pairs (cp cv : ascii) (kvs : list (string * string)) :
  kvs <> [] -> pairsFree cp kvs -> pairsFree cv kvs -> cp <> cv ->
  propsFromString
    (strings.Join (map (fun kv => kv.1 +:+ String cv EmptyString +:+ kv.2) kvs)
                  (String cp EmptyString))
    (String cp EmptyString) (String cv EmptyString) = (Some (mapOfPairs kvs), None).
Proof.
  intros Hne Hcp Hcv Hdiff. unfold propsFromString.
  assert (Heq : String.eqb (String cp EmptyString) (String cv EmptyString) = false).
  { apply String.eqb_neq. congruence. }
  rewrite Heq.
  assert (Hsplit : Split (strings.Join (map (fun kv => kv.1 +:+ String cv EmptyString +:+ kv.2) kvs)
                                       (String cp EmptyString)) (String cp EmptyString)
                   = map (fun kv => kv.1 +:+ String cv EmptyString +:+ kv.2) kvs).
  { assert (Hfree : Forall (fun x => occurs cp x = false)
                      (map (fun kv => kv.1 +:+ String cv EmptyString +:+ kv.2) kvs)).
    { apply Forall_map. eapply Forall_impl; [exact Hcp|].
      intros [k v] [Hk Hv]. cbn [fst snd] in *.
      rewrite !occurs_append, Hk, Hv. cbn [occurs orb].
      rewrite !orb_false_r. apply Ascii.eqb_neq. exact Hdiff. }
    unfold Split. destruct kvs as [|kv kvs]; [congruence|].
    apply splitScan_Join. exact Hfree. }
  cbv zeta. rewrite Hsplit. apply splitPairs_joined. exact Hcv.
Qed.

Lemma propsFromString_flat (cp : ascii) (kvs : list (string * string)) :
  kvs <> [] -> pairsFree cp kvs ->
  propsFromString (strings.Join (flatPairs kvs) (String cp EmptyString))
    (String cp EmptyString) (String cp EmptyString) = (Some (mapOfPairs kvs), None).
Proof.
  intros Hne Hcp. unfold propsFromString. rewrite String.eqb_refl.
  assert (Hsplit : Split (strings.Join (flatPairs kvs) (String cp EmptyString))
                         (String cp EmptyString) = flatPairs kvs).
  { unfold Split. destruct kvs as [|[k v] kvs]; [congruence|].
    change (flatPairs ((k, v) :: kvs)) with (k :: v :: flatPairs kvs).
    apply splitScan_Join.
    change (k :: v :: flatPairs kvs) with (flatPairs ((k, v) :: kvs)).
    clear Hne. induction Hcp as [|[k' v'] kvs' [Hk Hv] _ IH]; [constructor|].
    change (flatPairs ((k', v') :: kvs')) with (k' :: v' :: flatPairs kvs').
    repeat constructor; assumption. }
  cbv zeta. rewrite Hsplit, length_flatPairs, Nat.mul_comm, Nat.Div0.mod_mul.
  cbn [Nat.eqb negb]. rewrite pairUp_flat. reflexivity.
Qed.

(** X5: [propsFromString] reads back the pairs that were written with its
    delimiters.  For names and values that hold neither delimiter byte, the
    string [n1=v1,n2=v2,...] (different delimiters) and the string
    [n1,v1,n2,v2,...] (one delimiter for both) are decoded without error to
    the map of the pairs, a later pair replacing an earlier one of the same
    name; names and values may be empty. *)
Theorem propsFromString_of_joined_pairs (cp cv : ascii) (kvs : list (string * string)) :
  kvs <> [] -> pairsFree cp kvs -> pairsFree cv kvs ->
  (cp <> cv ->
   propsFromString
     (strings.Join (map (fun kv => kv.1 +:+ String cv EmptyString +:+ kv.2) kvs)
                   (String cp EmptyString))
     (String cp EmptyString) (String cv EmptyString) = (Some (mapOfPairs kvs), None))
  /\ propsFromString (strings.Join (flatPairs kvs) (String cp EmptyString))
       (String cp EmptyString) (String cp EmptyString) = (Some (mapOfPairs kvs), None).
Proof.
  intros Hne Hcp Hcv. split.
  - intros Hdiff. apply propsFromString_pairs; assumption.
  - apply propsFromString_flat; assumption.
Qed.

(** ** Nested maps *)

Lemma deepGet_absent (keys : list string) (k : string) (m : gmap string value) :
  m !! k = None -> deepGet (Some m) (k :: keys) = (VNil, false).
Proof.
  intros Hk. cbn [deepGet default from_option id]. rewrite Hk. reflexivity.
Qed.

Lemma deepGet_head (m m' : gmap string value) (k : string) (keys : list string) :
  m' !! k = m !! k -> deepGet (Some m') (k :: keys) = deepGet (Some m) (k :: keys).
Proof.
  intros Hk. cbn [deepGet default from_option id]. rewrite Hk. reflexivity.
Qed.

Lemma deepSet_head (keys : list string) :
  forall (m m' : gmap string value) (v : value) (k : string),
    deepSet m keys v = Ret m' -> head keys <> Some k -> m' !! k = m !! k.
Proof.
  destruct keys as [|key rest]; intros m m' v k Hset Hk; [discriminate|].
  assert (Hne : key <> k) by (intros ->; apply Hk; reflexivity).
  destruct rest as [|key2 rest].
  - injection Hset as <-. apply lookup_insert_ne. exact Hne.
  - rewrite deepSet_step in Hset.
    destruct (m !! key) as [[| | | | | | | | |[inner|]]|]; try discriminate.
    + destruct (deepSet inner (key2 :: rest) v); [|discriminate].
      injection Hset as <-. apply lookup_insert_ne. exact Hne.
    + destruct (deepSet ∅ (key2 :: rest) v); [|discriminate].
      injection Hset as <-. apply lookup_insert_ne. exact Hne.
Qed.

Lemma deepSet_read (keys : list string) :
  forall (m m' : gmap string value) (v : value),
    deepSet m keys v = Ret m' -> deepGet (Some m') keys = (v, true).
Proof.
  induction keys as [|key rest IH]; intros m m' v Hset; [discriminate|].
  destruct rest as [|key2 rest].
  - injection Hset as <-. cbn [deepGet default from_option id].
    rewrite lookup_insert_eq. destruct v; reflexivity.
  - rewrite deepSet_step in Hset.
    destruct (m !! key) as [[| | | | | | | | |[inner|]]|]; try discriminate.
    + destruct (deepSet inner (key2 :: rest) v) as [sub|] eqn:Hsub; [|discriminate].
      injection Hset as <-.
      change (deepGet (Some (<[key := VMap (Some sub)]> m)) (key :: key2 :: rest))
        with (match default ∅ (Some (<[key := VMap (Some sub)]> m)) !! key with
              | None => (VNil, false)
              | Some (VMap m') => deepGet m' (key2 :: rest)
              | Some val => (val, true)
              end).
      cbn [default from_option id]. rewrite lookup_insert_eq. apply (IH inner sub v Hsub).
    + destruct (deepSet ∅ (key2 :: rest) v) as [sub|] eqn:Hsub; [|discriminate].
      injection Hset as <-.
      change (deepGet (Some (<[key := VMap (Some sub)]> m)) (key :: key2 :: rest))
        with (match default ∅ (Some (<[key := VMap (Some sub)]> m)) !! key with
              | None => (VNil, false)
              | Some (VMap m') => deepGet m' (key2 :: rest)
              | Some val => (val, true)
              end).
      cbn [default from_option id]. rewrite lookup_insert_eq. apply (IH ∅ sub v Hsub).
Qed.

Lemma deepGet_step (m : gmap string value) (key : string) (rest : list string) :
  deepGet (Some m) (key :: rest) =
    match m !! key with
    | None => (VNil, false)
    | Some (VMap m') => deepGet m' rest
    | Some val => (val, true)
    end.
Proof. reflexivity. Qed.

Lemma deepSet_other_path (p : list string) :
  forall (m m' : gmap string value) (v : value) (a b : string) (r1 r2 : list string),
    a <> b ->
    deepSet m (p ++ a :: r1) v = Ret m' ->
    deepGet (Some m') (p ++ b :: r2) = deepGet (Some m) (p ++ b :: r2).
Proof.
  induction p as [|key p IH]; intros m m' v a b r1 r2 Hab Hset.
  - cbn [app] in *. apply deepGet_head.
    apply (deepSet_head (a :: r1) m m' v b Hset). cbn [head]. congruence.
  - cbn [app] in *.
    destruct (p ++ a :: r1) as [|key2 rest] eqn:Hrest.
    { destruct p; discriminate. }
    rewrite deepSet_step in Hset. rewrite !deepGet_step.
    destruct (m !! key) as [[| | | | | | | | |[inner|]]|] eqn:Hkey; try discriminate.
    + destruct (deepSet inner (key2 :: rest) v) as [sub|] eqn:Hsub; [|discriminate].
      injection Hset as <-. rewrite <- Hrest in Hsub.
      rewrite lookup_insert_eq.
      apply (IH inner sub v a b r1 r2 Hab Hsub).
    + destruct (deepSet ∅ (key2 :: rest) v) as [sub|] eqn:Hsub; [|discriminate].
      injection Hset as <-. rewrite <- Hrest in Hsub.
      rewrite lookup_insert_eq.
      rewrite (IH ∅ sub v a b r1 r2 Hab Hsub).
      destruct p; apply deepGet_absent; apply lookup_empty.
Qed.

(** X6: what [deepSet] stores under a path of keys, [deepGet] reads back
    under that path, and [deepSet] changes nothing that [deepGet] reads under
    a path that leaves the first one at some key: when [deepSet] returns (it
    panics when a key before the last holds something else than a map),
    [deepGet] on the updated map gives the stored value and true for the
    path, and for a path that shares a prefix with it and goes on with another
    key what it gave on the map before. *)
Theorem deepSet_then_deepGet (m m' : gmap string value) (keys : list string) (v : value) :
  deepSet m keys v = Ret m' ->
  deepGet (Some m') keys = (v, true)
  /\ (forall (p : list string) (a b : string) (r1 r2 : list string),
        keys = p ++ a :: r1 -> a <> b ->
        deepGet (Some m') (p ++ b :: r2) = deepGet (Some m) (p ++ b :: r2)).
Proof.
  intros Hset. split.
  - apply (deepSet_read keys m m' v Hset).
  - intros p a b r1 r2 -> Hab. apply (deepSet_other_path p m m' v a b r1 r2 Hab Hset).
Qed.

Lemma deepSet_empty (keys : list string) (v : value) :
  keys <> [] -> exists m' : gmap string value, deepSet ∅ keys v = Ret m'.
Proof.
  induction keys as [|key rest IH]; intros Hne; [congruence|].
  destruct rest as [|key2 rest]; [eexists; reflexivity|].
  rewrite deepSet_step, lookup_empty. destruct IH as [sub Hsub]; [discriminate|].
  rewrite Hsub. eexists. reflexivity.
Qed.

(** ** Nested schemas *)

Lemma findNestedSchema_app (ks1 ks2 : list string) :
  forall schema : Schema,
    findNestedSchema schema (ks1 ++ ks2) =
    match findNestedSchema schema ks1 with
    | inl nested => findNestedSchema nested ks2
    | inr err => inr err
    end.
Proof.
  induction ks1 as [|key ks1 IH]; intros schema; [reflexivity|].
  cbn [app findNestedSchema].
  destruct (lookupProperty (Properties schema) key) as [propertySchema|]; [apply IH|].
  destruct (AdditionalPropertiesSchema schema) as [sc|]; [apply IH | reflexivity].
Qed.

Lemma findNestedSchema_error (keys : list string) :
  forall (schema : Schema) (err : error),
    findNestedSchema schema keys = inr err ->
    exists key : string,
      List.In key keys /\ err = ENew ("nested schema for key " +:+ Quote key +:+ " not found").
Proof.
  induction keys as [|key keys IH]; intros schema err Hfind; [discriminate|].
  cbn [findNestedSchema] in Hfind.
  destruct (lookupProperty (Properties schema) key) as [propertySchema|].
  - destruct (IH _ _ Hfind) as (k & Hin & ->). exists k. split; [right; exact Hin | reflexivity].
  - destruct (AdditionalPropertiesSchema schema) as [sc|].
    + destruct (IH _ _ Hfind) as (k & Hin & ->). exists k. split; [right; exact Hin | reflexivity].
    + injection Hfind as <-. exists key. split; [left; reflexivity | reflexivity].
Qed.

(** X7: [findNestedSchema] walks a path of keys one schema at a time: the
    schema under a path [ks1 ++ ks2] is the schema under [ks2] of the schema
    under [ks1], and the walk fails as soon as the first part fails.  A
    failure is always the error "nested schema for key <key> not found" for
    one of the keys of the path. *)
Theorem findNestedSchema_composes (schema : Schema) (ks1 ks2 : list string) :
  findNestedSchema schema (ks1 ++ ks2) =
    match findNestedSchema schema ks1 with
    | inl nested => findNestedSchema nested ks2
    | inr err => inr err
    end
  /\ (forall err : error,
        findNestedSchema schema ks1 = inr err ->
        exists key : string,
          List.In key ks1
          /\ err = ENew ("nested schema for key " +:+ Quote key +:+ " not found")).
Proof.
  split; [apply findNestedSchema_app|].
  intros err Hfind. apply (findNestedSchema_error ks1 schema err Hfind).
Qed.

(** ** anyOf *)

Lemma decodeValue_anyOf_eq (dec : valueDecoder) (param : string) (sm : SerializationMethod)
    (schema : Schema) (required : bool) :
  AllOf schema = [] -> AnyOf schema <> [] ->
  decodeValue dec param sm schema required =
    decodeAnyOf (fun sr => decodeValue dec param sm sr required) param required
      (AnyOf schema) false.
Proof.
  destruct schema as [ty fmt pat allOf anyOf oneOf not items props addl].
  cbn [AllOf AnyOf]. intros -> Hne.
  destruct anyOf as [|m ms]; [congruence|]. reflexivity.
Qed.

Lemma parseValue_anyOf_eq (v : string) (schema : Schema) :
  AllOf schema = [] -> AnyOf schema <> [] ->
  parseValue v schema = parseAnyOf (parseValue v) (AnyOf schema) None.
Proof.
  destruct schema as [ty fmt pat allOf anyOf oneOf not items props addl].
  cbn [AllOf AnyOf]. intros -> Hne.
  destruct anyOf as [|m ms]; [congruence|]. reflexivity.
Qed.

(** The anyOf loop of [decodeValue] over members that give the nil value. *)
Lemma decodeAnyOf_skips (decode : Schema -> go primitiveResult) (param : string)
    (required : bool) (pre : list Schema) (rs : list primitiveResult) :
  returns decode pre rs -> Forall (fun r => isNil r.1.1 = true) rs ->
  forall (rest : list Schema) (found : bool),
    decodeAnyOf decode param required (pre ++ rest) found =
    decodeAnyOf decode param required rest (found || existsb (fun r => r.1.2) rs).
Proof.
  induction 1 as [|m r pre rs Hm _ IH]; intros Hnil rest found.
  - cbn [app existsb]. rewrite orb_false_r. reflexivity.
  - apply Forall_cons in Hnil. destruct Hnil as [Hr Hnil].
    cbn [app decodeAnyOf]. rewrite Hm. cbn [mbind go_bind].
    destruct r as [[v f] e]. cbn [fst snd] in Hr. rewrite Hr. cbn [negb].
    rewrite (IH Hnil). cbn [existsb fst snd]. rewrite orb_assoc. reflexivity.
Qed.

(** The anyOf loop of [parseValue] over members that fail. *)
Lemma parseAnyOf_skips (parse : Schema -> go (value * option error))
    (pre : list Schema) (rs : list (value * option error)) :
  returns parse pre rs -> Forall (fun r => r.2 <> None) rs ->
  forall (rest : list Schema) (err : option error),
    parseAnyOf parse (pre ++ rest) err =
    parseAnyOf parse rest (List.last (map snd rs) err).
Proof.
  induction 1 as [|m r pre rs Hm _ IH]; intros Hfail rest err; [reflexivity|].
  apply Forall_cons in Hfail. destruct Hfail as [Hr Hfail].
  cbn [app parseAnyOf]. rewrite Hm. cbn [mbind go_bind].
  destruct r as [v [e|]]; cbn [snd] in Hr; [|congruence].
  rewrite (IH Hfail). cbn [map snd]. rewrite last_cons_default. reflexivity.
Qed.

(** X8: under a schema whose [anyOf] is what the dispatcher goes by ([allOf]
    is empty), styled decoding returns the value of the first member that
    gives a value other than nil, with no error whatever error that member
    and the members before it returned, and without decoding the members
    after it; found tells whether one of the members decoded found the
    parameter.  When every member gives nil the result is nil, with the error
    "decoding anyOf for parameter <name> failed" for a required parameter and
    no error otherwise. *)
Theorem decodeValue_anyOf_first_value (dec : valueDecoder) (param : string)
    (sm : SerializationMethod) (schema : Schema) (required : bool) :
  AllOf schema = [] -> AnyOf schema <> [] ->
  (forall (pre post : list Schema) (s : Schema) (rs : list primitiveResult)
          (v : value) (f : bool) (e : option error),
      AnyOf schema = pre ++ s :: post ->
      returns (fun sr => decodeValue dec param sm sr required) pre rs ->
      Forall (fun r => isNil r.1.1 = true) rs ->
      decodeValue dec param sm s required = Ret (v, f, e) ->
      isNil v = false ->
      decodeValue dec param sm schema required
        = Ret (v, existsb (fun r => r.1.2) rs || f, None))
  /\ (forall rs : list primitiveResult,
        returns (fun sr => decodeValue dec param sm sr required) (AnyOf schema) rs ->
        Forall (fun r => isNil r.1.1 = true) rs ->
        decodeValue dec param sm schema required
          = Ret (VNil, existsb (fun r => r.1.2) rs,
                 if required
                 then Some (ENew ("decoding anyOf for parameter " +:+ Quote param
                                  +:+ " failed"))
                 else None)).
Proof.
  intros HallOf HanyOf. split.
  - intros pre post s rs v f e Hmembers Hrs Hnil Hs Hv.
    rewrite decodeValue_anyOf_eq by assumption. rewrite Hmembers.
    rewrite (decodeAnyOf_skips _ _ _ _ _ Hrs Hnil).
    cbn [decodeAnyOf orb]. rewrite Hs. cbn [mbind go_bind]. rewrite Hv. reflexivity.
  - intros rs Hrs Hnil.
    rewrite decodeValue_anyOf_eq by assumption.
    rewrite <- (app_nil_r (AnyOf schema)).
    rewrite (decodeAnyOf_skips _ _ _ _ _ Hrs Hnil).
    cbn [decodeAnyOf orb]. destruct required; reflexivity.
Qed.

(** X9: what [DecodeArray] and [DecodeObject] return reaches the dispatcher
    as a slice or a map inside an interface value, which is not the nil
    interface even when the slice or the map is nil.  So when the first
    member of [anyOf] is a schema of type array (or object) without
    combinators, styled decoding returns what the decoder gave for that
    member, the nil slice (or map) included, without the decoder's error and
    without decoding another member. *)
Theorem decodeValue_anyOf_array_member_wins (dec : valueDecoder) (param : string)
    (sm : SerializationMethod) (schema s : Schema) (post : list Schema)
    (required : bool) :
  AllOf schema = [] -> AnyOf schema = s :: post -> plainSchema s ->
  (forall (l : option (list value)) (f : bool) (e : option error),
      Is (Type_ s) "array" = true ->
      DecodeArray dec param sm s = Ret (l, f, e) ->
      decodeValue dec param sm schema required = Ret (VSlice l, f, None))
  /\ (forall (m : option (gmap string value)) (f : bool) (e : option error),
        Is (Type_ s) "object" = true ->
        DecodeObject dec param sm s = Ret (m, f, e) ->
        decodeValue dec param sm schema required = Ret (VMap m, f, None)).
Proof.
  intros HallOf HanyOf (Hs1 & Hs2 & Hs3 & Hs4).
  assert (Hne : AnyOf schema <> []) by (rewrite HanyOf; discriminate).
  rewrite decodeValue_anyOf_eq by assumption. rewrite HanyOf.
  cbn [decodeAnyOf orb].
  destruct s as [ty fmt pat allOf anyOf oneOf not items props addl].
  cbn [AllOf AnyOf OneOf Not Type_] in *. subst allOf anyOf oneOf not.
  split.
  - intros l f e Hty Hdec.
    destruct ty as [[|t [|t' ts]]|]; try discriminate Hty.
    cbn [decodeValue AllOf AnyOf OneOf Not Type_ Is]. cbn [Is] in Hty. rewrite Hty.
    rewrite Hdec. reflexivity.
  - intros m f e Hty Hdec.
    destruct ty as [[|t [|t' ts]]|]; try discriminate Hty.
    cbn [decodeValue AllOf AnyOf OneOf Not Type_ Is]. cbn [Is] in Hty. rewrite Hty.
    apply String.eqb_eq in Hty. subst t. cbn [String.eqb Ascii.eqb Bool.eqb].
    rewrite Hdec. reflexivity.
Qed.

(** X10: under a schema whose [anyOf] is what it goes by, [parseValue] of the
    query decoder returns what the first member that parses without error
    gives, the nil value included, and does not parse the members after it;
    when every member fails it returns nil and the error of the last
    member. *)
Theorem parseValue_anyOf_first_success (v : string) (schema : Schema) :
  AllOf schema = [] -> AnyOf schema <> [] ->
  (forall (pre post : list Schema) (s : Schema) (rs : list (value * option error))
          (val : value),
      AnyOf schema = pre ++ s :: post ->
      returns (parseValue v) pre rs ->
      Forall (fun r => r.2 <> None) rs ->
      parseValue v s = Ret (val, None) ->
      parseValue v schema = Ret (val, None))
  /\ (forall rs : list (value * option error),
        returns (parseValue v) (AnyOf schema) rs ->
        Forall (fun r => r.2 <> None) rs ->
        parseValue v schema = Ret (VNil, List.last (map snd rs) None)
        /\ List.last (map snd rs) None <> None).
Proof.
  intros HallOf HanyOf. split.
  - intros pre post s rs val Hmembers Hrs Hfail Hs.
    rewrite parseValue_anyOf_eq by assumption. rewrite Hmembers.
    rewrite (parseAnyOf_skips _ _ _ Hrs Hfail).
    cbn [parseAnyOf]. rewrite Hs. reflexivity.
  - intros rs Hrs Hfail. split.
    + rewrite parseValue_anyOf_eq by assumption.
      rewrite <- (app_nil_r (AnyOf schema)).
      rewrite (parseAnyOf_skips _ _ _ Hrs Hfail). reflexivity.
    + assert (Hne : rs <> []).
      { intros ->. inversion Hrs as [Hnil|]. congruence. }
      clear Hrs.
      assert (Hlast : forall d : option error, List.last (map snd rs) d <> None);
        [|apply Hlast].
      induction Hfail as [|r rs Hr Hfail IH]; intros d; [congruence|].
      cbn [map]. rewrite last_cons_default.
      destruct rs as [|r' rs]; [exact Hr|]. apply IH. discriminate.
Qed.

(** ** The primitive parser *)

Lemma parsePrimitiveCase_outcome (raw : string) (schema : Schema) (typ : string) :
  match parsePrimitiveCase raw schema typ with
  | (v, None) => isNil v = false
  | (v, Some e) => v = VNil /\ primitiveError raw e /\ typ <> "string"
  end.
Proof.
  unfold parsePrimitiveCase, invalidFormat, primitiveError.
  destruct (String.eqb typ "integer") eqn:Hint.
  { apply String.eqb_eq in Hint. subst typ.
    destruct (String.eqb (Format schema) "int32"); destruct (ParseInt raw 0 _);
      try reflexivity;
      (split; [reflexivity | split; [|discriminate]]);
      eexists; repeat split; left; reflexivity. }
  destruct (String.eqb typ "number") eqn:Hnum.
  { apply String.eqb_eq in Hnum. subst typ.
    destruct (ParseFloat raw 64); try reflexivity.
    split; [reflexivity | split; [|discriminate]].
    eexists; repeat split; left; reflexivity. }
  destruct (String.eqb typ "boolean") eqn:Hbool.
  { apply String.eqb_eq in Hbool. subst typ.
    destruct (ParseBool raw); try reflexivity.
    split; [reflexivity | split; [|discriminate]].
    eexists; repeat split; left; reflexivity. }
  destruct (String.eqb typ "string") eqn:Hstr; [reflexivity|].
  split; [reflexivity | split; [|apply String.eqb_neq; exact Hstr]].
  eexists; repeat split; right; reflexivity.
Qed.

Lemma parsePrimitiveTypes_outcome (raw : string) (schema : Schema) (types : list string) :
  forall (v0 : value) (err0 : option error),
    match parsePrimitiveTypes raw schema types v0 err0 with
    | (v, None) => isNil v = false \/ (types = [] /\ v = v0 /\ err0 = None)
    | (v, Some e) =>
        ~ List.In "string" types
        /\ ((v = VNil /\ primitiveError raw e) \/ (types = [] /\ v = v0 /\ err0 = Some e))
    end.
Proof.
  induction types as [|typ types IH]; intros v0 err0.
  - cbn [parsePrimitiveTypes]. destruct err0 as [e|].
    + split; [intros []|]. right. repeat split.
    + right. repeat split.
  - cbn [parsePrimitiveTypes].
    pose proof (parsePrimitiveCase_outcome raw schema typ) as Hcase.
    destruct (parsePrimitiveCase raw schema typ) as [v' [e'|]].
    + destruct Hcase as (-> & Herr & Htyp).
      specialize (IH VNil (Some e')).
      destruct (parsePrimitiveTypes raw schema types VNil (Some e')) as [v [e|]].
      * destruct IH as [Hnot [Hgood | (-> & -> & He)]].
        -- split; [|left; exact Hgood]. intros [Heq | Hin]; [congruence | exact (Hnot Hin)].
        -- injection He as <-. split; [|left; split; [reflexivity | exact Herr]].
           intros [Heq | []]. congruence.
      * destruct IH as [Hv | (_ & _ & He)]; [left; exact Hv | discriminate].
    + left. exact Hcase.
Qed.

(** X11: what [parsePrimitive] returns for a schema.  It returns either no
    error or no value; a value that comes without error is not nil, unless
    the raw string is empty or the schema lists no type; an error is a
    ParseError on the raw string, of kind InvalidFormat or Other, and there is
    none when "string" is among the types of the schema, whatever the other
    types are. *)
Theorem parsePrimitive_value_or_error (raw : string) (schema : Schema) :
  exists (v : value) (err : option error),
    parsePrimitive raw (Some schema) = Ret (v, err)
    /\ match err with
       | None =>
           isNil v = false \/ (v = VNil /\ (raw = "" \/ Slice (Type_ schema) = []))
       | Some e =>
           v = VNil /\ primitiveError raw e /\ raw <> ""
           /\ ~ List.In "string" (Slice (Type_ schema))
       end.
Proof.
  unfold parsePrimitive. destruct (String.eqb raw "") eqn:Hraw.
  - exists VNil, None. split; [reflexivity|]. right. split; [reflexivity|].
    left. apply String.eqb_eq. exact Hraw.
  - apply String.eqb_neq in Hraw.
    pose proof (parsePrimitiveTypes_outcome raw schema (Slice (Type_ schema)) VNil None) as H.
    destruct (parsePrimitiveTypes raw schema (Slice (Type_ schema)) VNil None) as [v [e|]].
    + exists v, (Some e). split; [reflexivity|].
      destruct H as [Hnot [[-> Hgood] | (_ & _ & Hnone)]]; [|discriminate].
      repeat split; assumption.
    + exists v, None. split; [reflexivity|].
      destruct H as [Hv | (Hty & -> & _)]; [left; exact Hv|].
      right. split; [reflexivity|]. right. exact Hty.
Qed.

(** ** ParseError *)

Lemma errRootCause_not_parse :
  forall (e r : error), errRootCause e = Some r -> forall pe : ParseError, r <> EParse pe.
Proof.
  fix IH 1. intros e r H pe'.
  destruct e as [pe|msg|msg err|fn num err]; try discriminate H.
  destruct pe as [k v rs c p]. cbn [errRootCause Cause] in H.
  destruct c as [c|]; [|discriminate H].
  pose proof (IH c r) as IHc.
  destruct c as [pe2|msg|msg err|fn num err].
  - apply IHc. exact H.
  - injection H as <-. discriminate.
  - injection H as <-. discriminate.
  - injection H as <-. discriminate.
Qed.

(** X12: the root cause of a ParseError is never a ParseError: [RootCause]
    goes down the causes as long as they are ParseErrors and returns the
    first cause that is not one, or nil when the chain ends without one. *)
Theorem RootCause_is_not_a_ParseError (e : ParseError) (r : error) :
  RootCause e = Some r -> forall pe : ParseError, r <> EParse pe.
Proof.
  unfold RootCause. apply errRootCause_not_parse.
Qed.

(** ** The body decoder registry *)

(** X13: [decodeBody] hands a body to the decoder that was registered last
    for its media type and to no other.  After [RegisterBodyDecoder] for a
    non-empty content type, a body of that media type is decoded by the
    registered decoder: its value comes back with the media type, its error
    comes back alone; a body of another media type is decoded as before the
    registration, and as before after [UnregisterBodyDecoder] too. *)
Theorem decodeBody_uses_registered_decoder (bodyDecoders : registry)
    (contentType : string) (decoder : BodyDecoder) (body : Body)
    (header : gmap string (list string)) (schema : option Schema) (encFn : EncodingFn) :
  contentType <> "" ->
  exists r1 r2 : registry,
    RegisterBodyDecoder bodyDecoders contentType (Some decoder) = Ret r1
    /\ UnregisterBodyDecoder bodyDecoders contentType = Ret r2
    /\ RegisteredBodyDecoder r1 contentType = Some decoder
    /\ (parseMediaType (bodyContentType body header) = contentType ->
        decodeBody r1 body header schema encFn =
          (r ← decoder body header schema encFn;
           match r with
           | (_, Some err) => Ret ("", VNil, Some err)
           | (val, None) => Ret (contentType, val, None)
           end))
    /\ (parseMediaType (bodyContentType body header) <> contentType ->
        decodeBody r1 body header schema encFn
          = decodeBody bodyDecoders body header schema encFn
        /\ decodeBody r2 body header schema encFn
          = decodeBody bodyDecoders body header schema encFn).
Proof.
  intros Hne.
  exists (<[contentType := decoder]> bodyDecoders), (delete contentType bodyDecoders).
  assert (Heqb : String.eqb contentType "" = false)
    by (apply String.eqb_neq; exact Hne).
  unfold RegisterBodyDecoder, UnregisterBodyDecoder, RegisteredBodyDecoder.
  rewrite Heqb. unfold decodeBody. cbv zeta. unfold BodyDecoder in *.
  repeat split.
  - apply lookup_insert_eq.
  - intros Hmt. rewrite Hmt, lookup_insert_eq. reflexivity.
  - rewrite lookup_insert_ne by congruence. reflexivity.
  - rewrite lookup_delete_ne by congruence. reflexivity.
Qed.

(** ** The conversion of array properties *)

Lemma convertItems_filter (conv : string -> value + NumError) (strArray : list string) :
  forall iarr : option (list value),
    convertItems conv strArray iarr = convertItems conv (List.filter nonEmpty strArray) iarr.
Proof.
  induction strArray as [|str strArray IH]; intros iarr; [reflexivity|].
  cbn [convertItems List.filter]. unfold nonEmpty at 1.
  destruct (String.eqb str "") eqn:Hstr; cbn [negb]; [apply IH|].
  cbn [convertItems]. rewrite Hstr.
  destruct (conv str); [apply IH | reflexivity].
Qed.

Lemma convertItems_outcome (conv : string -> value + NumError) (strArray : list string) :
  forall iarr : option (list value),
    match convertItems conv strArray iarr with
    | (v, None) =>
        exists items : list value,
          length items = length (List.filter nonEmpty strArray)
          /\ v = VSlice (match items with [] => iarr | _ => Some (default [] iarr ++ items) end)
    | (v, Some _) => v = VNil
    end.
Proof.
  induction strArray as [|str strArray IH]; intros iarr.
  - exists []. split; reflexivity.
  - cbn [convertItems List.filter]. unfold nonEmpty at 1 2.
    destruct (String.eqb str "") eqn:Hstr; cbn [negb]; [apply IH|].
    destruct (conv str) as [v|e]; [|reflexivity].
    specialize (IH (appendValue iarr v)).
    destruct (convertItems conv strArray (appendValue iarr v)) as [w [e|]]; [exact IH|].
    destruct IH as (items & Hlen & ->). exists (v :: items).
    split; [cbn [length]; rewrite Hlen; reflexivity|].
    unfold appendValue. cbn [default from_option id].
    destruct items; [reflexivity|]. rewrite <- app_assoc. reflexivity.
Qed.

(** X14: [convertArrayParameterToType] passes over the empty strings when
    the items are booleans, integers or numbers, so that the result is the
    result for the list without them and, when nothing fails, a slice with
    one element for each string that is not empty (the nil slice when there
    is none); a failed conversion gives no value.  When the items are strings
    the list comes back as it is, empty strings included. *)
Theorem convertArrayParameterToType_skips_empty (strArray : list string)
    (typ : option (list string)) :
  (Permits typ "boolean" || Permits typ "integer" || Permits typ "number" = true ->
   convertArrayParameterToType strArray typ
     = convertArrayParameterToType (List.filter nonEmpty strArray) typ
   /\ match convertArrayParameterToType strArray typ with
      | (v, None) =>
          exists items : list value,
            length items = length (List.filter nonEmpty strArray)
            /\ v = VSlice (match items with [] => None | _ => Some items end)
      | (v, Some _) => v = VNil
      end)
  /\ (Permits typ "boolean" || Permits typ "integer" || Permits typ "number" = false ->
      Permits typ "string" = true ->
      convertArrayParameterToType strArray typ = (VStrings strArray, None)).
Proof.
  unfold convertArrayParameterToType. split.
  - intros Hnum.
    assert (Hout : forall conv,
               match convertItems conv strArray None with
               | (v, None) =>
                   exists items : list value,
                     length items = length (List.filter nonEmpty strArray)
                     /\ v = VSlice (match items with [] => None | _ => Some items end)
               | (v, Some _) => v = VNil
               end).
    { intros conv. pose proof (convertItems_outcome conv strArray None) as H.
      destruct (convertItems conv strArray None) as [v [e|]]; [exact H|].
      destruct H as (items & Hlen & ->). exists items. split; [exact Hlen|].
      destruct items; reflexivity. }
    destruct (Permits typ "boolean");
      [split; [apply convertItems_filter | apply Hout]|].
    destruct (Permits typ "integer");
      [split; [apply convertItems_filter | apply Hout]|].
    destruct (Permits typ "number");
      [split; [apply convertItems_filter | apply Hout]|].
    discriminate Hnum.
  - intros Hnum Hstr.
    destruct (Permits typ "boolean"); [discriminate Hnum|].
    destruct (Permits typ "integer"); [discriminate Hnum|].
    destruct (Permits typ "number"); [discriminate Hnum|].
    rewrite Hstr. reflexivity.
Qed.

(** An array property that the request does not give: the empty string
    splits into one empty item, which parses to nil without error. *)
Lemma arrayProperty_of_absent_value (props : gmap string string) (name : string)
    (propSchema items : Schema) :
  props !! name = None -> Items propSchema = Some items ->
  (Permits (Type_ items) "boolean" || Permits (Type_ items) "integer"
     || Permits (Type_ items) "number" = true ->
   arrayProperty (getProp props name) propSchema = Ret (VSlice None, None))
  /\ (Permits (Type_ items) "boolean" || Permits (Type_ items) "integer"
        || Permits (Type_ items) "number" = false ->
      Permits (Type_ items) "string" = true ->
      arrayProperty (getProp props name) propSchema = Ret (VStrings [""], None)).
Proof.
  intros Habsent Hitems. unfold getProp. rewrite Habsent.
  cbn [default from_option id]. unfold arrayProperty.
  change (Split "" urlDecoderDelimiter) with [""].
  cbv zeta. rewrite Hitems. cbn [checkItems].
  unfold parsePrimitive at 1. cbn [String.eqb mbind go_bind].
  unfold convertArrayParameterToType. split.
  - intros Hnum.
    destruct (Permits (Type_ items) "boolean"); [reflexivity|].
    destruct (Permits (Type_ items) "integer"); [reflexivity|].
    destruct (Permits (Type_ items) "number"); [reflexivity|].
    discriminate Hnum.
  - intros Hnum Hstr.
    destruct (Permits (Type_ items) "boolean"); [discriminate Hnum|].
    destruct (Permits (Type_ items) "integer"); [discriminate Hnum|].
    destruct (Permits (Type_ items) "number"); [discriminate Hnum|].
    rewrite Hstr. reflexivity.
Qed.

Lemma convertArrayParameterToType_scalar (strArray : list string)
    (typ : option (list string)) :
  isMap (convertArrayParameterToType strArray typ).1 = false.
Proof.
  assert (Hconv : forall conv, isMap (convertItems conv strArray None).1 = false).
  { intros conv. pose proof (convertItems_outcome conv strArray None) as H.
    destruct (convertItems conv strArray None) as [v [e|]]; cbn [fst].
    - rewrite H. reflexivity.
    - destruct H as (items & _ & ->). reflexivity. }
  unfold convertArrayParameterToType.
  destruct (Permits typ "boolean"); [apply Hconv|].
  destruct (Permits typ "integer"); [apply Hconv|].
  destruct (Permits typ "number"); [apply Hconv|].
  destruct (Permits typ "string"); reflexivity.
Qed.

Lemma convertArrayParameterToType_not_nil (strArray : list string)
    (typ : option (list string)) (v : value) :
  convertArrayParameterToType strArray typ = (v, None) -> isNil v = false.
Proof.
  assert (Hconv : forall conv, convertItems conv strArray None = (v, None) ->
                               isNil v = false).
  { intros conv Hv. pose proof (convertItems_outcome conv strArray None) as H.
    rewrite Hv in H. destruct H as (items & _ & ->). reflexivity. }
  unfold convertArrayParameterToType.
  destruct (Permits typ "boolean"); [apply Hconv|].
  destruct (Permits typ "integer"); [apply Hconv|].
  destruct (Permits typ "number"); [apply Hconv|].
  destruct (Permits typ "string"); [|discriminate].
  intros H. injection H as <-. reflexivity.
Qed.

Lemma arrayProperty_scalar (raw : string) (propSchema : Schema) (v : value)
    (err : option error) :
  arrayProperty raw propSchema = Ret (v, err) -> isMap v = false.
Proof.
  unfold arrayProperty. cbv zeta.
  destruct (checkItems _ _) as [[e|]|]; cbn [mbind go_bind]; try discriminate.
  - intros H. injection H as <- _. reflexivity.
  - destruct (Items propSchema) as [items|]; [|discriminate].
    intros H. injection H as H.
    change v with (v, err).1. rewrite <- H.
    apply convertArrayParameterToType_scalar.
Qed.

(** The invariant of the loop of [makeObject] for the declared properties of
    type array. *)
Lemma makeObjectProps_arrays (props : gmap string string) (schema : Schema)
    (todo : list (string * Schema)) :
  NoDup (map fst todo) ->
  forall obj obj' : gmap string value,
    makeObjectProps props schema todo obj = Ret (Some obj', None) ->
    forall p ps, List.In (p, ps) todo -> Is (Type_ ps) "array" = true ->
                 exists v, arrayProperty (getProp props p) ps = Ret (v, None)
                           /\ obj' !! p = Some v.
Proof.
  induction todo as [|[q qs] todo IH]; intros Hnd obj obj' H p ps Hin Harr;
    [destruct Hin|].
  apply NoDup_cons in Hnd. destruct Hnd as [Hq Hnd].
  assert (Hq' : ~ List.In q (map fst todo))
    by (intros Hq'; apply Hq; apply list_elem_of_In; exact Hq').
  cbn [makeObjectProps] in H.
  destruct Hin as [Heq | Hin].
  - injection Heq as -> ->. rewrite Harr in H.
    destruct (arrayProperty _ ps) as [[ivals [err|]]|] eqn:Hivals;
      cbn [mbind go_bind] in H; try discriminate H.
    exists ivals. split; [reflexivity|].
    destruct (makeObjectProps_primitives props schema todo Hnd _ _ H) as [Hkeep _].
    apply Hkeep; [exact Hq' | apply lookup_insert_eq|].
    eapply arrayProperty_scalar; exact Hivals.
  - destruct (Is (Type_ qs) "array");
      [|destruct (Is (Type_ qs) "object")].
    + destruct (arrayProperty _ qs) as [[ivals [err|]]|]; cbn [mbind go_bind] in H;
        try discriminate H.
      apply (IH Hnd _ _ H p ps Hin Harr).
    + destruct (nestedProps _ _ _ _ _) as [[obj1|err]|];
        cbn [mbind go_bind] in H; try discriminate H.
      apply (IH Hnd _ _ H p ps Hin Harr).
    + destruct (parsePrimitive _ (Some qs)) as [[val [err|]]|];
        cbn [mbind go_bind] in H; try discriminate H.
      apply (IH Hnd _ _ H p ps Hin Harr).
Qed.

(** X15: when [makeObject] returns an object, the object has an entry for
    every declared property of type array, also for one that the property map
    does not give.  The raw value of an absent property is read as the empty
    string, which splits into one empty item, and the entry is then the nil
    slice when the items are booleans, integers or numbers, but the list that
    holds one empty string when the items are strings. *)
Theorem makeObject_array_properties (props : gmap string string)
    (schema : Schema) (obj : gmap string value) :
  NoDup (map fst (Properties schema)) ->
  makeObject props schema = Ret (Some obj, None) ->
  forall (propName : string) (propSchema : Schema),
    List.In (propName, propSchema) (Properties schema) ->
    Is (Type_ propSchema) "array" = true ->
    (exists v : value, obj !! propName = Some v /\ isNil v = false /\ isMap v = false)
    /\ (props !! propName = None ->
        exists items : Schema,
          Items propSchema = Some items
          /\ (Permits (Type_ items) "boolean" || Permits (Type_ items) "integer"
                || Permits (Type_ items) "number" = true ->
              obj !! propName = Some (VSlice None))
          /\ (Permits (Type_ items) "boolean" || Permits (Type_ items) "integer"
                || Permits (Type_ items) "number" = false ->
              Permits (Type_ items) "string" = true ->
              obj !! propName = Some (VStrings [""]))).
Proof.
  intros Hnd Hobj propName propSchema Hin Harr.
  destruct (makeObjectProps_arrays props schema (Properties schema) Hnd ∅ obj Hobj
              propName propSchema Hin Harr) as (v & Hv & Hlookup).
  split.
  - exists v. split; [exact Hlookup|]. split; [|eapply arrayProperty_scalar; exact Hv].
    revert Hv. unfold arrayProperty. cbv zeta.
    destruct (checkItems _ _) as [[e|]|]; cbn [mbind go_bind]; try discriminate.
    destruct (Items propSchema) as [items|]; [|discriminate].
    intros H. injection H as H.
    eapply convertArrayParameterToType_not_nil. exact H.
  - intros Habsent.
    destruct (Items propSchema) as [items|] eqn:Hitems.
    + exists items. split; [reflexivity|].
      destruct (arrayProperty_of_absent_value props propName propSchema items
                  Habsent Hitems) as [Hnum Hstr].
      split.
      * intros Hperm. rewrite (Hnum Hperm) in Hv. injection Hv as <-. exact Hlookup.
      * intros Hperm Hs. rewrite (Hstr Hperm Hs) in Hv. injection Hv as <-. exact Hlookup.
    + exfalso. revert Hv. unfold getProp. rewrite Habsent.
      cbn [default from_option id]. unfold arrayProperty.
      change (Split "" urlDecoderDelimiter) with [""].
      cbv zeta. rewrite Hitems. cbn [checkItems].
      unfold parsePrimitive. cbn [String.eqb mbind go_bind]. discriminate.
Qed.

(** ** The keys of the deepObject style *)

Lemma untilBracket_key (k : string) :
  bracketKey k ->
  forall acc rest : string,
    untilBracket (k +:+ "]" +:+ rest) acc = Some (acc +:+ k, rest).
Proof.
  unfold bracketKey. induction k as [|a k IH]; intros [Hclose Hnl] acc rest.
  - rewrite append_nil_r. reflexivity.
  - cbn [occurs] in Hclose, Hnl.
    apply orb_false_iff in Hclose. destruct Hclose as [Ha Hclose].
    apply orb_false_iff in Hnl. destruct Hnl as [Hb Hnl].
    change (String a k +:+ "]" +:+ rest) with (String a (k +:+ "]" +:+ rest)).
    cbn [untilBracket].
    rewrite Ascii.eqb_sym, Ha. rewrite Ascii.eqb_sym, Hb.
    rewrite (IH (conj Hclose Hnl)).
    rewrite append_assoc. reflexivity.
Qed.

Lemma bracketsFrom_bracketed (ks : list string) :
  Forall bracketKey ks ->
  forall n : nat, String.length (bracketed ks) <= n -> bracketsFrom n (bracketed ks) = ks.
Proof.
  induction 1 as [|k ks Hk _ IH]; intros n Hn.
  - destruct n; reflexivity.
  - change (bracketed (k :: ks)) with (String "[" (k +:+ "]" +:+ bracketed ks)) in *.
    cbn [String.length] in Hn. destruct n as [|n]; [lia|].
    cbn [bracketsFrom]. change (Ascii.eqb "[" "[") with true. cbv iota.
    rewrite (untilBracket_key k Hk "" (bracketed ks)).
    change ("" +:+ k) with k. f_equal. apply IH.
    rewrite !length_append in Hn. lia.
Qed.

Lemma bracketsFrom_name (name : string) :
  occurs "[" name = false ->
  forall (n : nat) (s : string),
    String.length name <= n ->
    bracketsFrom n (name +:+ s) = bracketsFrom (n - String.length name) s.
Proof.
  induction name as [|a name IH]; intros Hfree n s Hn.
  - cbn [String.length]. rewrite Nat.sub_0_r. reflexivity.
  - cbn [occurs] in Hfree. apply orb_false_iff in Hfree. destruct Hfree as [Ha Hfree].
    cbn [String.length] in *. destruct n as [|n]; [lia|].
    change (String a name +:+ s) with (String a (name +:+ s)).
    cbn [bracketsFrom]. rewrite Ascii.eqb_sym, Ha.
    rewrite (IH Hfree) by lia. reflexivity.
Qed.

(** X16: the keys of a query parameter written in the deepObject style are
    read back.  For a name without an opening bracket and keys without a
    closing bracket or a newline, the submatches found in
    [name[k1][k2]...[kn]] are [k1], ..., [kn], in this order; a key may hold an
    opening bracket or be empty, and the name is not looked at. *)
Theorem findBrackets_of_bracketed (name : string) (ks : list string) :
  occurs "[" name = false -> Forall bracketKey ks ->
  findBrackets (name +:+ bracketed ks) = ks.
Proof.
  intros Hname Hks. unfold findBrackets.
  rewrite bracketsFrom_name by (rewrite ?length_append; try exact Hname; lia).
  apply bracketsFrom_bracketed; [exact Hks|].
  rewrite length_append. lia.
Qed.

(** ** Objects in the query *)

Lemma firstValues_fold (entries : list (string * list string)) :
  Forall (fun e => e.2 <> []) entries ->
  forall props : gmap string string,
    firstValues entries props =
    Ret (fold_left (fun m e => <[e.1 := hd "" e.2]> m) entries props).
Proof.
  induction 1 as [|[key vals] entries Hvals _ IH]; intros props; [reflexivity|].
  cbn [firstValues fold_left fst snd] in *.
  destruct vals as [|v0 vals]; [congruence|]. apply IH.
Qed.

Lemma fold_insert_lookup (entries : list (string * list string)) :
  NoDup (map fst entries) ->
  forall (props : gmap string string) (k : string),
    fold_left (fun m e => <[e.1 := hd "" e.2]> m) entries props !! k =
    match (list_to_map entries : gmap string (list string)) !! k with
    | Some vals => Some (hd "" vals)
    | None => props !! k
    end.
Proof.
  induction entries as [|[k0 v0] entries IH]; intros Hnd props k.
  - cbn [fold_left list_to_map foldr]. rewrite lookup_empty. reflexivity.
  - apply NoDup_cons in Hnd. destruct Hnd as [Hk0 Hnd].
    cbn [fold_left fst snd]. rewrite (IH Hnd).
    change (list_to_map ((k0, v0) :: entries) : gmap string (list string))
      with (<[k0 := v0]> (list_to_map entries : gmap string (list string))).
    destruct (decide (k0 = k)) as [<-|Hne].
    + rewrite (not_elem_of_list_to_map_1 entries k0 Hk0).
      rewrite !lookup_insert_eq. reflexivity.
    + rewrite !lookup_insert_ne by exact Hne. reflexivity.
Qed.

Lemma firstValues_rangeOrder (values : gmap string (list string)) :
  map_Forall (fun _ vals => vals <> []) values ->
  firstValues (rangeOrder values) ∅ = Ret (hd "" <$> values).
Proof.
  intros Hvals.
  pose proof (rangeOrder_perm _ values) as Hperm.
  assert (Hnd : NoDup (map fst (rangeOrder values))).
  { rewrite Hperm. apply NoDup_fst_map_to_list. }
  rewrite firstValues_fold.
  - f_equal. apply map_eq. intros k.
    rewrite (fold_insert_lookup _ Hnd).
    rewrite (list_to_map_proper _ _ Hnd Hperm), list_to_map_to_list.
    rewrite lookup_fmap, lookup_empty. destruct (values !! k); reflexivity.
  - apply Forall_forall. intros [k vals] Hin. cbn [snd].
    apply (Hvals k vals). apply elem_of_map_to_list.
    rewrite <- Hperm. exact Hin.
Qed.

(** X17: in the query, an object of style form with explode is built from
    every key of the query, each with its first value, whatever the name of
    the parameter is and whatever the order in which the keys are visited:
    the result is what [makeObject] makes of that property map.  Under the
    deepObject style the name of the parameter is not looked at either. *)
Theorem query_DecodeObject_takes_every_key (values : gmap string (list string))
    (param : string) (sm : SerializationMethod) (schema : Schema) :
  (Style sm = "form" -> Explode sm = true -> values <> ∅ ->
   map_Forall (fun _ vals => vals <> []) values ->
   query_DecodeObject values param sm schema =
     (o ← makeObject (hd "" <$> values) schema;
      match o with
      | (_, Some err) => Ret (None, false, Some err)
      | (val, None) =>
          Ret (val, foundProps (hd "" <$> values) schema val (Properties schema), None)
      end))
  /\ (Style sm = "deepObject" ->
      forall param' : string,
        query_DecodeObject values param sm schema
          = query_DecodeObject values param' sm schema).
Proof.
  split.
  - intros Hstyle Hexplode Hne Hvals.
    unfold query_DecodeObject, query_propsFn. rewrite Hstyle, Hexplode.
    cbn [String.eqb Ascii.eqb Bool.eqb].
    rewrite bool_decide_eq_false_2 by exact Hne.
    rewrite (firstValues_rangeOrder values Hvals). reflexivity.
  - intros Hstyle param'.
    unfold query_DecodeObject, query_propsFn. rewrite Hstyle. reflexivity.
Qed.

(** ** The keys of an assembled object *)

Lemma nested_key_head (prop propName : string) :
  strings.HasPrefix prop (propName +:+ urlDecoderDelimiter) = true ->
  occurs (ascii_of_nat 31) propName = false ->
  exists k2 rest, Split prop urlDecoderDelimiter = propName :: k2 :: rest.
Proof.
  unfold strings.HasPrefix, urlDecoderDelimiter, Split. intros Hp Hfree.
  apply prefix_split in Hp. rewrite Hp, append_assoc.
  set (t := strings.drop _ prop). clearbody t.
  change (String (ascii_of_nat 31) "" +:+ t) with (String (ascii_of_nat 31) t).
  rewrite (splitScan_free _ propName Hfree), splitScan_separator.
  change ("" +:+ propName) with propName.
  pose proof (splitScan_not_empty (String (ascii_of_nat 31) "") t O "") as Hne.
  destruct (strings.splitScan _ _ _ t) as [|k2 rest]; [congruence|].
  exists k2, rest. reflexivity.
Qed.

Lemma deepSet_keys (m m' : gmap string value) (key : string) (rest : list string)
    (v : value) (k : string) :
  deepSet m (key :: rest) v = Ret m' -> is_Some (m' !! k) -> k = key \/ is_Some (m !! k).
Proof.
  intros Hset Hk. destruct (decide (key = k)) as [->|Hne]; [left; reflexivity|].
  right. rewrite <- (deepSet_head (key :: rest) m m' v k Hset); [exact Hk|].
  cbn [head]. congruence.
Qed.

Lemma nestedProps_keys (props : gmap string string) (schema : Schema)
    (propName : string) (entries : list (string * string)) (k : string) :
  occurs (ascii_of_nat 31) propName = false ->
  forall obj obj' : gmap string value,
    nestedProps props schema propName entries obj = Ret (inl obj') ->
    is_Some (obj' !! k) -> k = propName \/ is_Some (obj !! k).
Proof.
  intros Hfree. induction entries as [|[prop val] entries IH]; intros obj obj' H Hk.
  - injection H as <-. right. exact Hk.
  - cbn [nestedProps] in H.
    destruct (strings.HasPrefix prop (propName +:+ urlDecoderDelimiter)) eqn:Hpre;
      cbn [negb] in H; [|apply (IH obj obj' H Hk)].
    destruct (nested_key_head prop propName Hpre Hfree) as (k2 & rest & Hkeys).
    rewrite Hkeys in H.
    destruct (findNestedSchema schema (propName :: k2 :: rest)) as [nested|err];
      [|discriminate H].
    destruct (Permits (Type_ nested) "array").
    + destruct (arrayProperty _ nested) as [[ivals [err|]]|]; cbn [mbind go_bind] in H;
        try discriminate H.
      destruct (deepSet obj (propName :: k2 :: rest) ivals) as [obj1|] eqn:Hset;
        cbn [mbind go_bind] in H; [|discriminate H].
      destruct (IH obj1 obj' H Hk) as [Heq | Hin]; [left; exact Heq|].
      apply (deepSet_keys _ _ _ _ _ _ Hset Hin).
    + destruct (parsePrimitive _ (Some nested)) as [[val' [err|]]|];
        cbn [mbind go_bind] in H; try discriminate H.
      destruct (deepSet obj (propName :: k2 :: rest) val') as [obj1|] eqn:Hset;
        cbn [mbind go_bind] in H; [|discriminate H].
      destruct (IH obj1 obj' H Hk) as [Heq | Hin]; [left; exact Heq|].
      apply (deepSet_keys _ _ _ _ _ _ Hset Hin).
Qed.

Lemma makeObjectProps_keys (props : gmap string string) (schema : Schema)
    (todo : list (string * Schema)) (k : string) :
  Forall (fun p => occurs (ascii_of_nat 31) p.1 = false) todo ->
  forall obj obj' : gmap string value,
    makeObjectProps props schema todo obj = Ret (Some obj', None) ->
    is_Some (obj' !! k) -> List.In k (map fst todo) \/ is_Some (obj !! k).
Proof.
  induction 1 as [|[q qs] todo Hq _ IH]; intros obj obj' H Hk.
  - injection H as <-. right. exact Hk.
  - cbn [fst] in Hq. cbn [makeObjectProps] in H. cbn [map fst List.In].
    assert (Hinsert : forall v : value,
               is_Some (<[q := v]> obj !! k) -> q = k \/ is_Some (obj !! k)).
    { intros v Hv. destruct (decide (q = k)) as [Heq|Hne]; [left; exact Heq|].
      right. rewrite lookup_insert_ne in Hv by exact Hne. exact Hv. }
    destruct (Is (Type_ qs) "array");
      [|destruct (Is (Type_ qs) "object")].
    + destruct (arrayProperty _ qs) as [[ivals [err|]]|]; cbn [mbind go_bind] in H;
        try discriminate H.
      destruct (IH _ _ H Hk) as [Hin | Hin]; [left; right; exact Hin|].
      destruct (Hinsert _ Hin) as [Heq | Hobj]; [left; left; exact Heq | right; exact Hobj].
    + destruct (nestedProps _ _ _ _ _) as [[obj1|err]|] eqn:Hn;
        cbn [mbind go_bind] in H; try discriminate H.
      destruct (IH _ _ H Hk) as [Hin | Hin]; [left; right; exact Hin|].
      destruct (nestedProps_keys _ _ _ _ k Hq _ _ Hn Hin) as [Heq | Hobj];
        [left; left; symmetry; exact Heq | right; exact Hobj].
    + destruct (parsePrimitive _ (Some qs)) as [[val [err|]]|];
        cbn [mbind go_bind] in H; try discriminate H.
      destruct (IH _ _ H Hk) as [Hin | Hin]; [left; right; exact Hin|].
      destruct (Hinsert _ Hin) as [Heq | Hobj]; [left; left; exact Heq | right; exact Hobj].
Qed.

(** X18: an object that [makeObject] returns has no other keys than names of
    declared properties (for property names that do not hold the byte 0x1F,
    which the decoder uses to separate the segments of a nested key): what
    the property map holds under another name is left out, and the values of
    nested keys are stored under the name of the object property they
    belong to. *)
Theorem makeObject_keys_are_declared (props : gmap string string) (schema : Schema)
    (obj : gmap string value) (k : string) :
  Forall (fun p => occurs (ascii_of_nat 31) p.1 = false) (Properties schema) ->
  makeObject props schema = Ret (Some obj, None) ->
  is_Some (obj !! k) -> List.In k (map fst (Properties schema)).
Proof.
  intros Hfree Hobj Hk.
  destruct (makeObjectProps_keys props schema (Properties schema) k Hfree ∅ obj Hobj Hk)
    as [Hin | Hempty]; [exact Hin|].
  rewrite lookup_empty in Hempty. destruct Hempty as [v Hv]. discriminate Hv.
Qed.

(** ** Objects in the path, the headers and the cookies *)

Lemma propsFromString_writePairs (cp cv : ascii) (kvs : list (string * string)) :
  kvs <> [] -> pairsFree cp kvs -> pairsFree cv kvs ->
  propsFromString (writePairs cp cv kvs) (String cp EmptyString) (String cv EmptyString)
    = (Some (mapOfPairs kvs), None).
Proof.
  intros Hne Hcp Hcv. unfold writePairs.
  destruct (Ascii.eqb cp cv) eqn:Heq.
  - apply Ascii.eqb_eq in Heq. subst cv. apply propsFromString_flat; assumption.
  - apply Ascii.eqb_neq in Heq. apply propsFromString_pairs; assumption.
Qed.

Lemma Join_cons_not_empty (x : string) (items : list string) (sep : string) :
  x <> "" \/ (items <> [] /\ sep <> "") -> strings.Join (x :: items) sep <> "".
Proof.
  intros H. destruct items as [|y items].
  - destruct H as [Hx | [Hitems _]]; [exact Hx | congruence].
  - change (strings.Join (x :: y :: items) sep)
      with (x +:+ sep +:+ strings.Join (y :: items) sep).
    destruct x as [|a x]; [|discriminate].
    destruct sep as [|b sep]; [|discriminate].
    destruct H as [Hx | [_ Hsep]]; congruence.
Qed.

Lemma writePairs_not_empty (cp cv : ascii) (kvs : list (string * string)) :
  kvs <> [] -> writePairs cp cv kvs <> "".
Proof.
  intros Hne. destruct kvs as [|[k v] kvs]; [congruence|]. unfold writePairs.
  destruct (Ascii.eqb cp cv).
  - change (flatPairs ((k, v) :: kvs)) with (k :: v :: flatPairs kvs).
    apply Join_cons_not_empty. right. split; discriminate.
  - cbn [map fst snd]. apply Join_cons_not_empty. left.
    destruct k; discriminate.
Qed.

(** The part of the object operations that follows the style check, for a raw
    value made of a prefix and of written pairs. *)
Lemma object_tail (cp cv : ascii) (kvs : list (string * string)) (schema : Schema)
    (prefix : string) (ok : bool) :
  kvs <> [] -> pairsFree cp kvs -> pairsFree cv kvs ->
  (match cutPrefix (prefix +:+ writePairs cp cv kvs) prefix with
   | (_, Some err) => Ret (None, ok, Some err)
   | (src, None) =>
       match propsFromString src (String cp EmptyString) (String cv EmptyString) with
       | (_, Some err) => Ret (None, ok, Some err)
       | (props, None) =>
           r ← makeObject (default ∅ props) schema;
           Ret (r.1, ok, r.2)
       end
   end) = (r ← makeObject (mapOfPairs kvs) schema; Ret (r.1, ok, r.2)).
Proof.
  intros Hne Hcp Hcv. rewrite cutPrefix_append.
  rewrite (propsFromString_writePairs cp cv kvs Hne Hcp Hcv). reflexivity.
Qed.

(** X19: an object written as a path parameter, a header or a cookie is
    handed to the assembler as the map of its pairs.  For pairs whose names
    and values hold none of the two delimiters of the layout, the path
    decoder (simple, label and matrix, with and without explode), the header
    decoder (simple, with and without explode) and the cookie decoder (form
    without explode) return what [makeObject] makes of the map of the pairs,
    with [found = true]. *)
Theorem decodeObject_of_written_pairs (param : string) (kvs : list (string * string))
    (schema : Schema) :
  kvs <> [] ->
  (forall (pathParams : gmap string string) (sm : SerializationMethod)
          (prefix : string) (cp cv : ascii),
      pairsFree cp kvs -> pairsFree cv kvs ->
      (Style sm = "simple" /\ Explode sm = false
       /\ prefix = "" /\ cp = ","%char /\ cv = ","%char)
      \/ (Style sm = "simple" /\ Explode sm = true
          /\ prefix = "" /\ cp = ","%char /\ cv = "="%char)
      \/ (Style sm = "label" /\ Explode sm = false
          /\ prefix = "." /\ cp = ","%char /\ cv = ","%char)
      \/ (Style sm = "label" /\ Explode sm = true
          /\ prefix = "." /\ cp = "."%char /\ cv = "="%char)
      \/ (Style sm = "matrix" /\ Explode sm = false
          /\ prefix = ";" +:+ param +:+ "=" /\ cp = ","%char /\ cv = ","%char)
      \/ (Style sm = "matrix" /\ Explode sm = true
          /\ prefix = ";" /\ cp = ";"%char /\ cv = "="%char) ->
      pathParams !! param = Some (prefix +:+ writePairs cp cv kvs) ->
      path_DecodeObject (Some pathParams) param sm schema =
        (r ← makeObject (mapOfPairs kvs) schema; Ret (r.1, true, r.2)))
  /\ (forall (header : gmap string (list string)) (sm : SerializationMethod)
             (others : list string) (cv : ascii),
        pairsFree ","%char kvs -> pairsFree cv kvs ->
        Style sm = "simple" ->
        cv = (if Explode sm then "="%char else ","%char) ->
        header !! CanonicalHeaderKey param
          = Some (writePairs ","%char cv kvs :: others) ->
        header_DecodeObject header param sm schema =
          (r ← makeObject (mapOfPairs kvs) schema; Ret (r.1, true, r.2)))
  /\ (forall (req : Request) (sm : SerializationMethod),
        pairsFree ","%char kvs ->
        Style sm = "form" -> Explode sm = false ->
        Cookie req param = inl (writePairs ","%char ","%char kvs) ->
        cookie_DecodeObject req param sm schema =
          (r ← makeObject (mapOfPairs kvs) schema; Ret (r.1, true, r.2))).
Proof.
  intros Hne. split; [|split].
  - intros pathParams sm prefix cp cv Hcp Hcv Hlayout Hraw.
    unfold path_DecodeObject, commaOk. rewrite Hraw.
    pose proof (append_not_empty prefix _ (writePairs_not_empty cp cv kvs Hne)) as Hraw'.
    pose proof (object_tail cp cv kvs schema prefix true Hne Hcp Hcv) as Htail.
    destruct Hlayout as [(Hs & He & -> & -> & ->)|[(Hs & He & -> & -> & ->)
                        |[(Hs & He & -> & -> & ->)|[(Hs & He & -> & -> & ->)
                        |[(Hs & He & -> & -> & ->)|(Hs & He & -> & -> & ->)]]]]];
      rewrite Hs, He;
      cbn [String.eqb Ascii.eqb Bool.eqb andb negb orb];
      rewrite Hraw'; cbn [negb orb]; exact Htail.
  - intros header sm others cv Hcp Hcv Hs Hdelim Hraw.
    unfold header_DecodeObject, commaOkValues. rewrite Hs, Hraw.
    cbn [String.eqb Ascii.eqb Bool.eqb negb].
    pose proof (propsFromString_writePairs ","%char cv kvs Hne Hcp Hcv) as Hprops.
    subst cv. destruct (Explode sm); cbv zeta; rewrite Hprops; reflexivity.
  - intros req sm Hcp Hs He Hcookie.
    unfold cookie_DecodeObject. rewrite Hs, He, Hcookie.
    cbn [String.eqb Ascii.eqb Bool.eqb negb orb notErrNoCookie].
    rewrite (propsFromString_writePairs ","%char ","%char kvs Hne Hcp Hcp). reflexivity.
Qed.

(** ** Parameters defined via the content property *)

Section ContentParameters.
Context {cext : ContentExternals}.

(** X20: a content parameter that the request does not give.  When the path
    parameters, the query or the headers have no entry for the parameter,
    [decodeContentParameter] calls no decoder and returns no value, no
    schema and [found = false], with the error "parameter <name> is required,
    but missing" for a required parameter and no error otherwise.  For a
    cookie that the request does not have, the error of a required parameter
    is the same, but for an optional one the error [http.ErrNoCookie] of the
    lookup is returned. *)
Theorem decodeContentParameter_missing (param : ContentParam)
    (input : RequestValidationInput) (paramDecoder : option ContentParameterDecoder) :
  ((In (Base param) = "path"
    /\ default ∅ (PathParams input) !! Name (Base param) = None)
   \/ (In (Base param) = "query" /\ QueryParams input !! Name (Base param) = None)
   \/ (In (Base param) = "header"
       /\ Header (InputRequest input) !! CanonicalHeaderKey (Name (Base param)) = None) ->
   decodeContentParameter param input paramDecoder =
     Ret (VNil, None, false,
          if Required (Base param)
          then Some (ENew ("parameter " +:+ Quote (Name (Base param))
                           +:+ " is required, but missing"))
          else None))
  /\ (In (Base param) = "cookie" ->
      Cookie (InputRequest input) (Name (Base param)) = inr ErrNoCookie ->
      decodeContentParameter param input paramDecoder =
        Ret (VNil, None, false,
             Some (if Required (Base param)
                   then ENew ("parameter " +:+ Quote (Name (Base param))
                              +:+ " is required, but missing")
                   else ErrNoCookie))).
Proof.
  unfold decodeContentParameter. split.
  - intros [[Hin Habsent] | [[Hin Habsent] | [Hin Habsent]]];
      rewrite Hin; cbn [String.eqb Ascii.eqb Bool.eqb]; rewrite Habsent; reflexivity.
  - intros Hin Hcookie. rewrite Hin, Hcookie.
    cbn [String.eqb Ascii.eqb Bool.eqb notErrNoCookie ErrNoCookie negb].
    destruct (Required (Base param)); reflexivity.
Qed.

(** X21: a content parameter that the request gives is decoded by
    [input.ParamDecoder] when it is set and by
    [defaultContentParameterDecoder] otherwise, from the values of the query
    or of the header, or from the one value of the path parameter or of the
    cookie; the value, the schema and the error are the decoder's, and
    [found] is true also when the decoder fails. *)
Theorem decodeContentParameter_present (param : ContentParam)
    (input : RequestValidationInput) (paramDecoder : option ContentParameterDecoder)
    (paramValues : list string) :
  (exists v, In (Base param) = "path" /\ paramValues = [v]
             /\ default ∅ (PathParams input) !! Name (Base param) = Some v)
  \/ (In (Base param) = "query"
      /\ QueryParams input !! Name (Base param) = Some paramValues)
  \/ (In (Base param) = "header"
      /\ Header (InputRequest input) !! CanonicalHeaderKey (Name (Base param))
         = Some paramValues)
  \/ (exists v, In (Base param) = "cookie" /\ paramValues = [v]
                /\ Cookie (InputRequest input) (Name (Base param)) = inl v) ->
  decodeContentParameter param input paramDecoder =
    (r ← match paramDecoder with
         | Some decoder => decoder param paramValues
         | None => defaultContentParameterDecoder param paramValues
         end;
     Ret (r.1.1, r.1.2, true, r.2)).
Proof.
  unfold decodeContentParameter.
  intros [(v & Hin & -> & Hv) | [[Hin Hv] | [[Hin Hv] | (v & Hin & -> & Hv)]]];
    rewrite Hin; cbn [String.eqb Ascii.eqb Bool.eqb]; rewrite Hv;
    destruct paramDecoder; reflexivity.
Qed.

Lemma unmarshal_lenient (encoded : string) (sc : Schema) :
  Is (Type_ sc) "object" = false ->
  unmarshal encoded (Some sc) = (jsonOrString encoded, None).
Proof.
  intros Hobj. unfold unmarshal, jsonOrString.
  destruct (jsonUnmarshal encoded); [reflexivity|]. rewrite Hobj. reflexivity.
Qed.

(** X22: the built-in decoder on one value.  For a parameter whose one
    content is application/json, a schema that is not of type object makes
    the decoder lenient: the value is the JSON value of the text, or the text
    itself as a string when it is not JSON, and there is no error.  Under a
    schema of type object a text that is not JSON gives the error "error
    unmarshaling parameter <name>", with the schema and no value. *)
Theorem defaultContentParameterDecoder_one_value (param : ContentParam) (sc : Schema)
    (v : string) :
  jsonContent param sc ->
  (Is (Type_ sc) "object" = false ->
   defaultContentParameterDecoder param [v] = Ret (jsonOrString v, Some sc, None))
  /\ (Is (Type_ sc) "object" = true ->
      defaultContentParameterDecoder param [v] =
        match jsonUnmarshal v with
        | inl decoded => Ret (decoded, Some sc, None)
        | inr _ =>
            Ret (VNil, Some sc,
                 Some (ENew ("error unmarshaling parameter " +:+ Quote (Name (Base param)))))
        end).
Proof.
  intros (content & mt & Hcontent & Hsize & Hget & Hschema).
  unfold defaultContentParameterDecoder.
  cbn [length Nat.ltb Nat.leb andb]. rewrite Hcontent, Hsize, Hget, Hschema.
  cbn [Nat.eqb negb]. cbv zeta. split.
  - intros Hobj. rewrite (unmarshal_lenient v sc Hobj). reflexivity.
  - intros Hobj. unfold unmarshal. rewrite Hobj. cbn [negb].
    destruct (jsonUnmarshal v); reflexivity.
Qed.

Lemma unmarshalItems_outcome (values : list string) (items : option Schema) :
  forall outArray : list value,
    match unmarshalItems values items outArray with
    | Some l =>
        l = outArray ++ map (fun v => (unmarshal v items).1) values
        /\ Forall (fun v => (unmarshal v items).2 = None) values
    | None => Exists (fun v => (unmarshal v items).2 <> None) values
    end.
Proof.
  induction values as [|v values IH]; intros outArray.
  - cbn [unmarshalItems map]. rewrite app_nil_r. split; [reflexivity | constructor].
  - cbn [unmarshalItems map].
    destruct (unmarshal v items) as [item [e|]] eqn:Hv.
    + left. rewrite Hv. discriminate.
    + specialize (IH (outArray ++ [item])).
      destruct (unmarshalItems values items (outArray ++ [item])) as [l|].
      * destruct IH as [-> Hok]. split.
        -- rewrite <- app_assoc. reflexivity.
        -- constructor; [rewrite Hv; reflexivity | exact Hok].
      * right. exact IH.
Qed.

(** X23: the built-in decoder on several values.  Only a query parameter may
    have more than one value: for another parameter the decoder returns the
    error "<in> parameter <name> cannot have multiple values" before it looks
    at the content.  For a query parameter whose one content is
    application/json, no value or several values give a slice with one item
    for each value, in their order, each unmarshaled under the items schema
    (the empty slice, not nil, when there is no value), or the error "error
    unmarshaling parameter <name>" when an item is not unmarshaled; items
    whose schema is not of type object are always unmarshaled. *)
Theorem defaultContentParameterDecoder_many_values (param : ContentParam)
    (values : list string) :
  (1 < length values -> In (Base param) <> "query" ->
   defaultContentParameterDecoder param values =
     Ret (VNil, None,
          Some (ENew (In (Base param) +:+ " parameter " +:+ Quote (Name (Base param))
                      +:+ " cannot have multiple values"))))
  /\ (forall sc : Schema,
        length values <> 1 -> In (Base param) = "query" -> jsonContent param sc ->
        (Forall (fun v => (unmarshal v (Items sc)).2 = None) values ->
         defaultContentParameterDecoder param values =
           Ret (VSlice (Some (map (fun v => (unmarshal v (Items sc)).1) values)),
                Some sc, None))
        /\ (Exists (fun v => (unmarshal v (Items sc)).2 <> None) values ->
            defaultContentParameterDecoder param values =
              Ret (VNil, Some sc,
                   Some (ENew ("error unmarshaling parameter "
                               +:+ Quote (Name (Base param))))))
        /\ (forall items : Schema,
              Items sc = Some items -> Is (Type_ items) "object" = false ->
              defaultContentParameterDecoder param values =
                Ret (VSlice (Some (map jsonOrString values)), Some sc, None))).
Proof.
  split.
  - intros Hlen Hin. unfold defaultContentParameterDecoder.
    rewrite (proj2 (Nat.ltb_lt _ _) Hlen).
    rewrite (proj2 (String.eqb_neq _ _) Hin). reflexivity.
  - intros sc Hlen Hin (content & mt & Hcontent & Hsize & Hget & Hschema).
    assert (Hdec : defaultContentParameterDecoder param values =
                   match unmarshalItems values (Items sc) [] with
                   | None =>
                       Ret (VNil, Some sc,
                            Some (ENew ("error unmarshaling parameter "
                                        +:+ Quote (Name (Base param)))))
                   | Some outArray => Ret (VSlice (Some outArray), Some sc, None)
                   end).
    { unfold defaultContentParameterDecoder.
      rewrite Hin. cbn [String.eqb Ascii.eqb Bool.eqb negb]. rewrite andb_false_r.
      rewrite Hcontent, Hsize, Hget, Hschema. cbn [Nat.eqb negb]. cbv zeta.
      destruct values as [|v [|w values]]; [reflexivity | | reflexivity].
      cbn [length] in Hlen. congruence. }
    pose proof (unmarshalItems_outcome values (Items sc) []) as Hout.
    assert (Hall : Forall (fun v => (unmarshal v (Items sc)).2 = None) values ->
                   defaultContentParameterDecoder param values =
                     Ret (VSlice (Some (map (fun v => (unmarshal v (Items sc)).1) values)),
                          Some sc, None)).
    { intros Hok. rewrite Hdec.
      destruct (unmarshalItems values (Items sc) []) as [l|].
      - destruct Hout as [-> _]. reflexivity.
      - exfalso. apply Exists_exists in Hout. destruct Hout as (v & Hv & Hfail).
        rewrite Forall_forall in Hok. apply Hfail. apply Hok. exact Hv. }
    split; [exact Hall|]. split.
    + intros Hex. rewrite Hdec.
      destruct (unmarshalItems values (Items sc) []) as [l|]; [|reflexivity].
      exfalso. destruct Hout as [_ Hok].
      apply Exists_exists in Hex. destruct Hex as (v & Hv & Hfail).
      rewrite Forall_forall in Hok. apply Hfail. apply Hok. exact Hv.
    + intros items Hitems Hobj. rewrite Hall.
      * do 5 f_equal. apply map_ext. intros v. rewrite Hitems.
        rewrite (unmarshal_lenient v items Hobj). reflexivity.
      * apply Forall_forall. intros v _. rewrite Hitems.
        rewrite (unmarshal_lenient v items Hobj). reflexivity.
Qed.

End ContentParameters.

(** ** The zip body decoder *)

Lemma length_drop (n : nat) :
  forall s : string, String.length (strings.drop n s) = String.length s - n.
Proof.
  induction n as [|n IH]; intros s; [cbn [strings.drop]; lia|].
  destruct s as [|a s]; [reflexivity|]. cbn [strings.drop String.length]. apply IH.
Qed.

Lemma length_store (data buffer : string) :
  String.length data <= String.length buffer ->
  String.length (store data buffer) = String.length buffer.
Proof.
  intros Hfit. unfold store. rewrite length_append, length_drop. lia.
Qed.

Lemma length_newBuffer : String.length newBuffer = bufferSize.
Proof. reflexivity. Qed.

Lemma readFile_blocks (reads : list readResult) :
  Forall (fun r : readResult => String.length r.1 <= bufferSize) reads ->
  forall buffer content buffer' content' : string,
    String.length buffer = bufferSize ->
    Nat.divide bufferSize (String.length content) ->
    readFile reads buffer content = inl (buffer', content') ->
    String.length buffer' = bufferSize /\ Nat.divide bufferSize (String.length content').
Proof.
  induction 1 as [|[data err] reads Hfit _ IH];
    intros buffer content buffer' content' Hbuf Hdiv Hread.
  - injection Hread as <- <-. split; assumption.
  - cbn [fst] in Hfit. cbn [readFile] in Hread.
    assert (Hstore : String.length (store data buffer) = bufferSize).
    { rewrite length_store; [exact Hbuf | rewrite Hbuf; exact Hfit]. }
    assert (Hcontent : Nat.divide bufferSize
                         (String.length (if Nat.ltb 0 (String.length data)
                                         then content +:+ store data buffer
                                         else content))).
    { destruct (Nat.ltb 0 (String.length data)); [|exact Hdiv].
      rewrite length_append, Hstore. apply Nat.divide_add_r; [exact Hdiv|].
      apply Nat.divide_refl. }
    destruct err as [[|e]|].
    + injection Hread as <- <-. split; assumption.
    + discriminate Hread.
    + apply (IH _ _ _ _ Hstore Hcontent Hread).
Qed.

Lemma readFiles_blocks (files : list zipFile) :
  readsFit files ->
  forall buffer content result : string,
    String.length buffer = bufferSize ->
    Nat.divide bufferSize (String.length content) ->
    readFiles files buffer content = inl result ->
    Nat.divide bufferSize (String.length result).
Proof.
  induction 1 as [|f files Hfit _ IH]; intros buffer content result Hbuf Hdiv Hread.
  - injection Hread as <-. exact Hdiv.
  - cbn [readFiles] in Hread. destruct f as [err|reads]; [discriminate Hread|].
    destruct (readFile reads buffer content) as [[buffer' content']|err] eqn:Hfile;
      [|discriminate Hread].
    destruct (readFile_blocks reads Hfit _ _ _ _ Hbuf Hdiv Hfile) as [Hbuf' Hdiv'].
    apply (IH _ _ _ Hbuf' Hdiv' Hread).
Qed.

Section ZipDecoder.
Context {zext : ZipExternals}.

(** X24: the zip body decoder returns the content of the files in blocks of
    the size of its read buffer.  After every call of [Read] that reads some
    bytes it appends the whole buffer, not the bytes read, so that the
    decoded string has a length that is a multiple of 256 whatever the sizes
    of the files are; a file that is read in one call of less than 256 bytes
    comes out followed by the rest of the buffer, zero bytes for the first
    file. *)
Theorem zipFileBodyDecoder_content_in_blocks (body : Body)
    (header : gmap string (list string)) (schema : option Schema) (encFn : EncodingFn)
    (files : list zipFile) :
  zipNewReader (bodyData body) = inl files -> readsFit files ->
  (exists err, zipFileBodyDecoder body header schema encFn = Ret (VNil, Some err))
  \/ (exists s,
        zipFileBodyDecoder body header schema encFn = Ret (VString s, None)
        /\ Nat.divide bufferSize (String.length s)
        /\ (forall (data : string) (eof : option readError),
              files = [opens [(data, eof)]] -> 0 < String.length data ->
              s = data +:+ strings.drop (String.length data) newBuffer)).
Proof.
  intros Hzip Hfit. unfold zipFileBodyDecoder. rewrite Hzip.
  destruct (readFiles files newBuffer "") as [content|err] eqn:Hread.
  - right. exists content. split; [reflexivity|]. split.
    + apply (readFiles_blocks files Hfit newBuffer "" content length_newBuffer);
        [exists 0; reflexivity | exact Hread].
    + intros data eof -> Hdata.
      cbn [readFiles readFile] in Hread.
      rewrite (proj2 (Nat.ltb_lt _ _) Hdata) in Hread.
      destruct eof as [[|e]|]; try discriminate Hread;
        injection Hread as <-; reflexivity.
  - left. exists err. reflexivity.
Qed.

End ZipDecoder.

(** ** The urlencoded body decoder *)

Section FormDecoder.
Context {fext : FormExternals}.

(** One step of the loop of [decodeSchemaConstructs]: the object with which
    the loop goes on. *)
Lemma decodeProperties_step (dec : valueDecoder) (name : string) (prop : Schema)
    (rest : list (string * Schema)) (obj obj' : gmap string value) (encFn : EncodingFn) :
  decodeProperties dec ((name, prop) :: rest) obj encFn = Ret (inl obj') ->
  exists (val : value) (f : bool) (err : option error) (obj1 : gmap string value),
    decodeProperty dec name prop encFn = Ret (val, f, err)
    /\ decodeProperties dec rest obj1 encFn = Ret (inl obj')
    /\ obj1 = match err with
              | Some _ => obj
              | None => <[name := val]> obj
              end.
Proof.
  cbn [decodeProperties]. intros H.
  destruct (decodeProperty dec name prop encFn) as [[[val f] err]|]; [|discriminate H].
  cbn [mbind go_bind] in H. exists val, f, err.
  destruct err as [e|].
  - exists obj. repeat split. exact H.
  - exists (<[name := val]> obj). split; [reflexivity|]. split; [|reflexivity].
    destruct (obj !! name); [|exact H].
    destruct (negb (isEqual v val)); [discriminate H | exact H].
Qed.

Lemma decodeProperties_keys (dec : valueDecoder) (props : list (string * Schema))
    (encFn : EncodingFn) :
  forall obj obj' : gmap string value,
    decodeProperties dec props obj encFn = Ret (inl obj') ->
    (forall k, is_Some (obj' !! k) -> is_Some (obj !! k) \/ List.In k (map fst props))
    /\ (forall k, is_Some (obj !! k) -> is_Some (obj' !! k)).
Proof.
  induction props as [|[name prop] props IH]; intros obj obj' H.
  - injection H as <-. split; [left; assumption | trivial].
  - destruct (decodeProperties_step _ _ _ _ _ _ _ H)
      as (val & f & err & obj1 & _ & Hrest & Hobj1).
    destruct (IH obj1 obj' Hrest) as [IHin IHkeep].
    cbn [map fst List.In]. split.
    + intros k Hk. destruct (IHin k Hk) as [Hk1 | Hin]; [|right; right; exact Hin].
      subst obj1. destruct err as [e|]; [left; exact Hk1|].
      destruct (decide (name = k)) as [Heq|Hne]; [right; left; exact Heq|].
      rewrite lookup_insert_ne in Hk1 by exact Hne. left. exact Hk1.
    + intros k Hk. apply IHkeep. subst obj1. destruct err as [e|]; [exact Hk|].
      destruct (decide (name = k)) as [<-|Hne].
      * rewrite lookup_insert_eq. eexists. reflexivity.
      * rewrite lookup_insert_ne by exact Hne. exact Hk.
Qed.

Lemma decodeProperties_decoded (dec : valueDecoder) (props : list (string * Schema))
    (encFn : EncodingFn) :
  NoDup (map fst props) ->
  forall obj obj' : gmap string value,
    decodeProperties dec props obj encFn = Ret (inl obj') ->
    (forall k v, ~ List.In k (map fst props) -> obj !! k = Some v -> obj' !! k = Some v)
    /\ (forall name prop val f,
          List.In (name, prop) props ->
          decodeProperty dec name prop encFn = Ret (val, f, None) ->
          obj' !! name = Some val).
Proof.
  induction props as [|[name prop] props IH]; intros Hnd obj obj' H.
  - injection H as <-. split; [auto | intros ? ? ? ? []].
  - apply NoDup_cons in Hnd. destruct Hnd as [Hname Hnd].
    assert (Hname' : ~ List.In name (map fst props))
      by (intros Hin; apply Hname; apply list_elem_of_In; exact Hin).
    destruct (decodeProperties_step _ _ _ _ _ _ _ H)
      as (val & f & err & obj1 & Hdec & Hrest & Hobj1).
    destruct (IH Hnd obj1 obj' Hrest) as [IHkeep IHdec].
    cbn [map fst List.In]. split.
    + intros k v Hnot Hk. apply IHkeep; [intros Hin; apply Hnot; right; exact Hin|].
      subst obj1. destruct err as [e|]; [exact Hk|].
      rewrite lookup_insert_ne; [exact Hk|].
      intros ->. apply Hnot. left. reflexivity.
    + intros name' prop' val' f' [Heq | Hin] Hdec'.
      * injection Heq as <- <-. rewrite Hdec in Hdec'. injection Hdec' as -> -> ->.
        apply IHkeep; [exact Hname'|]. subst obj1. apply lookup_insert_eq.
      * apply (IHdec name' prop' val' f' Hin Hdec').
Qed.

Lemma decodeSchemaConstructs_keys (dec : valueDecoder) (schemas : list Schema)
    (encFn : EncodingFn) :
  forall obj obj' : gmap string value,
    decodeSchemaConstructs dec schemas obj encFn = Ret (inl obj') ->
    (forall k, is_Some (obj' !! k) ->
               is_Some (obj !! k) \/ List.In k (declaredNames schemas))
    /\ (forall k, is_Some (obj !! k) -> is_Some (obj' !! k)).
Proof.
  induction schemas as [|s schemas IH]; intros obj obj' H.
  - injection H as <-. split; [left; assumption | trivial].
  - cbn [decodeSchemaConstructs] in H.
    destruct (decodeProperties dec (Properties s) obj encFn) as [[obj1|err]|] eqn:Hs;
      cbn [mbind go_bind] in H; try discriminate H.
    destruct (decodeProperties_keys _ _ _ _ _ Hs) as [Hin1 Hkeep1].
    destruct (IH obj1 obj' H) as [Hin Hkeep].
    unfold declaredNames. cbn [map concat]. split.
    + intros k Hk. destruct (Hin k Hk) as [Hk1 | Hdecl].
      * destruct (Hin1 k Hk1) as [Hobj | Hs1]; [left; exact Hobj|].
        right. apply in_or_app. left. exact Hs1.
      * right. apply in_or_app. right. exact Hdecl.
    + intros k Hk. apply Hkeep. apply Hkeep1. exact Hk.
Qed.

(** X25: [decodeSchemaConstructs] adds to the object entries for declared
    properties only and removes none: when it returns an object, every key
    of the object was a key before or is the name of a property of one of the
    schemas, and every key that was there before is still there.  After one
    schema (whose property names are the keys of a map, hence distinct) the
    object holds, for every property of the schema that is decoded without
    error, the decoded value, the nil value of a property that the form does
    not give included. *)
Theorem decodeSchemaConstructs_adds_declared_properties (dec : valueDecoder)
    (schemas : list Schema) (obj obj' : gmap string value) (encFn : EncodingFn) :
  decodeSchemaConstructs dec schemas obj encFn = Ret (inl obj') ->
  (forall k, is_Some (obj' !! k) ->
             is_Some (obj !! k) \/ List.In k (declaredNames schemas))
  /\ (forall k, is_Some (obj !! k) -> is_Some (obj' !! k))
  /\ (forall (s : Schema) (name : string) (prop : Schema) (val : value) (f : bool),
        schemas = [s] -> NoDup (map fst (Properties s)) ->
        List.In (name, prop) (Properties s) ->
        decodeProperty dec name prop encFn = Ret (val, f, None) ->
        obj' !! name = Some val).
Proof.
  intros H. destruct (decodeSchemaConstructs_keys _ _ _ _ _ H) as [Hin Hkeep].
  split; [exact Hin|]. split; [exact Hkeep|].
  intros s name prop val f -> Hnd Hprop Hdec.
  cbn [decodeSchemaConstructs] in H.
  destruct (decodeProperties dec (Properties s) obj encFn) as [[obj1|err]|] eqn:Hs;
    cbn [mbind go_bind] in H; try discriminate H.
  injection H as <-.
  destruct (decodeProperties_decoded _ _ _ Hnd _ _ Hs) as [_ Hdecoded].
  apply (Hdecoded name prop val f Hprop Hdec).
Qed.

Lemma checkProperties_passed (props : list (string * Schema)) :
  checkProperties props = Ret None ->
  Forall (fun p => Is (Type_ p.2) "object" = false) props.
Proof.
  induction props as [|[propName propSchema] props IH]; intros H; [constructor|].
  cbn [checkProperties] in H.
  destruct (Is (Type_ propSchema) "object") eqn:Hobj; [discriminate H|].
  constructor; [exact Hobj|]. apply IH.
  destruct (Is (Type_ propSchema) "array"); [|exact H].
  destruct (Items propSchema) as [items|]; [|discriminate H].
  destruct (negb _); [discriminate H | exact H].
Qed.

(** X26: what the urlencoded body decoder returns without error is an
    object, not nil, and then the schema of the body is of type object, none
    of its properties is of type object, the keys of the object are names of
    properties of the schema or of a member of its [allOf], [anyOf] or
    [oneOf], and the object holds the decoded value of every property of the
    schema itself that is decoded without error from the form. *)
Theorem urlencodedBodyDecoder_returns_declared_object (body : Body)
    (header : gmap string (list string)) (schema : Schema) (encFn : EncodingFn)
    (v : value) :
  urlencodedBodyDecoder body header (Some schema) encFn = Ret (v, None) ->
  exists (obj : gmap string value) (values : gmap string (list string)),
    v = VMap (Some obj)
    /\ ParseQuery (bodyData body) = inl values
    /\ Is (Type_ schema) "object" = true
    /\ Forall (fun p => Is (Type_ p.2) "object" = false) (Properties schema)
    /\ (forall k, is_Some (obj !! k) ->
                  List.In k (declaredNames (AllOf schema ++ AnyOf schema
                                            ++ OneOf schema ++ [schema])))
    /\ (forall (name : string) (prop : Schema) (val : value) (f : bool),
          NoDup (map fst (Properties schema)) ->
          List.In (name, prop) (Properties schema) ->
          decodeProperty (urlValuesDecoder values) name prop encFn = Ret (val, f, None) ->
          obj !! name = Some val).
Proof.
  unfold urlencodedBodyDecoder. intros H.
  destruct (Is (Type_ schema) "object") eqn:Hobj; cbn [negb] in H; [|discriminate H].
  destruct (checkProperties (Properties schema)) as [[err|]|] eqn:Hcheck;
    cbn [mbind go_bind] in H; try discriminate H.
  destruct (ParseQuery (bodyData body)) as [values|err]; [|discriminate H].
  cbv zeta in H.
  destruct (decodeSchemaConstructs _ (AllOf schema) ∅ encFn) as [[obj1|err]|] eqn:H1;
    cbn [mbind go_bind] in H; try discriminate H.
  destruct (decodeSchemaConstructs _ (AnyOf schema) obj1 encFn) as [[obj2|err]|] eqn:H2;
    cbn [mbind go_bind] in H; try discriminate H.
  destruct (decodeSchemaConstructs _ (OneOf schema) obj2 encFn) as [[obj3|err]|] eqn:H3;
    cbn [mbind go_bind] in H; try discriminate H.
  destruct (decodeSchemaConstructs _ [schema] obj3 encFn) as [[obj|err]|] eqn:H4;
    cbn [mbind go_bind] in H; try discriminate H.
  injection H as <-. exists obj, values.
  split; [reflexivity|]. split; [reflexivity|]. split; [reflexivity|].
  split; [apply checkProperties_passed; exact Hcheck|]. split.
  - intros k Hk. unfold declaredNames.
    rewrite !map_app, !concat_app, !in_app_iff.
    destruct (decodeSchemaConstructs_keys _ _ _ _ _ H4) as [Hin4 _].
    destruct (Hin4 k Hk) as [Hk3 | Hd]; [|right; right; right; exact Hd].
    destruct (decodeSchemaConstructs_keys _ _ _ _ _ H3) as [Hin3 _].
    destruct (Hin3 k Hk3) as [Hk2 | Hd]; [|right; right; left; exact Hd].
    destruct (decodeSchemaConstructs_keys _ _ _ _ _ H2) as [Hin2 _].
    destruct (Hin2 k Hk2) as [Hk1 | Hd]; [|right; left; exact Hd].
    destruct (decodeSchemaConstructs_keys _ _ _ _ _ H1) as [Hin1 _].
    destruct (Hin1 k Hk1) as [Hk0 | Hd]; [|left; exact Hd].
    rewrite lookup_empty in Hk0. destruct Hk0 as [x Hx]. discriminate Hx.
  - intros name prop val f Hnd Hprop Hdec.
    cbn [decodeSchemaConstructs] in H4.
    destruct (decodeProperties _ (Properties schema) obj3 encFn) as [[obj4|err]|] eqn:Hs;
      cbn [mbind go_bind] in H4; try discriminate H4.
    injection H4 as <-.
    destruct (decodeProperties_decoded _ _ _ Hnd _ _ Hs) as [_ Hdecoded].
    apply (Hdecoded name prop val f Hprop Hdec).
Qed.

End FormDecoder.

(** ** The message of a failing item *)

(** X27: the error of an array whose item does not parse, as a caller reads
    it.  When the items before it parse and the item of index [i] is refused
    by strconv, [parseArray] returns a ParseError whose path is the index
    alone, whose root cause is the error of strconv, and whose message is
    "path <i>: value <item>: an invalid <type>: <cause>", the item written as
    it is, without quotes. *)
Theorem parseArray_item_error_message (schema items : Schema) (pre post : list string)
    (x : string) (vs : list value) (typ : string) (e : NumError) :
  Items schema = Some items ->
  parsesTo (fun v => parsePrimitive v (Some items)) pre vs ->
  parsePrimitive x (Some items) = Ret (invalidFormat x typ e) ->
  (forall pe : ParseError, Err e <> EParse pe) ->
  exists pe : ParseError,
    parseArray (pre ++ x :: post) schema = Ret (None, Some (EParse pe))
    /\ Path pe = [VInt (Z.of_nat (length pre))]
    /\ RootCause pe = Some (Err e)
    /\ Error pe = "path " +:+ pretty (Z.of_nat (length pre)) +:+ ": value " +:+ x
                  +:+ ": an invalid " +:+ typ +:+ ": " +:+ errorString (Err e).
Proof.
  intros Hitems Hpre Hx Hcause.
  eexists. split.
  - unfold parseArray. rewrite Hitems.
    rewrite (parseItems_failing_item _ pre post x vs _ _ Hpre Hx). reflexivity.
  - unfold Path, RootCause, Error.
    destruct (Err e) as [pe|msg|msg err|fn num err] eqn:He;
      [exfalso; apply (Hcause pe); reflexivity| | |];
      (split; [reflexivity|]; split; [reflexivity|]);
      cbn [errorString errPath Cause path app map Sprint innerWith innerString
           Value Reason isNil strings.Join];
      change (String.eqb ("an invalid " +:+ typ) "") with false;
      cbn [app strings.Join]; rewrite ?append_assoc; reflexivity.
Qed.

(** ** Primitive values on the four surfaces *)

(** X28: a primitive written as a path parameter (after the prefix of its
    style: none for simple, a dot for label, ";name=" for matrix), as the
    first value of a header of style simple or of a query parameter of style
    form, or as a cookie of style form, is handed to the primitive parser as
    it is: the decoder returns the value and the error of [parsePrimitive] on
    it, with [found = true].  The query decoder does so unless the schema
    has no type and a pattern, in which case the raw value is returned as a
    string. *)
Theorem decodePrimitive_of_written_value (param v : string) (schema : Schema) :
  (forall (pathParams : gmap string string) (sm : SerializationMethod) (prefix : string),
      v <> "" ->
      (Style sm = "simple" /\ prefix = "")
      \/ (Style sm = "label" /\ prefix = ".")
      \/ (Style sm = "matrix" /\ prefix = ";" +:+ param +:+ "=") ->
      pathParams !! param = Some (prefix +:+ v) ->
      path_DecodePrimitive (Some pathParams) param sm schema =
        (r ← parsePrimitive v (Some schema); Ret (r.1, true, r.2)))
  /\ (forall (header : gmap string (list string)) (sm : SerializationMethod)
             (others : list string),
        Style sm = "simple" ->
        header !! CanonicalHeaderKey param = Some (v :: others) ->
        header_DecodePrimitive header param sm schema =
          (r ← parsePrimitive v (Some schema); Ret (r.1, true, r.2)))
  /\ (forall (req : Request) (sm : SerializationMethod),
        Style sm = "form" -> Cookie req param = inl v ->
        cookie_DecodePrimitive req param sm schema =
          (r ← parsePrimitive v (Some schema); Ret (r.1, true, r.2)))
  /\ (forall (values : gmap string (list string)) (sm : SerializationMethod)
             (others : list string),
        Style sm = "form" -> values !! param = Some (v :: others) ->
        query_DecodePrimitive values param sm schema =
          if bool_decide (Type_ schema = None) && negb (String.eqb (Pattern schema) "")
          then Ret (VString v, true, None)
          else (r ← parsePrimitive v (Some schema); Ret (r.1, true, r.2))).
Proof.
  split; [|split; [|split]].
  - intros pathParams sm prefix Hv Hlayout Hraw.
    unfold path_DecodePrimitive, commaOk. rewrite Hraw.
    pose proof (append_not_empty prefix v Hv) as Hne.
    destruct Hlayout as [[Hs ->]|[[Hs ->]|[Hs ->]]]; rewrite Hs;
      cbn [String.eqb Ascii.eqb Bool.eqb negb orb];
      rewrite Hne; cbn [negb orb]; rewrite cutPrefix_append; reflexivity.
  - intros header sm others Hs Hraw.
    unfold header_DecodePrimitive, commaOkValues. rewrite Hs, Hraw. reflexivity.
  - intros req sm Hs Hcookie.
    unfold cookie_DecodePrimitive. rewrite Hs, Hcookie. reflexivity.
  - intros values sm others Hs Hraw.
    unfold query_DecodePrimitive, commaOkValues. rewrite Hs, Hraw. reflexivity.
Qed.

(** ** The errors of the object assembler *)

Lemma handlePropParseError_propertyError (keys : list string) (cause : error) :
  propertyError keys cause (handlePropParseError keys cause).
Proof. destruct cause; reflexivity. Qed.

Lemma nestedProps_error_at (props : gmap string string) (schema : Schema)
    (propName : string) (entries : list (string * string)) :
  forall (obj : gmap string value) (err : error),
    nestedProps props schema propName entries obj = Ret (inr err) ->
    exists (prop val : string),
      List.In (prop, val) entries
      /\ strings.HasPrefix prop (propName +:+ urlDecoderDelimiter) = true
      /\ match findNestedSchema schema (Split prop urlDecoderDelimiter) with
         | inr e =>
             err = EParse {| Kind := KindOther; Value := VNil; Reason := errorString e;
                             Cause := None;
                             path := map VString (Split prop urlDecoderDelimiter) |}
         | inl nested =>
             exists cause : error,
               valueFails (Permits (Type_ nested) "array") (getProp props prop) nested cause
               /\ propertyError (Split prop urlDecoderDelimiter) cause err
         end.
Proof.
  induction entries as [|[prop val] entries IH]; intros obj err H; [discriminate H|].
  assert (Hlater : forall obj1,
             nestedProps props schema propName entries obj1 = Ret (inr err) ->
             exists (prop' val' : string),
               List.In (prop', val') ((prop, val) :: entries)
               /\ strings.HasPrefix prop' (propName +:+ urlDecoderDelimiter) = true
               /\ match findNestedSchema schema (Split prop' urlDecoderDelimiter) with
                  | inr e =>
                      err = EParse {| Kind := KindOther; Value := VNil;
                                      Reason := errorString e; Cause := None;
                                      path := map VString (Split prop' urlDecoderDelimiter) |}
                  | inl nested =>
                      exists cause : error,
                        valueFails (Permits (Type_ nested) "array") (getProp props prop')
                          nested cause
                        /\ propertyError (Split prop' urlDecoderDelimiter) cause err
                  end).
  { intros obj1 H1. destruct (IH obj1 err H1) as (prop' & val' & Hin & Hrest).
    exists prop', val'. split; [right; exact Hin | exact Hrest]. }
  cbn [nestedProps] in H.
  destruct (strings.HasPrefix prop (propName +:+ urlDecoderDelimiter)) eqn:Hpre;
    cbn [negb] in H; [|apply (Hlater obj H)].
  destruct (findNestedSchema schema (Split prop urlDecoderDelimiter)) as [nested|e]
    eqn:Hfind.
  - destruct (Permits (Type_ nested) "array") eqn:Harr.
    + destruct (arrayProperty _ nested) as [[ivals [e|]]|] eqn:Hval;
        cbn [mbind go_bind] in H; try discriminate H.
      * injection H as <-. exists prop, val.
        split; [left; reflexivity|]. split; [exact Hpre|]. rewrite Hfind.
        exists e. rewrite Harr. split; [exists ivals; exact Hval|].
        apply handlePropParseError_propertyError.
      * destruct (deepSet obj _ ivals) as [obj1|]; cbn [mbind go_bind] in H;
          [apply (Hlater obj1 H) | discriminate H].
    + destruct (parsePrimitive _ (Some nested)) as [[val' [e|]]|] eqn:Hval;
        cbn [mbind go_bind] in H; try discriminate H.
      * injection H as <-. exists prop, val.
        split; [left; reflexivity|]. split; [exact Hpre|]. rewrite Hfind.
        exists e. rewrite Harr. split; [exists val'; exact Hval|].
        apply handlePropParseError_propertyError.
      * destruct (deepSet obj _ val') as [obj1|]; cbn [mbind go_bind] in H;
          [apply (Hlater obj1 H) | discriminate H].
  - injection H as <-. exists prop, val.
    split; [left; reflexivity|]. split; [exact Hpre|]. rewrite Hfind. reflexivity.
Qed.

Lemma makeObjectProps_error_at (props : gmap string string) (schema : Schema)
    (todo : list (string * Schema)) :
  forall (obj : gmap string value) (o : option (gmap string value)) (err : error),
    makeObjectProps props schema todo obj = Ret (o, Some err) ->
    o = None
    /\ exists (propName : string) (propSchema : Schema),
         List.In (propName, propSchema) todo
         /\ failsAt props schema propName propSchema err.
Proof.
  induction todo as [|[propName propSchema] todo IH]; intros obj o err H;
    [discriminate H|].
  assert (Hlater : forall obj1,
             makeObjectProps props schema todo obj1 = Ret (o, Some err) ->
             o = None
             /\ exists (propName' : string) (propSchema' : Schema),
                  List.In (propName', propSchema') ((propName, propSchema) :: todo)
                  /\ failsAt props schema propName' propSchema' err).
  { intros obj1 H1. destruct (IH obj1 o err H1) as (Ho & p & ps & Hin & Hfail).
    split; [exact Ho|]. exists p, ps. split; [right; exact Hin | exact Hfail]. }
  cbn [makeObjectProps] in H.
  destruct (Is (Type_ propSchema) "array") eqn:Harr;
    [|destruct (Is (Type_ propSchema) "object") eqn:Hobj].
  - destruct (arrayProperty _ _) as [[ivals [e|]]|] eqn:Hval; cbn [mbind go_bind] in H;
      try discriminate H; [|apply (Hlater _ H)].
    injection H as <- <-. split; [reflexivity|]. exists propName, propSchema.
    split; [left; reflexivity|]. unfold failsAt. rewrite Harr.
    exists e. split; [exists ivals; exact Hval|].
    apply handlePropParseError_propertyError.
  - destruct (nestedProps _ _ _ _ _) as [[obj'|e]|] eqn:Hn; cbn [mbind go_bind] in H;
      try discriminate H; [apply (Hlater _ H)|].
    injection H as <- <-. split; [reflexivity|]. exists propName, propSchema.
    split; [left; reflexivity|]. unfold failsAt. rewrite Harr, Hobj.
    destruct (nestedProps_error_at _ _ _ _ _ _ Hn) as (prop & val & Hin & Hpre & Hrest).
    exists prop. split; [|split; [exact Hpre | exact Hrest]].
    exists val. apply elem_of_map_to_list.
    rewrite <- (rangeOrder_perm _ props). apply list_elem_of_In. exact Hin.
  - destruct (parsePrimitive _ _) as [[val [e|]]|] eqn:Hval; cbn [mbind go_bind] in H;
      try discriminate H; [|apply (Hlater _ H)].
    injection H as <- <-. split; [reflexivity|]. exists propName, propSchema.
    split; [left; reflexivity|]. unfold failsAt. rewrite Harr, Hobj.
    exists e. split; [exists val; exact Hval|].
    apply handlePropParseError_propertyError.
Qed.

(** X29: an error of [makeObject] comes without an object and names the
    property it comes from.  There is a declared property at which the
    assembler fails: its raw value in the property map is refused by the
    array rule (a property of type array) or by the primitive parser, and the
    error is a ParseError with the name of the property as its own path and
    the parser's ParseError as its cause, or, for a cause that is not a
    ParseError, that cause wrapped behind "property <quoted name>: "; or,
    for a property of type object, a key of the property map that starts with
    the name and the delimiter fails in the same way, with the segments of
    the key as path, or has no nested schema, and then the error is a
    ParseError with the segments as path and the message of
    [findNestedSchema] as reason. *)
Theorem makeObject_error_names_property (props : gmap string string) (schema : Schema)
    (o : option (gmap string value)) (err : error) :
  makeObject props schema = Ret (o, Some err) ->
  o = None
  /\ exists (propName : string) (propSchema : Schema),
       List.In (propName, propSchema) (Properties schema)
       /\ failsAt props schema propName propSchema err.
Proof.
  apply makeObjectProps_error_at.
Qed.

End MoreProperties.

(** * Closed examples of the further properties

    Each lemma below evaluates the decoder, with the reference externals, on
    a concrete input. *)

Import MoreExamples.

(** X2, witness: the header "a,b" against an array of strings. *)
Lemma decodeArray_of_joined_strings_witness :
  header_DecodeArray tagsHeader "x-tag" (mkSM "simple" false) (arrayOf stringSchema)
    = Ret (Some [VString "a"; VString "b"], true, None).
Proof.
  assert (Hschema : stringItems (arrayOf stringSchema)).
  { exists stringSchema, []. split; reflexivity. }
  apply (proj1 (proj2 (decodeArray_of_joined_strings "x-tag" ["a"; "b"]
                         (arrayOf stringSchema) Hschema))
           tagsHeader (mkSM "simple" false) []).
  - split; [discriminate | repeat constructor; discriminate].
  - reflexivity.
  - reflexivity.
Defined.

(** X3, witness: the query value "a|b" of style pipeDelimited. *)
Lemma query_DecodeArray_of_strings_witness :
  query_DecodeArray tagsQuery "tags" (mkSM "pipeDelimited" false) (arrayOf stringSchema)
    = Ret (Some [VString "a"; VString "b"], true, None).
Proof.
  apply (proj2 (query_DecodeArray_of_strings "tags" ["a"; "b"] (arrayOf stringSchema)
                  stringSchema [] tagsQuery (mkSM "pipeDelimited" false)
                  eq_refl eq_refl (conj eq_refl (conj eq_refl (conj eq_refl eq_refl))))
           "|"%char []).
  - reflexivity.
  - right. right. split; reflexivity.
  - split; [discriminate | repeat constructor; discriminate].
  - reflexivity.
Defined.

(** X5, witness: the pairs r=1 and g= (an empty value), in both layouts. *)
Lemma propsFromString_of_joined_pairs_witness :
  propsFromString "r=1,g=" "," "=" = (Some (mapOfPairs colourPairs), None)
  /\ propsFromString "r,1,g," "," "," = (Some (mapOfPairs colourPairs), None).
Proof.
  assert (Hcomma : pairsFree ","%char colourPairs).
  { repeat constructor. }
  assert (Hequal : pairsFree "="%char colourPairs).
  { repeat constructor. }
  destruct (propsFromString_of_joined_pairs ","%char "="%char colourPairs)
    as [Hpairs _]; [discriminate | exact Hcomma | exact Hequal |].
  destruct (propsFromString_of_joined_pairs ","%char ","%char colourPairs)
    as [_ Hflat]; [discriminate | exact Hcomma | exact Hcomma |].
  split; [apply Hpairs; discriminate | exact Hflat].
Defined.

(** X6, witness: a value stored under the path a.b of the empty object, read
    back under a.b and absent under a.c. *)
Lemma deepSet_then_deepGet_witness :
  deepSet ∅ ["a"; "b"] (VInt64 1) = Ret nestedObject
  /\ deepGet (Some nestedObject) ["a"; "b"] = (VInt64 1, true)
  /\ deepGet (Some nestedObject) ["a"; "c"] = deepGet (Some ∅) ["a"; "c"].
Proof.
  assert (Hset : deepSet ∅ ["a"; "b"] (VInt64 1) = Ret nestedObject)
    by (vm_compute; reflexivity).
  destruct (deepSet_then_deepGet ∅ nestedObject ["a"; "b"] (VInt64 1) Hset)
    as [Hread Hother].
  split; [exact Hset | split; [exact Hread|]].
  apply (Hother ["a"] "b" "c" [] []); [reflexivity | discriminate].
Defined.

(** X8, witness: under [anyOf [integer; string]] the query value "abc" is no
    integer, and the string member gives the value. *)
Lemma decodeValue_anyOf_first_value_witness :
  decodeValue (queryP "abc") "p" formExplode (anyOfSchema [integerSchema; stringSchema])
      false
    = Ret (VString "abc", true, None).
Proof.
  destruct (decodeValue_anyOf_first_value (queryP "abc") "p" formExplode
              (anyOfSchema [integerSchema; stringSchema]) false)
    as [Hfirst _]; [reflexivity | discriminate |].
  apply (Hfirst [integerSchema] [] stringSchema
           [(VNil, true, Some (invalidInteger "abc"))] (VString "abc") true None).
  - reflexivity.
  - repeat constructor.
  - repeat constructor.
  - reflexivity.
  - reflexivity.
Defined.

(** X9, witness: the query value "x" is no array of integers; the array
    member of [anyOf] wins with the nil slice and the error is gone. *)
Lemma decodeValue_anyOf_array_member_wins_witness :
  query_DecodeArray {["p" := ["x"]]} "p" formExplode (arrayOf integerSchema)
    = Ret (None, true, Some (itemError 0 (invalidInteger "x")))
  /\ decodeValue (queryP "x") "p" formExplode
       (anyOfSchema [arrayOf integerSchema; stringSchema]) false
     = Ret (VSlice None, true, None).
Proof.
  split; [reflexivity|].
  apply (proj1 (decodeValue_anyOf_array_member_wins (queryP "x") "p" formExplode
                  (anyOfSchema [arrayOf integerSchema; stringSchema])
                  (arrayOf integerSchema) [stringSchema] false eq_refl eq_refl
                  (conj eq_refl (conj eq_refl (conj eq_refl eq_refl))))
           None true (Some (itemError 0 (invalidInteger "x")))).
  - reflexivity.
  - reflexivity.
Defined.

(** X10, witness: under [anyOf [integer; string]] the value "abc" fails as an
    integer and parses as a string. *)
Lemma parseValue_anyOf_first_success_witness :
  parseValue "abc" (anyOfSchema [integerSchema; stringSchema]) = Ret (VString "abc", None).
Proof.
  destruct (parseValue_anyOf_first_success "abc"
              (anyOfSchema [integerSchema; stringSchema]))
    as [Hfirst _]; [reflexivity | discriminate |].
  apply (Hfirst [integerSchema] [] stringSchema [(VNil, Some (invalidInteger "abc"))]
           (VString "abc")).
  - reflexivity.
  - repeat constructor.
  - repeat constructor. discriminate.
  - reflexivity.
Defined.

(** X12, witness: the root cause of the error of an item that is no
    integer. *)
Lemma RootCause_is_not_a_ParseError_witness :
  RootCause {| Kind := KindOther; Value := VNil; Reason := "";
               Cause := Some (invalidInteger "x"); path := [VInt 0] |} = Some ErrSyntax
  /\ forall pe : ParseError, ErrSyntax <> EParse pe.
Proof.
  split; [reflexivity|].
  apply (RootCause_is_not_a_ParseError
           {| Kind := KindOther; Value := VNil; Reason := "";
              Cause := Some (invalidInteger "x"); path := [VInt 0] |} ErrSyntax).
  reflexivity.
Defined.

(** X13, witness: a decoder registered for application/x-custom decodes the
    body of that media type. *)
Lemma decodeBody_uses_registered_decoder_witness :
  exists r1 : registry,
    RegisterBodyDecoder plainRegistry "application/x-custom" (Some plainDecoder) = Ret r1
    /\ decodeBody r1 someBody customHeader None None
       = Ret ("application/x-custom", VString "abc", None).
Proof.
  destruct (decodeBody_uses_registered_decoder plainRegistry "application/x-custom"
              plainDecoder someBody customHeader None None)
    as (r1 & r2 & Hreg & _ & _ & Hsame & _); [discriminate|].
  exists r1. split; [exact Hreg|].
  rewrite Hsame; reflexivity.
Defined.

(** X15, witness: the property map gives "a" only; the object holds the
    list with one empty string for the array of strings "tags". *)
Lemma makeObject_array_properties_witness :
  makeObject abProps tagsSchema = Ret (Some tagsObject, None)
  /\ tagsObject !! "tags" = Some (VStrings [""]).
Proof.
  assert (Hobj : makeObject abProps tagsSchema = Ret (Some tagsObject, None))
    by (vm_compute; reflexivity).
  assert (Hnd : NoDup (map fst (Properties tagsSchema))).
  { apply (bool_decide_unpack _). vm_compute. exact I. }
  destruct (makeObject_array_properties abProps tagsSchema tagsObject Hnd Hobj
              "tags" (arrayOf stringSchema)) as [_ Habsent].
  - right. left. reflexivity.
  - reflexivity.
  - split; [exact Hobj|].
    destruct (Habsent eq_refl) as (items & Hitems & _ & Hstrings).
    injection Hitems as <-. apply Hstrings; reflexivity.
Defined.

(** X16, witness: the keys of [filter[a][b]]. *)
Lemma findBrackets_of_bracketed_witness :
  findBrackets "filter[a][b]" = ["a"; "b"].
Proof.
  apply (findBrackets_of_bracketed "filter" ["a"; "b"]).
  - reflexivity.
  - repeat constructor.
Defined.

(** X18, witness: the property map gives "a" and "x"; the key "x" is not
    declared and the object does not have it. *)
Lemma makeObject_keys_are_declared_witness :
  makeObject (<["x" := "9"]> abProps) abSchema = Ret (Some abObject, None)
  /\ List.In "b" (map fst (Properties abSchema)).
Proof.
  assert (Hobj : makeObject (<["x" := "9"]> abProps) abSchema = Ret (Some abObject, None))
    by (vm_compute; reflexivity).
  split; [exact Hobj|].
  apply (makeObject_keys_are_declared (<["x" := "9"]> abProps) abSchema abObject "b").
  - repeat constructor.
  - exact Hobj.
  - eexists. reflexivity.
Defined.

(** X19, witness: the header "r=1,g=" of style simple with explode is handed
    to the assembler as the map of its two pairs. *)
Lemma decodeObject_of_written_pairs_witness :
  header_DecodeObject colourHeader "x-colour" (mkSM "simple" true)
      (objectOf [("r", integerSchema)])
    = (r ← makeObject (mapOfPairs colourPairs) (objectOf [("r", integerSchema)]);
       Ret (r.1, true, r.2)).
Proof.
  destruct (decodeObject_of_written_pairs "x-colour" colourPairs
              (objectOf [("r", integerSchema)])) as (_ & Hheader & _); [discriminate|].
  apply (Hheader colourHeader (mkSM "simple" true) [] "="%char).
  - repeat constructor.
  - repeat constructor.
  - reflexivity.
  - reflexivity.
  - reflexivity.
Defined.

(** X21, witness: a content parameter of the query with the value "true". *)
Lemma decodeContentParameter_present_witness :
  decodeContentParameter (jsonParam "query" true (schemaOf (Some ["boolean"])))
      filterInput None
    = Ret (VBool true, Some (schemaOf (Some ["boolean"])), true, None).
Proof.
  rewrite (decodeContentParameter_present
             (jsonParam "query" true (schemaOf (Some ["boolean"]))) filterInput None
             ["true"]).
  - reflexivity.
  - right. left. split; reflexivity.
Defined.

(** X22, witness: under a string schema the text "abc", which is not JSON,
    is taken as it is. *)
Lemma defaultContentParameterDecoder_one_value_witness :
  defaultContentParameterDecoder (jsonParam "query" true stringSchema) ["abc"]
    = Ret (VString "abc", Some stringSchema, None).
Proof.
  assert (Hcontent : jsonContent (jsonParam "query" true stringSchema) stringSchema).
  { eexists. eexists. split; [reflexivity|]. split; [reflexivity|].
    split; reflexivity. }
  apply (proj1 (defaultContentParameterDecoder_one_value
                  (jsonParam "query" true stringSchema) stringSchema "abc" Hcontent)).
  reflexivity.
Defined.

(** X24, witness: an archive with one file of three bytes decodes to 256
    bytes. *)
Lemma zipFileBodyDecoder_content_in_blocks_witness :
  exists s : string,
    zipFileBodyDecoder zipBody ∅ None None = Ret (VString s, None)
    /\ String.length s = 256
    /\ String.prefix "abc" s = true.
Proof.
  destruct (zipFileBodyDecoder_content_in_blocks zipBody ∅ None None
              [opens [("abc", Some EOF)]]) as [[err Herr] | (s & Hs & _ & Hone)].
  - reflexivity.
  - constructor; [|constructor]. constructor; [|constructor].
    cbn [fst String.length]. unfold bufferSize. lia.
  - discriminate Herr.
  - exists s. split; [exact Hs|].
    rewrite (Hone "abc" (Some EOF) eq_refl); [split; reflexivity|]. cbn. lia.
Defined.

(** X25, witness: the form a=x against the properties "a" and "b". *)
Lemma decodeSchemaConstructs_adds_declared_properties_witness :
  decodeSchemaConstructs (urlValuesDecoder {["a" := ["x"]]}) [formSchema] ∅ None
    = Ret (inl formObject)
  /\ formObject !! "b" = Some VNil.
Proof.
  assert (Hdec : decodeSchemaConstructs (urlValuesDecoder {["a" := ["x"]]})
                   [formSchema] ∅ None = Ret (inl formObject))
    by (vm_compute; reflexivity).
  split; [exact Hdec|].
  destruct (decodeSchemaConstructs_adds_declared_properties _ _ _ _ _ Hdec)
    as (_ & _ & Hdecoded).
  apply (Hdecoded formSchema "b" stringSchema VNil false eq_refl).
  - apply (bool_decide_unpack _). vm_compute. exact I.
  - right. left. reflexivity.
  - reflexivity.
Defined.

(** X26, witness: the body a=x against the properties "a" and "b". *)
Lemma urlencodedBodyDecoder_returns_declared_object_witness :
  urlencodedBodyDecoder formBody ∅ (Some formSchema) None
    = Ret (VMap (Some formObject), None)
  /\ Is (Type_ formSchema) "object" = true.
Proof.
  assert (Hdec : urlencodedBodyDecoder formBody ∅ (Some formSchema) None
                 = Ret (VMap (Some formObject), None))
    by (vm_compute; reflexivity).
  split; [exact Hdec|].
  destruct (urlencodedBodyDecoder_returns_declared_object formBody ∅ formSchema None
              _ Hdec) as (obj & values & _ & _ & Hobject & _).
  exact Hobject.
Defined.

(** X27, witness: the third item of "1", "2", "x" is no integer. *)
Lemma parseArray_item_error_message_witness :
  exists pe : ParseError,
    parseArray ["1"; "2"; "x"] (arrayOf integerSchema) = Ret (None, Some (EParse pe))
    /\ Path pe = [VInt 2]
    /\ RootCause pe = Some ErrSyntax
    /\ Error pe = "path 2: value x: an invalid integer: invalid syntax".
Proof.
  assert (Hpre : parsesTo (fun v => parsePrimitive v (Some integerSchema))
                   ["1"; "2"] [VInt64 1; VInt64 2]).
  { repeat constructor. }
  destruct (parseArray_item_error_message (arrayOf integerSchema) integerSchema
              ["1"; "2"] [] "x" [VInt64 1; VInt64 2] "integer"
              (Reference.syntaxError "ParseInt" "x") eq_refl Hpre)
    as (pe & Hparse & Hpath & Hroot & Hmsg).
  - reflexivity.
  - discriminate.
  - exists pe. repeat split; assumption.
Defined.

(** X1, witness: the label prefix of ".abc". *)
Lemma cutPrefix_strips_exactly_witness :
  cutPrefix ".abc" "." = ("abc", None).
Proof.
  apply (proj2 (proj1 (cutPrefix_strips_exactly ".abc" ".") "abc")). reflexivity.
Defined.

(** X7, witness: the schema under a.b, found in two steps. *)
Lemma findNestedSchema_composes_witness :
  findNestedSchema nestedSchema (["a"] ++ ["b"]) = inl integerSchema.
Proof.
  rewrite (proj1 (findNestedSchema_composes nestedSchema ["a"] ["b"])). reflexivity.
Defined.

(** X14, witness: the empty string between two integers is passed over. *)
Lemma convertArrayParameterToType_skips_empty_witness :
  convertArrayParameterToType ["1"; ""; "2"] (Some ["integer"])
    = convertArrayParameterToType ["1"; "2"] (Some ["integer"]).
Proof.
  apply (proj1 (proj1 (convertArrayParameterToType_skips_empty ["1"; ""; "2"]
                         (Some ["integer"])) eq_refl)).
Defined.

(** X17, witness: the query a=1 decoded as an object under a parameter of
    another name. *)
Lemma query_DecodeObject_takes_every_key_witness :
  query_DecodeObject {["a" := ["1"]]} "filter" formExplode abSchema
    = Ret (Some abObject, true, None).
Proof.
  rewrite (proj1 (query_DecodeObject_takes_every_key {["a" := ["1"]]} "filter"
                    formExplode abSchema) eq_refl eq_refl).
  - vm_compute. reflexivity.
  - apply insert_non_empty.
  - apply map_Forall_singleton. discriminate.
Defined.

(** X20, witness: an optional content parameter in a cookie that the request
    does not have. *)
Lemma decodeContentParameter_missing_witness :
  decodeContentParameter (jsonParam "cookie" false stringSchema) filterInput None
    = Ret (VNil, None, false, Some ErrNoCookie).
Proof.
  apply (proj2 (decodeContentParameter_missing (jsonParam "cookie" false stringSchema)
                  filterInput None) eq_refl eq_refl).
Defined.

(** X23, witness: two values for a content parameter of the header. *)
Lemma defaultContentParameterDecoder_many_values_witness :
  defaultContentParameterDecoder (jsonParam "header" true stringSchema) ["a"; "b"]
    = Ret (VNil, None,
           Some (ENew ("header parameter " +:+ Quote "filter"
                       +:+ " cannot have multiple values"))).
Proof.
  apply (proj1 (defaultContentParameterDecoder_many_values
                  (jsonParam "header" true stringSchema) ["a"; "b"])).
  - cbn [length]. lia.
  - discriminate.
Defined.

(** X28, witness: the path parameter ".12" of style label against an
    integer. *)
Lemma decodePrimitive_of_written_value_witness :
  path_DecodePrimitive (Some {["id" := ".12"]}) "id" (mkSM "label" false) integerSchema
    = Ret (VInt64 12, true, None).
Proof.
  rewrite (proj1 (decodePrimitive_of_written_value "id" "12" integerSchema)
             {["id" := ".12"]} (mkSM "label" false) ".").
  - reflexivity.
  - discriminate.
  - right. left. split; reflexivity.
  - reflexivity.
Defined.

(** X29, witness: the property "a" is declared as an integer and the
    property map gives "x" for it. *)
Lemma makeObject_error_names_property_witness :
  makeObject {["a" := "x"]} abSchema
    = Ret (None,
           Some (EParse {| Kind := KindOther; Value := VNil; Reason := "";
                           Cause := Some (invalidInteger "x"); path := [VString "a"] |}))
  /\ exists (propName : string) (propSchema : Schema),
       List.In (propName, propSchema) (Properties abSchema)
       /\ failsAt {["a" := "x"]} abSchema propName propSchema
            (EParse {| Kind := KindOther; Value := VNil; Reason := "";
                       Cause := Some (invalidInteger "x"); path := [VString "a"] |}).
Proof.
  assert (Herr : makeObject {["a" := "x"]} abSchema
                 = Ret (None,
                        Some (EParse {| Kind := KindOther; Value := VNil; Reason := "";
                                        Cause := Some (invalidInteger "x");
                                        path := [VString "a"] |})))
    by (vm_compute; reflexivity).
  split; [exact Herr|].
  exact (proj2 (makeObject_error_names_property _ _ _ _ Herr)).
Defined.
